(** * Batch compression pipeline: a shallow embedding and its properties

    The development follows the Go sources of the repository:
    - [entities]: [CompressionResult], [CompressionConfig],
      [ProcessingStatus] and their methods, and
      [AppCompressionConfig.Validate];
    - [repositories]: [FileSystemRepository], with the file inventory
      ([ListPDFFiles]) over a model of [filepath.WalkDir], and
      [ConfigRepository];
    - [usecases]: [ProcessPDFsUseCase] ([Execute], [worker],
      [replaceOriginalFile]), [CompressDirectoryUseCase.Execute],
      [CompressPDFUseCase.Execute], [CompressImageUseCase.CompressImage]
      and [ProcessAllFilesUseCase];
    - [compressors]: [IsImageFile] and [GetImageFormat];
    - [logging]: the thresholds of [FileLogger].

    Go's [int] and [int64] are modelled as [Z] with the two's complement
    wrap-around written out, [float64] as IEEE 754 binary64 through the
    [SpecFloat] operations of the standard library, [error] values as a
    small inductive type, the file system as a finite map from paths to
    contents, and effects (system calls, interface calls, sleeping,
    logging, progress reports) as a state monad that also collects the
    events a run performs. *)

From Stdlib Require Import ZArith List Bool Lia Permutation Sorted Ascii String.
From Stdlib Require Import Floats.SpecFloat.
From stdpp Require Import base gmap strings list.
Import ListNotations.

Local Open Scope Z_scope.

(** ** Machine integers *)

(** Two's complement reduction of a mathematical integer to 64 bits. Go's
    [int64], and [int] on the 64-bit platforms the program is built for,
    wrap this way on overflow. *)
Definition wrap64 (z : Z) : Z := (z + 2 ^ 63) mod 2 ^ 64 - 2 ^ 63.

Definition int64_add (a b : Z) : Z := wrap64 (a + b).
Definition int64_sub (a b : Z) : Z := wrap64 (a - b).
Definition int64_mul (a b : Z) : Z := wrap64 (a * b).
(** Go's integer division truncates towards zero. *)
Definition int64_quot (a b : Z) : Z := wrap64 (Z.quot a b).

Definition in_int64 (z : Z) : Prop := - 2 ^ 63 <= z < 2 ^ 63.

(** ** float64 *)

Definition float64 : Type := spec_float.

Definition f64_of_int (z : Z) : float64 := binary_normalize 53 1024 z 0 false.
Definition f64_sub : float64 -> float64 -> float64 := SFsub 53 1024.
Definition f64_div : float64 -> float64 -> float64 := SFdiv 53 1024.
Definition f64_mul : float64 -> float64 -> float64 := SFmul 53 1024.
Definition f64_zero : float64 := S754_zero false.
Definition f64_is_neg (x : float64) : bool := SFltb x f64_zero.

(** ** Errors *)

(** Go [error] values: a message ([errors.New], [fmt.Errorf] without
    [%w]), or a message wrapping a cause ([fmt.Errorf] with [%w]). A nil
    error is [None] in [option error]. *)
Inductive error : Type :=
| ErrNew (msg : string)
| ErrWrap (msg : string) (cause : error).

Fixpoint error_root (e : error) : error :=
  match e with
  | ErrNew _ => e
  | ErrWrap _ c => error_root c
  end.

(** ** Package entities *)

(** Domain errors ([errors.New] values of the package). *)
Definition ErrInvalidCompressionLevel : error :=
  ErrNew "уровень сжатия должен быть от 10 до 90".
Definition ErrInvalidImageQuality : error :=
  ErrNew "качество изображения должно быть от 10 до 100".
Definition ErrDirectoryNotFound : error := ErrNew "директория не найдена".
Definition ErrNoFilesFound : error := ErrNew "PDF файлы не найдены".

Module PDFDocument.
Record t : Type := {
  Path : string;
  Size : Z;
  ModifiedTime : Z;
  Pages : Z
}.
End PDFDocument.

Module CompressionResult.

Record t : Type := {
  CurrentFile : string;
  OriginalSize : Z;
  CompressedSize : Z;
  CompressionRatio : float64;
  SavedSpace : Z;
  Success : bool;
  Error : option error
}.

(** The zero value of the struct: what a Go composite literal leaves in
    the fields it does not name. *)
Definition zero : t :=
  {| CurrentFile := ""; OriginalSize := 0; CompressedSize := 0;
     CompressionRatio := f64_zero; SavedSpace := 0;
     Success := false; Error := None |}.

Definition set_CurrentFile (v : string) (cr : t) : t :=
  {| CurrentFile := v; OriginalSize := OriginalSize cr;
     CompressedSize := CompressedSize cr;
     CompressionRatio := CompressionRatio cr; SavedSpace := SavedSpace cr;
     Success := Success cr; Error := Error cr |}.

Definition set_OriginalSize (v : Z) (cr : t) : t :=
  {| CurrentFile := CurrentFile cr; OriginalSize := v;
     CompressedSize := CompressedSize cr;
     CompressionRatio := CompressionRatio cr; SavedSpace := SavedSpace cr;
     Success := Success cr; Error := Error cr |}.

Definition set_failure (e : error) (cr : t) : t :=
  {| CurrentFile := CurrentFile cr; OriginalSize := OriginalSize cr;
     CompressedSize := CompressedSize cr;
     CompressionRatio := CompressionRatio cr; SavedSpace := SavedSpace cr;
     Success := false; Error := Some e |}.

(** [((float64(o) - float64(c)) / float64(o)) * 100] *)
Definition ratio_of (o c : Z) : float64 :=
  f64_mul (f64_div (f64_sub (f64_of_int o) (f64_of_int c)) (f64_of_int o))
          (f64_of_int 100).

Definition CalculateCompressionRatio (cr : t) : t :=
  if 0 <? OriginalSize cr then
    {| CurrentFile := CurrentFile cr;
       OriginalSize := OriginalSize cr;
       CompressedSize := CompressedSize cr;
       CompressionRatio := ratio_of (OriginalSize cr) (CompressedSize cr);
       SavedSpace := int64_sub (OriginalSize cr) (CompressedSize cr);
       Success := Success cr;
       Error := Error cr |}
  else cr.

Definition IsEffective (cr : t) : bool :=
  Success cr && SFltb f64_zero (CompressionRatio cr).

End CompressionResult.

Module CompressionConfig.

Record t : Type := {
  Level : Z;
  ImageQuality : Z;
  ImageCompression : bool;
  RemoveDuplicates : bool;
  CompressStreams : bool;
  RemoveMetadata : bool;
  RemoveAnnotations : bool;
  RemoveAttachments : bool;
  OptimizeForWeb : bool;
  UniPDFLicenseKey : string
}.

Definition NewCompressionConfigWithLicense (level : Z) (licenseKey : string) : t :=
  let level := if level <? 10 then 10 else level in
  let level := if 90 <? level then 90 else level in
  let mk q meta ann att :=
    {| Level := level; ImageQuality := q; ImageCompression := true;
       RemoveDuplicates := true; CompressStreams := true;
       RemoveMetadata := meta; RemoveAnnotations := ann;
       RemoveAttachments := att; OptimizeForWeb := true;
       UniPDFLicenseKey := licenseKey |} in
  if level <=? 20 then mk 90 false false false
  else if level <=? 40 then mk 75 true false false
  else if level <=? 60 then mk 60 true true false
  else if level <=? 80 then mk 40 true true true
  else mk 25 true true true.

Definition NewCompressionConfig (level : Z) : t :=
  NewCompressionConfigWithLicense level "".

Definition Validate (c : t) : option error :=
  if (Level c <? 10) || (90 <? Level c) then Some ErrInvalidCompressionLevel
  else if (ImageQuality c <? 10) || (100 <? ImageQuality c)
       then Some ErrInvalidImageQuality
  else None.

End CompressionConfig.

(** The application configuration ([Config] and its parts). Only the
    fields the batch pipeline reads are kept from [AppCompressionConfig]
    and [ProcessingConfig]; [OutputConfig] is not read by it at all. *)
Module Config.

Record ScannerConfig : Type := {
  SourceDirectory : string;
  TargetDirectory : string;
  ReplaceOriginal : bool
}.

Record AppCompressionConfig : Type := {
  Level : Z;
  Algorithm : string;
  UniPDFLicenseKey : string
}.

Record ProcessingConfig : Type := {
  ParallelWorkers : Z;
  TimeoutSeconds : Z;
  RetryAttempts : Z
}.

Record t : Type := {
  Scanner : ScannerConfig;
  Compression : AppCompressionConfig;
  Processing : ProcessingConfig
}.

End Config.

Inductive ProcessingPhase : Type :=
| PhaseInitializing
| PhaseScanning
| PhaseCompressing
| PhaseReplacing
| PhaseCompleted
| PhaseFailed.

(** [time.Time] is a number of nanoseconds on the monotonic clock and
    [time.Duration] an [int64] of nanoseconds. [Time.Sub], hence
    [time.Since], saturates at the ends of the [int64] range. *)
Definition time_Second : Z := 1000000000.

Definition time_Sub (t u : Z) : Z :=
  Z.max (- 2 ^ 63) (Z.min (2 ^ 63 - 1) (t - u)).

Module ProcessingStatus.

Record t : Type := {
  Phase : ProcessingPhase;
  CurrentFile : string;
  CurrentFileSize : Z;
  TotalFiles : Z;
  ProcessedFiles : Z;
  SuccessfulFiles : Z;
  FailedFiles : Z;
  SkippedFiles : Z;
  Progress : float64;
  TotalOriginalSize : Z;
  TotalCompressedSize : Z;
  TotalSavedSpace : Z;
  AverageCompression : float64;
  LastResult : option CompressionResult.t;
  StartTime : Z;
  ElapsedTime : Z;
  EstimatedTime : Z;
  IsComplete : bool;
  Error : option error;
  Message : string
}.

(** [now] stands for the reading of [time.Now()]. *)
Definition NewProcessingStatus (now : Z) (totalFiles : Z) : t :=
  {| Phase := PhaseInitializing; CurrentFile := ""; CurrentFileSize := 0;
     TotalFiles := totalFiles; ProcessedFiles := 0; SuccessfulFiles := 0;
     FailedFiles := 0; SkippedFiles := 0; Progress := f64_zero;
     TotalOriginalSize := 0; TotalCompressedSize := 0;
     TotalSavedSpace := 0; AverageCompression := f64_zero;
     LastResult := None; StartTime := now; ElapsedTime := 0;
     EstimatedTime := 0; IsComplete := false; Error := None;
     Message := "" |}.

Definition set_TotalFiles (n : Z) (ps : t) : t :=
  {| Phase := Phase ps; CurrentFile := CurrentFile ps;
     CurrentFileSize := CurrentFileSize ps;
     TotalFiles := n; ProcessedFiles := ProcessedFiles ps;
     SuccessfulFiles := SuccessfulFiles ps; FailedFiles := FailedFiles ps;
     SkippedFiles := SkippedFiles ps; Progress := Progress ps;
     TotalOriginalSize := TotalOriginalSize ps;
     TotalCompressedSize := TotalCompressedSize ps;
     TotalSavedSpace := TotalSavedSpace ps;
     AverageCompression := AverageCompression ps;
     LastResult := LastResult ps; StartTime := StartTime ps;
     ElapsedTime := ElapsedTime ps; EstimatedTime := EstimatedTime ps;
     IsComplete := IsComplete ps; Error := Error ps;
     Message := Message ps |}.

Definition UpdateProgress (now : Z) (ps : t) : t :=
  let progress :=
    if 0 <? TotalFiles ps
    then f64_mul (f64_div (f64_of_int (ProcessedFiles ps))
                          (f64_of_int (TotalFiles ps)))
                 (f64_of_int 100)
    else Progress ps in
  let elapsed := time_Sub now (StartTime ps) in
  let estimated :=
    if (0 <? ProcessedFiles ps) && (ProcessedFiles ps <? TotalFiles ps) then
      let avgTimePerFile := int64_quot elapsed (ProcessedFiles ps) in
      let remainingFiles := int64_sub (TotalFiles ps) (ProcessedFiles ps) in
      int64_mul avgTimePerFile remainingFiles
    else EstimatedTime ps in
  {| Phase := Phase ps; CurrentFile := CurrentFile ps;
     CurrentFileSize := CurrentFileSize ps;
     TotalFiles := TotalFiles ps; ProcessedFiles := ProcessedFiles ps;
     SuccessfulFiles := SuccessfulFiles ps; FailedFiles := FailedFiles ps;
     SkippedFiles := SkippedFiles ps; Progress := progress;
     TotalOriginalSize := TotalOriginalSize ps;
     TotalCompressedSize := TotalCompressedSize ps;
     TotalSavedSpace := TotalSavedSpace ps;
     AverageCompression := AverageCompression ps;
     LastResult := LastResult ps; StartTime := StartTime ps;
     ElapsedTime := elapsed; EstimatedTime := estimated;
     IsComplete := IsComplete ps; Error := Error ps;
     Message := Message ps |}.

(** The branch of [AddResult] taken by a successful result. *)
Definition addSuccess (result : CompressionResult.t) (ps : t) : t :=
  let totalOriginal :=
    int64_add (TotalOriginalSize ps) (CompressionResult.OriginalSize result) in
  let totalCompressed :=
    int64_add (TotalCompressedSize ps) (CompressionResult.CompressedSize result) in
  {| Phase := Phase ps; CurrentFile := CurrentFile ps;
     CurrentFileSize := CurrentFileSize ps;
     TotalFiles := TotalFiles ps; ProcessedFiles := ProcessedFiles ps;
     SuccessfulFiles := int64_add (SuccessfulFiles ps) 1;
     FailedFiles := FailedFiles ps;
     SkippedFiles := SkippedFiles ps; Progress := Progress ps;
     TotalOriginalSize := totalOriginal;
     TotalCompressedSize := totalCompressed;
     TotalSavedSpace :=
       int64_add (TotalSavedSpace ps) (CompressionResult.SavedSpace result);
     AverageCompression :=
       if 0 <? totalOriginal
       then CompressionResult.ratio_of totalOriginal totalCompressed
       else AverageCompression ps;
     LastResult := LastResult ps; StartTime := StartTime ps;
     ElapsedTime := ElapsedTime ps; EstimatedTime := EstimatedTime ps;
     IsComplete := IsComplete ps; Error := Error ps;
     Message := Message ps |}.

(** The branch of [AddResult] taken by any other result. *)
Definition addFailure (ps : t) : t :=
  {| Phase := Phase ps; CurrentFile := CurrentFile ps;
     CurrentFileSize := CurrentFileSize ps;
     TotalFiles := TotalFiles ps; ProcessedFiles := ProcessedFiles ps;
     SuccessfulFiles := SuccessfulFiles ps;
     FailedFiles := int64_add (FailedFiles ps) 1;
     SkippedFiles := SkippedFiles ps; Progress := Progress ps;
     TotalOriginalSize := TotalOriginalSize ps;
     TotalCompressedSize := TotalCompressedSize ps;
     TotalSavedSpace := TotalSavedSpace ps;
     AverageCompression := AverageCompression ps;
     LastResult := LastResult ps; StartTime := StartTime ps;
     ElapsedTime := ElapsedTime ps; EstimatedTime := EstimatedTime ps;
     IsComplete := IsComplete ps; Error := Error ps;
     Message := Message ps |}.

(** [ps.ProcessedFiles++; ps.LastResult = result] *)
Definition countResult (result : CompressionResult.t) (ps : t) : t :=
  {| Phase := Phase ps; CurrentFile := CurrentFile ps;
     CurrentFileSize := CurrentFileSize ps;
     TotalFiles := TotalFiles ps;
     ProcessedFiles := int64_add (ProcessedFiles ps) 1;
     SuccessfulFiles := SuccessfulFiles ps; FailedFiles := FailedFiles ps;
     SkippedFiles := SkippedFiles ps; Progress := Progress ps;
     TotalOriginalSize := TotalOriginalSize ps;
     TotalCompressedSize := TotalCompressedSize ps;
     TotalSavedSpace := TotalSavedSpace ps;
     AverageCompression := AverageCompression ps;
     LastResult := Some result; StartTime := StartTime ps;
     ElapsedTime := ElapsedTime ps; EstimatedTime := EstimatedTime ps;
     IsComplete := IsComplete ps; Error := Error ps;
     Message := Message ps |}.

(** The test [result.Success && result.Error == nil]. *)
Definition isSuccess (result : CompressionResult.t) : bool :=
  CompressionResult.Success result
  && match CompressionResult.Error result with None => true | Some _ => false end.

Definition AddResult (now : Z) (result : CompressionResult.t) (ps : t) : t :=
  let ps := countResult result ps in
  let ps := if isSuccess result then addSuccess result ps else addFailure ps in
  UpdateProgress now ps.

Definition SetPhase (phase : ProcessingPhase) (message : string) (ps : t) : t :=
  {| Phase := phase; CurrentFile := CurrentFile ps;
     CurrentFileSize := CurrentFileSize ps;
     TotalFiles := TotalFiles ps; ProcessedFiles := ProcessedFiles ps;
     SuccessfulFiles := SuccessfulFiles ps; FailedFiles := FailedFiles ps;
     SkippedFiles := SkippedFiles ps; Progress := Progress ps;
     TotalOriginalSize := TotalOriginalSize ps;
     TotalCompressedSize := TotalCompressedSize ps;
     TotalSavedSpace := TotalSavedSpace ps;
     AverageCompression := AverageCompression ps;
     LastResult := LastResult ps; StartTime := StartTime ps;
     ElapsedTime := ElapsedTime ps; EstimatedTime := EstimatedTime ps;
     IsComplete := IsComplete ps; Error := Error ps;
     Message := message |}.

Definition SetCurrentFile (filePath : string) (size : Z) (ps : t) : t :=
  {| Phase := Phase ps; CurrentFile := filePath;
     CurrentFileSize := size;
     TotalFiles := TotalFiles ps; ProcessedFiles := ProcessedFiles ps;
     SuccessfulFiles := SuccessfulFiles ps; FailedFiles := FailedFiles ps;
     SkippedFiles := SkippedFiles ps; Progress := Progress ps;
     TotalOriginalSize := TotalOriginalSize ps;
     TotalCompressedSize := TotalCompressedSize ps;
     TotalSavedSpace := TotalSavedSpace ps;
     AverageCompression := AverageCompression ps;
     LastResult := LastResult ps; StartTime := StartTime ps;
     ElapsedTime := ElapsedTime ps; EstimatedTime := EstimatedTime ps;
     IsComplete := IsComplete ps; Error := Error ps;
     Message := Message ps |}.

Definition Complete (now : Z) (ps : t) : t :=
  {| Phase := PhaseCompleted; CurrentFile := CurrentFile ps;
     CurrentFileSize := CurrentFileSize ps;
     TotalFiles := TotalFiles ps; ProcessedFiles := ProcessedFiles ps;
     SuccessfulFiles := SuccessfulFiles ps; FailedFiles := FailedFiles ps;
     SkippedFiles := SkippedFiles ps; Progress := f64_of_int 100;
     TotalOriginalSize := TotalOriginalSize ps;
     TotalCompressedSize := TotalCompressedSize ps;
     TotalSavedSpace := TotalSavedSpace ps;
     AverageCompression := AverageCompression ps;
     LastResult := LastResult ps; StartTime := StartTime ps;
     ElapsedTime := time_Sub now (StartTime ps); EstimatedTime := 0;
     IsComplete := true; Error := Error ps;
     Message := Message ps |}.

Definition Fail (now : Z) (err : error) (ps : t) : t :=
  {| Phase := PhaseFailed; CurrentFile := CurrentFile ps;
     CurrentFileSize := CurrentFileSize ps;
     TotalFiles := TotalFiles ps; ProcessedFiles := ProcessedFiles ps;
     SuccessfulFiles := SuccessfulFiles ps; FailedFiles := FailedFiles ps;
     SkippedFiles := SkippedFiles ps; Progress := Progress ps;
     TotalOriginalSize := TotalOriginalSize ps;
     TotalCompressedSize := TotalCompressedSize ps;
     TotalSavedSpace := TotalSavedSpace ps;
     AverageCompression := AverageCompression ps;
     LastResult := LastResult ps; StartTime := StartTime ps;
     ElapsedTime := time_Sub now (StartTime ps);
     EstimatedTime := EstimatedTime ps;
     IsComplete := true; Error := Some err;
     Message := Message ps |}.

(** The aggregator fed a sequence of results, each with the reading of
    the clock at its arrival. *)
Definition feed (inputs : list (Z * CompressionResult.t)) (ps : t) : t :=
  fold_left (fun ps input => AddResult (fst input) (snd input) ps) inputs ps.

End ProcessingStatus.

(** ** The world the program runs in *)

(** Regular files by path, in one flat name space. Directories are not
    tracked: creating one succeeds unless a regular file is in the way
    ([os_MkdirAll]), and a path that is no regular file is a missing
    path to the other calls. The model speaks for the system calls on
    regular files and on missing paths; a call on a directory that
    exists is outside it. *)
Abbreviation FileSystem := (gmap string string).

(** [w_faults] is the fate of the coming system calls, one entry per
    call: [Some e] makes the call fail with [e] without touching the file
    system (permissions, I/O errors, a full disk, ...), [None] — and an
    exhausted list — lets it proceed on the file system as it is. *)
Record World : Type := {
  w_fs : FileSystem;
  w_faults : list (option error);
  w_clock : Z
}.

Definition set_fs (fs : FileSystem) (w : World) : World :=
  {| w_fs := fs; w_faults := w_faults w; w_clock := w_clock w |}.

Definition set_faults (fl : list (option error)) (w : World) : World :=
  {| w_fs := w_fs w; w_faults := fl; w_clock := w_clock w |}.

Definition set_clock (c : Z) (w : World) : World :=
  {| w_fs := w_fs w; w_faults := w_faults w; w_clock := c |}.

Inductive Syscall : Type :=
| SysStat (path : string)
| SysRename (oldpath newpath : string)
| SysRemove (path : string)
| SysMkdirAll (path : string).

Inductive LogLevel : Type := LInfo | LWarning | LError | LSuccess.

(** What a run does that can be seen from outside. *)
Inductive Event : Type :=
| EvSyscall (call : Syscall) (result : option error)
| EvCompress (input output : string) (err : option error)
| EvSleep (d : Z)
| EvLog (level : LogLevel) (format : string)
| EvReport (snapshot : ProcessingStatus.t)
| EvSpawn (id : Z)
| EvPublish (result : CompressionResult.t).

(** State monad over the world, collecting events. *)
Definition M (A : Type) : Type := World -> A * World * list Event.

Definition ret {A} (a : A) : M A := fun w => (a, w, []).

Definition bind {A B} (m : M A) (k : A -> M B) : M B :=
  fun w =>
    let '(a, w1, ev1) := m w in
    let '(b, w2, ev2) := k a w1 in
    (b, w2, ev1 ++ ev2).

Definition emit (e : Event) : M unit := fun w => (tt, w, [e]).

(** A call through an interface: it may read and change the world, and
    is not observed by itself. *)
Definition call {A} (f : World -> A * World) : M A :=
  fun w => let '(a, w') := f w in (a, w', []).

Definition when (b : bool) (m : M unit) : M unit := if b then m else ret tt.

Declare Scope M_scope.
Delimit Scope M_scope with M.
Notation "x <- m ;; k" := (bind m (fun x => k))
  (at level 100, m at next level, right associativity) : M_scope.
Notation "m ;;; k" := (bind m (fun _ => k))
  (at level 100, right associativity) : M_scope.

Definition result_of {A} (r : A * World * list Event) : A := fst (fst r).
Definition world_of {A} (r : A * World * list Event) : World := snd (fst r).
Definition events_of {A} (r : A * World * list Event) : list Event := snd r.

(** *** Package os *)

Definition ENOENT : error := ErrNew "no such file or directory".
Definition ENOTDIR : error := ErrNew "not a directory".

Definition error_msg (e : error) : string :=
  match e with ErrNew m => m | ErrWrap m _ => m end.

(** [os.IsNotExist]: the underlying error is [ENOENT]; false on nil. *)
Definition os_IsNotExist (err : option error) : bool :=
  match err with
  | None => false
  | Some e => String.eqb (error_msg (error_root e)) (error_msg ENOENT)
  end.

(** The [*PathError] and [*LinkError] wrappers of package os. *)
Definition PathError (op path : string) (e : error) : error :=
  ErrWrap (op +:+ " " +:+ path) e.
Definition LinkError (op oldpath newpath : string) (e : error) : error :=
  ErrWrap (op +:+ " " +:+ oldpath +:+ " " +:+ newpath) e.

Definition next_fault (w : World) : option error * World :=
  match w_faults w with
  | [] => (None, w)
  | f :: rest => (f, set_faults rest w)
  end.

(** [os.Stat] of a regular file or of a missing path: the size of the
    file, or an error. *)
Definition os_Stat (path : string) : M (option Z * option error) :=
  fun w =>
    let '(f, w1) := next_fault w in
    let r :=
      match f with
      | Some e => (None, Some (PathError "stat" path e))
      | None =>
          match w_fs w1 !! path with
          | Some c => (Some (Z.of_nat (String.length c)), None)
          | None => (None, Some (PathError "stat" path ENOENT))
          end
      end in
    (r, w1, [EvSyscall (SysStat path) (snd r)]).

(** [os.Rename]: moves the file, replacing whatever [newpath] held. *)
Definition os_Rename (oldpath newpath : string) : M (option error) :=
  fun w =>
    let '(f, w1) := next_fault w in
    let '(r, w2) :=
      match f with
      | Some e => (Some (LinkError "rename" oldpath newpath e), w1)
      | None =>
          match w_fs w1 !! oldpath with
          | Some c => (None, set_fs (<[newpath := c]> (delete oldpath (w_fs w1))) w1)
          | None => (Some (LinkError "rename" oldpath newpath ENOENT), w1)
          end
      end in
    (r, w2, [EvSyscall (SysRename oldpath newpath) r]).

(** [os.Remove] *)
Definition os_Remove (path : string) : M (option error) :=
  fun w =>
    let '(f, w1) := next_fault w in
    let '(r, w2) :=
      match f with
      | Some e => (Some (PathError "remove" path e), w1)
      | None =>
          match w_fs w1 !! path with
          | Some _ => (None, set_fs (delete path (w_fs w1)) w1)
          | None => (Some (PathError "remove" path ENOENT), w1)
          end
      end in
    (r, w2, [EvSyscall (SysRemove path) r]).

(** The paths above [path]: what comes before each of its separators. *)
Fixpoint ancestors (path : string) : list string :=
  match path with
  | EmptyString => []
  | String c rest =>
      (if Ascii.eqb c "/" then [EmptyString] else [])
      ++ map (String c) (ancestors rest)
  end.

(** [os.MkdirAll]: fails when the path, or a path above it, is a
    regular file, with the error on that file as Go's recursion up the
    path finds it. *)
Definition os_MkdirAll (path : string) : M (option error) :=
  fun w =>
    let '(f, w1) := next_fault w in
    let r :=
      match f with
      | Some e => Some (PathError "mkdir" path e)
      | None =>
          match List.find (fun p => bool_decide (is_Some (w_fs w1 !! p)))
                  (path :: rev (ancestors path)) with
          | Some p => Some (PathError "mkdir" p ENOTDIR)
          | None => None
          end
      end in
    (r, w1, [EvSyscall (SysMkdirAll path) r]).

(** [time.Sleep] *)
Definition time_Sleep (d : Z) : M unit :=
  fun w => (tt, set_clock (w_clock w + Z.max 0 d) w, [EvSleep d]).

(** [time.Now] *)
Definition time_Now : M Z := fun w => (w_clock w, w, []).

(** *** Package path/filepath

    [Base], [Rel], [Join] and [Dir] belong to Go's library and only shape
    the output path of a job; they are taken as given. *)
Record Filepath : Type := {
  filepath_Base : string -> string;
  filepath_Rel : string -> string -> string * option error;
  filepath_Join : string -> string -> string;
  filepath_Dir : string -> string
}.

(** ** Package repositories: the interfaces *)

Record PDFCompressor : Type := {
  Compress : string -> string -> CompressionConfig.t ->
             World -> (option CompressionResult.t * option error) * World
}.

Record FileRepository : Type := {
  GetFileInfo : string -> World -> (option PDFDocument.t * option error) * World;
  FileExists : string -> World -> bool * World;
  CreateDirectory : string -> World -> option error * World;
  ListPDFFiles : string -> World -> (list string * option error) * World
}.

Record ConfigRepository : Type := {
  GetCompressionConfig : Z -> World -> (option CompressionConfig.t * option error) * World;
  ValidateConfig : CompressionConfig.t -> World -> option error * World
}.

(** ** Package usecases *)

(** A nil pointer dereference panics and takes the process down; a
    computation that can reach one ends in [Panic]. *)
Inductive Go (A : Type) : Type :=
| Done (a : A)
| Panic.
Arguments Done {A} a.
Arguments Panic {A}.

Local Open Scope M_scope.

Section usecases.

Variable fp : Filepath.

(** [logger] tells whether [uc.logger] is non-nil, [progressReporter]
    whether a reporter has been registered; what they print is their
    own business, that they are called is recorded as an event. *)
Record ProcessPDFsUseCase : Type := {
  compressor : PDFCompressor;
  fileRepo : FileRepository;
  configRepo : ConfigRepository;
  logger : bool;
  progressReporter : bool
}.

Variable uc : ProcessPDFsUseCase.

Definition logf (level : LogLevel) (format : string) : M unit :=
  when (logger uc) (emit (EvLog level format)).

Definition reportProgress (status : ProcessingStatus.t) : M unit :=
  when (progressReporter uc) (emit (EvReport status)).

(** *** replaceOriginalFile *)

Definition replaceOriginalFile (originalFile tempFile : string) : M (option error) :=
  st <- os_Stat tempFile ;;
  if os_IsNotExist (snd st) then
    ret (Some (ErrNew ("временный файл не существует: " +:+ tempFile)))
  else
    logf LInfo "Замена оригинального файла: %s" ;;;
    let backupFile := originalFile +:+ ".backup" in
    err <- os_Rename originalFile backupFile ;;
    match err with
    | Some e =>
        logf LError "Ошибка создания резервной копии %s: %v" ;;;
        ret (Some (ErrWrap "ошибка создания резервной копии" e))
    | None =>
        err <- os_Rename tempFile originalFile ;;
        match err with
        | Some e =>
            logf LError "Ошибка замены файла %s: %v" ;;;
            _ <- os_Rename backupFile originalFile ;;
            ret (Some (ErrWrap "ошибка замены файла" e))
        | None =>
            err <- os_Remove backupFile ;;
            match err with
            | Some _ => logf LWarning "Не удалось удалить резервную копию %s: %v"
            | None => ret tt
            end ;;;
            logf LInfo "Оригинальный файл успешно заменен: %s" ;;;
            ret None
        end
    end.

(** *** worker *)

Variable config : Config.t.
Variable compressionConfig : CompressionConfig.t.

Definition RetryAttempts : Z := Config.RetryAttempts (Config.Processing config).
Definition ReplaceOriginal : bool := Config.ReplaceOriginal (Config.Scanner config).
Definition SourceDirectory : string := Config.SourceDirectory (Config.Scanner config).
Definition TargetDirectory : string := Config.TargetDirectory (Config.Scanner config).

Definition publish (result : CompressionResult.t) : M (Go CompressionResult.t) :=
  emit (EvPublish result) ;;; ret (Done result).

(** The failed result of a job that never reached the compressor. *)
Definition failedResult (inputFile : string) (originalSize : Z) (e : error)
  : CompressionResult.t :=
  {| CompressionResult.CurrentFile := inputFile;
     CompressionResult.OriginalSize := originalSize;
     CompressionResult.CompressedSize := 0;
     CompressionResult.CompressionRatio := f64_zero;
     CompressionResult.SavedSpace := 0;
     CompressionResult.Success := false;
     CompressionResult.Error := Some e |}.

(** The output path of a job, or the error of creating its directory. *)
Definition resolveOutput (inputFile : string) : M (string + error) :=
  let fileName := filepath_Base fp inputFile in
  if ReplaceOriginal then ret (inl (inputFile +:+ ".tmp"))
  else
    let '(relPath, err) := filepath_Rel fp SourceDirectory inputFile in
    match err with
    | Some _ => ret (inl (filepath_Join fp TargetDirectory fileName))
    | None =>
        let outputFile := filepath_Join fp TargetDirectory relPath in
        let outputDir := filepath_Dir fp outputFile in
        err <- os_MkdirAll outputDir ;;
        match err with
        | Some e =>
            ret (inr (ErrWrap ("не удалось создать директорию " +:+ outputDir) e))
        | None => ret (inl outputFile)
        end
    end.

(** The retry loop
    [for attempt := 0; attempt < RetryAttempts; attempt++].
    [remaining] counts the iterations the loop condition still admits,
    [RetryAttempts - attempt] when that is positive and none otherwise;
    [last] is the pair [(result, err)] the loop variables hold. *)
Fixpoint retryFrom (inputFile outputFile : string) (remaining : nat) (attempt : Z)
    (last : option CompressionResult.t * option error)
  : M (option CompressionResult.t * option error) :=
  match remaining with
  | O => ret last
  | S remaining' =>
      r <- call (Compress (compressor uc) inputFile outputFile compressionConfig) ;;
      emit (EvCompress inputFile outputFile (snd r)) ;;;
      match snd r with
      | None => ret r
      | Some _ =>
          (if attempt <? int64_sub RetryAttempts 1 then
             logf LWarning "Попытка %d/%d для файла %s не удалась: %v" ;;;
             time_Sleep (2 * time_Second)
           else ret tt) ;;;
          retryFrom inputFile outputFile remaining' (int64_add attempt 1) r
      end
  end.

Definition compressWithRetry (inputFile outputFile : string)
  : M (option CompressionResult.t * option error) :=
  retryFrom inputFile outputFile (Z.to_nat RetryAttempts) 0 (None, None).

(** What the worker does with the compressor's result once the loop has
    ended without an error. *)
Definition finishJob (inputFile outputFile : string) (size : Z)
    (result : CompressionResult.t) : M (Go CompressionResult.t) :=
  let result := CompressionResult.set_CurrentFile inputFile result in
  let result := CompressionResult.set_OriginalSize size result in
  let result := CompressionResult.CalculateCompressionRatio result in
  if ReplaceOriginal then
    err <- replaceOriginalFile inputFile outputFile ;;
    match err with
    | Some e =>
        let result :=
          CompressionResult.set_failure
            (ErrWrap "ошибка замены оригинального файла" e) result in
        _ <- os_Remove outputFile ;;
        logf LError "Не удалось заменить оригинальный файл %s: %v" ;;;
        publish result
    | None =>
        let result := CompressionResult.set_CurrentFile inputFile result in
        logf LInfo "Файл %s успешно заменен сжатой версией" ;;;
        publish result
    end
  else publish result.

(** One iteration of the worker's loop over the job queue. *)
Definition processJob (inputFile : string) : M (Go CompressionResult.t) :=
  out <- resolveOutput inputFile ;;
  match out with
  | inr e => publish (failedResult inputFile 0 e)
  | inl outputFile =>
      info <- call (GetFileInfo (fileRepo uc) inputFile) ;;
      match snd info with
      | Some e =>
          publish (failedResult inputFile 0
                     (ErrWrap "ошибка получения информации о файле" e))
      | None =>
          r <- compressWithRetry inputFile outputFile ;;
          match fst info, snd r with
          | None, _ => ret Panic
          | Some fileInfo, Some e =>
              publish (failedResult inputFile (PDFDocument.Size fileInfo) e)
          | Some fileInfo, None =>
              match fst r with
              | None => ret Panic
              | Some result =>
                  finishJob inputFile outputFile (PDFDocument.Size fileInfo) result
              end
          end
      end
  end.

(** The worker's loop [for inputFile := range jobs]: the results it
    publishes, in order, unless a job panics. *)
Fixpoint worker (jobs : list string) : M (Go (list CompressionResult.t)) :=
  match jobs with
  | [] => ret (Done [])
  | inputFile :: rest =>
      r <- processJob inputFile ;;
      match r with
      | Panic => ret Panic
      | Done result =>
          rs <- worker rest ;;
          match rs with
          | Panic => ret Panic
          | Done results => ret (Done (result :: results))
          end
      end
  end.

End usecases.

Section ProcessPDFs.

Variable fp : Filepath.
Variable uc : ProcessPDFsUseCase.
Variable config : Config.t.

(** [status.Fail(err); uc.reportProgress(status); return err] *)
Definition failRun (err : error) (status : ProcessingStatus.t)
  : M (Go (option error * ProcessingStatus.t)) :=
  now <- time_Now ;;
  let status := ProcessingStatus.Fail now err status in
  reportProgress uc status ;;;
  ret (Done (Some err, status)).

(** [status.Complete(); uc.reportProgress(status); return nil] *)
Definition completeRun (status : ProcessingStatus.t)
  : M (Go (option error * ProcessingStatus.t)) :=
  now <- time_Now ;;
  let status := ProcessingStatus.Complete now status in
  reportProgress uc status ;;;
  ret (Done (None, status)).

(** The banner at the head of [Execute]. *)
Definition logBanner : M unit :=
  logf uc LInfo "╔════════════════════════════════════════════════════════════" ;;;
  logf uc LInfo "║ Начало обработки PDF файлов" ;;;
  logf uc LInfo "╠════════════════════════════════════════════════════════════" ;;;
  logf uc LInfo "║ Исходная директория: %s" ;;;
  (if Config.ReplaceOriginal (Config.Scanner config)
   then logf uc LInfo "║ Режим: Замена оригинальных файлов"
   else logf uc LInfo "║ Целевая директория: %s") ;;;
  logf uc LInfo "║ Алгоритм: %s" ;;;
  logf uc LInfo "║ Уровень сжатия: %d%%" ;;;
  logf uc LInfo "║ Параллельных воркеров: %d" ;;;
  logf uc LInfo "╚════════════════════════════════════════════════════════════".

(** The lines logged once the phase Compressing has been reported. *)
Definition logStart : M unit :=
  logf uc LInfo "" ;;;
  logf uc LInfo "🔄 Начало сжатия файлов..." ;;;
  logf uc LInfo "─────────────────────────────────────────────────────────────".

(** The statistics at the end of [Execute]. The elapsed time, the
    sizes and the counters are arguments of the log calls; reading them
    has no effect. *)
Definition logStatistics (status : ProcessingStatus.t) : M unit :=
  logf uc LInfo "" ;;;
  logf uc LInfo "╔════════════════════════════════════════════════════════════" ;;;
  logf uc LInfo "║ Обработка завершена" ;;;
  logf uc LInfo "╠════════════════════════════════════════════════════════════" ;;;
  logf uc LInfo "║ Время выполнения: %s" ;;;
  logf uc LInfo "╠════════════════════════════════════════════════════════════" ;;;
  logf uc LInfo "║ Статистика файлов:" ;;;
  logf uc LInfo "║   • Всего: %d" ;;;
  logf uc LSuccess "║   • Успешно: %d" ;;;
  when (0 <? ProcessingStatus.FailedFiles status)
    (logf uc LError "║   • Ошибок: %d") ;;;
  when (0 <? ProcessingStatus.SkippedFiles status)
    (logf uc LWarning "║   • Пропущено: %d") ;;;
  when (0 <? ProcessingStatus.TotalOriginalSize status)
    (logf uc LInfo "╠════════════════════════════════════════════════════════════" ;;;
     logf uc LInfo "║ Статистика сжатия:" ;;;
     logf uc LInfo "║   • Исходный размер: %.2f MB" ;;;
     logf uc LInfo "║   • Сжатый размер: %.2f MB" ;;;
     logf uc LSuccess "║   • Среднее сжатие: %.1f%%" ;;;
     logf uc LSuccess "║   • Сэкономлено: %.2f MB") ;;;
  logf uc LInfo "╚════════════════════════════════════════════════════════════".

(** [if workers <= 0 { workers = 1 }] *)
Definition workerCount : Z :=
  let workers := Config.ParallelWorkers (Config.Processing config) in
  if workers <=? 0 then 1 else workers.

(** [for w := 0; w < workers; w++ { wg.Add(1); go uc.worker(...) }] *)
Fixpoint spawnFrom (remaining : nat) (w : Z) : M unit :=
  match remaining with
  | O => ret tt
  | S remaining' => emit (EvSpawn w) ;;; spawnFrom remaining' (int64_add w 1)
  end.

(** The lines the aggregator logs for one result. *)
Definition logResult (result : CompressionResult.t) : M unit :=
  if ProcessingStatus.isSuccess result then
    logf uc LSuccess "[%d/%d] ✓ %s" ;;;
    logf uc LInfo "    └─ Размер: %.2f MB → %.2f MB" ;;;
    logf uc LInfo "    └─ Сжатие: %.1f%% | Сэкономлено: %.2f MB"
  else
    logf uc LError "[%d/%d] ✗ %s" ;;;
    logf uc LError "    └─ Ошибка: %v".

(** The loop [for result := range results] of the aggregator. *)
Fixpoint collect (results : list CompressionResult.t) (fileCounter : Z)
    (status : ProcessingStatus.t) : M ProcessingStatus.t :=
  match results with
  | [] => ret status
  | result :: rest =>
      let fileCounter := int64_add fileCounter 1 in
      now <- time_Now ;;
      let status := ProcessingStatus.AddResult now result status in
      let status :=
        ProcessingStatus.SetCurrentFile
          (CompressionResult.CurrentFile result)
          (CompressionResult.OriginalSize result) status in
      reportProgress uc status ;;;
      logResult result ;;;
      collect rest fileCounter status
  end.

(** The worker pool and the aggregator. The jobs are taken from the
    queue in order and each runs to its end on the shared world; the
    results channel is buffered for all of them, so no worker ever
    waits for the aggregator. [arrival] is the order in which the
    channel hands the results over, which with more than one worker
    need not be the order of the queue. *)
Definition runPool (arrival : list CompressionResult.t -> list CompressionResult.t)
    (compressionConfig : CompressionConfig.t) (files : list string)
    (status : ProcessingStatus.t) : M (Go (option error * ProcessingStatus.t)) :=
  spawnFrom (Z.to_nat workerCount) 0 ;;;
  published <- worker fp uc config compressionConfig files ;;
  match published with
  | Panic => ret Panic
  | Done results =>
      status <- collect (arrival results) 0 status ;;
      now <- time_Now ;;
      let status := ProcessingStatus.Complete now status in
      reportProgress uc status ;;;
      logStatistics status ;;;
      ret (Done (None, status))
  end.

(** [Execute] returns an error in Go; the model hands back the final
    value of the local [status] with it. The body is cut in three at
    its phase comments: initialisation ([Execute]), scanning
    ([scanFiles]) and compression ([compressFiles]). *)
Definition compressFiles (arrival : list CompressionResult.t -> list CompressionResult.t)
    (files : list string) (status : ProcessingStatus.t)
  : M (Go (option error * ProcessingStatus.t)) :=
  let status := ProcessingStatus.set_TotalFiles (Z.of_nat (length files)) status in
  logf uc LSuccess "✓ Найдено файлов для обработки: %d" ;;;
  let compressionConfig :=
    CompressionConfig.NewCompressionConfigWithLicense
      (Config.Level (Config.Compression config))
      (Config.UniPDFLicenseKey (Config.Compression config)) in
  err <- call (ValidateConfig (configRepo uc) compressionConfig) ;;
  match err with
  | Some e => failRun (ErrWrap "ошибка валидации конфигурации сжатия" e) status
  | None =>
      let status :=
        ProcessingStatus.SetPhase PhaseCompressing "Сжатие PDF файлов..." status in
      reportProgress uc status ;;;
      logStart ;;;
      runPool arrival compressionConfig files status
  end.

Definition scanFiles (arrival : list CompressionResult.t -> list CompressionResult.t)
    (status : ProcessingStatus.t) : M (Go (option error * ProcessingStatus.t)) :=
  let status :=
    ProcessingStatus.SetPhase PhaseScanning "Сканирование PDF файлов..." status in
  reportProgress uc status ;;;
  logf uc LInfo "🔍 Сканирование директории..." ;;;
  listed <- call (ListPDFFiles (fileRepo uc)
                    (Config.SourceDirectory (Config.Scanner config))) ;;
  match snd listed with
  | Some e => failRun (ErrWrap "ошибка получения списка файлов" e) status
  | None =>
      let files := fst listed in
      if (length files =? 0)%nat then
        logf uc LWarning "⚠️  PDF файлы не найдены в директории: %s" ;;;
        completeRun status
      else compressFiles arrival files status
  end.

Definition Execute (arrival : list CompressionResult.t -> list CompressionResult.t)
  : M (Go (option error * ProcessingStatus.t)) :=
  let scanner := Config.Scanner config in
  now <- time_Now ;;
  let status := ProcessingStatus.NewProcessingStatus now 0 in
  let status :=
    ProcessingStatus.SetPhase PhaseInitializing "Инициализация обработки..." status in
  reportProgress uc status ;;;
  logBanner ;;;
  exists_ <- call (FileExists (fileRepo uc) (Config.SourceDirectory scanner)) ;;
  if negb exists_ then
    failRun (ErrNew ("исходная директория не существует: "
                     +:+ Config.SourceDirectory scanner)) status
  else
    err <- (if negb (Config.ReplaceOriginal scanner)
            then call (CreateDirectory (fileRepo uc) (Config.TargetDirectory scanner))
            else ret None) ;;
    match err with
    | Some e => failRun (ErrWrap "ошибка создания целевой директории" e) status
    | None => scanFiles arrival status
    end.

End ProcessPDFs.

(** *** CompressDirectoryUseCase *)

Record CompressDirectoryUseCase : Type := {
  cd_compressor : PDFCompressor;
  cd_fileRepo : FileRepository;
  cd_configRepo : ConfigRepository
}.

Record DirectoryCompressionResult : Type := {
  dcr_TotalFiles : Z;
  dcr_SuccessCount : Z;
  dcr_FailedCount : Z;
  dcr_Results : list CompressionResult.t;
  dcr_Errors : list error
}.

Section CompressDirectory.

Variable fp : Filepath.
Variable uc : CompressDirectoryUseCase.

(** The loop [for _, inputFile := range files] of [Execute]. *)
Fixpoint compressEach (outputDir : string) (cfg : CompressionConfig.t)
    (files : list string) (result : DirectoryCompressionResult)
  : M (Go DirectoryCompressionResult) :=
  match files with
  | [] => ret (Done result)
  | inputFile :: rest =>
      let fileName := filepath_Base fp inputFile in
      let outputFile := filepath_Join fp outputDir ("compressed_" +:+ fileName) in
      let failed (e : error) :=
        {| dcr_TotalFiles := dcr_TotalFiles result;
           dcr_SuccessCount := dcr_SuccessCount result;
           dcr_FailedCount := int64_add (dcr_FailedCount result) 1;
           dcr_Results := dcr_Results result;
           dcr_Errors := dcr_Errors result ++ [e] |} in
      info <- call (GetFileInfo (cd_fileRepo uc) inputFile) ;;
      match snd info with
      | Some e =>
          compressEach outputDir cfg rest
            (failed (ErrWrap ("ошибка получения информации о файле " +:+ fileName) e))
      | None =>
          r <- call (Compress (cd_compressor uc) inputFile outputFile cfg) ;;
          emit (EvCompress inputFile outputFile (snd r)) ;;;
          match snd r with
          | Some e =>
              compressEach outputDir cfg rest
                (failed (ErrWrap ("ошибка сжатия файла " +:+ fileName) e))
          | None =>
              match fst r, fst info with
              | Some compressionResult, Some fileInfo =>
                  let compressionResult :=
                    CompressionResult.CalculateCompressionRatio
                      (CompressionResult.set_OriginalSize
                         (PDFDocument.Size fileInfo) compressionResult) in
                  compressEach outputDir cfg rest
                    {| dcr_TotalFiles := dcr_TotalFiles result;
                       dcr_SuccessCount := int64_add (dcr_SuccessCount result) 1;
                       dcr_FailedCount := dcr_FailedCount result;
                       dcr_Results := dcr_Results result ++ [compressionResult];
                       dcr_Errors := dcr_Errors result |}
              | _, _ => ret Panic
              end
          end
      end
  end.

Definition CompressDirectory_Execute (inputDir outputDir : string) (compressionLevel : Z)
  : M (Go (option DirectoryCompressionResult * option error)) :=
  exists_ <- call (FileExists (cd_fileRepo uc) inputDir) ;;
  if negb exists_ then ret (Done (None, Some ErrDirectoryNotFound))
  else
    err <- call (CreateDirectory (cd_fileRepo uc) outputDir) ;;
    match err with
    | Some e => ret (Done (None, Some (ErrWrap "ошибка создания выходной директории" e)))
    | None =>
        listed <- call (ListPDFFiles (cd_fileRepo uc) inputDir) ;;
        match snd listed with
        | Some e => ret (Done (None, Some (ErrWrap "ошибка получения списка файлов" e)))
        | None =>
            let files := fst listed in
            if (length files =? 0)%nat then ret (Done (None, Some ErrNoFilesFound))
            else
              c <- call (GetCompressionConfig (cd_configRepo uc) compressionLevel) ;;
              match snd c, fst c with
              | Some e, _ => ret (Done (None, Some (ErrWrap "ошибка создания конфигурации" e)))
              | None, None => ret Panic
              | None, Some cfg =>
                  err <- call (ValidateConfig (cd_configRepo uc) cfg) ;;
                  match err with
                  | Some e =>
                      ret (Done (None, Some (ErrWrap "ошибка валидации конфигурации" e)))
                  | None =>
                      r <- compressEach outputDir cfg files
                             {| dcr_TotalFiles := Z.of_nat (length files);
                                dcr_SuccessCount := 0; dcr_FailedCount := 0;
                                dcr_Results := []; dcr_Errors := [] |} ;;
                      match r with
                      | Panic => ret Panic
                      | Done result => ret (Done (Some result, None))
                      end
                  end
              end
        end
    end.

End CompressDirectory.

(** ** Package repositories: the file inventory *)

Module Inventory.

(** *** What [filepath.WalkDir] walks *)

(** A directory tree as [os.ReadDir] shows it. A directory carries the
    entries [ReadDir] returns for it and the error it returns with
    them, if any (the entries are then the ones read before the
    error). *)
#[local] Set Warnings "-register-all".

Inductive Node : Type :=
| NFile (name : string)
| NDir (name : string) (readErr : option error) (entries : list Node).

(** What [os.Lstat] finds at the root. *)
Inductive Root : Type :=
| RootError (err : error)
| RootNode (n : Node).

Definition Name (n : Node) : string :=
  match n with NFile name => name | NDir name _ _ => name end.

Definition IsDir (n : Node) : bool :=
  match n with NFile _ => false | NDir _ _ _ => true end.

(** The arguments of an [fs.WalkDirFunc]: the entry with a nil error, or
    an error with the entry it is about ([nil] when the root could not
    be examined). *)
Inductive WalkArg : Type :=
| Visit (d : Node)
| Failure (d : option Node) (err : error).

Definition SkipDir : error := ErrNew "skip this directory".
Definition SkipAll : error := ErrNew "skip everything and stop the walk".

Fixpoint error_eqb (a b : error) : bool :=
  match a, b with
  | ErrNew m, ErrNew n => String.eqb m n
  | ErrWrap m c, ErrWrap n d => String.eqb m n && error_eqb c d
  | _, _ => false
  end.

Section WalkDir.

Variable join : string -> string -> string.
Context {S : Type}.
Variable fn : string -> WalkArg -> S -> option error * S.

(** [walkDir] of package path/filepath. *)
Fixpoint walkDir (path : string) (d : Node) (s : S) : option error * S :=
  let '(err, s) := fn path (Visit d) s in
  match d with
  | NFile _ => (err, s)
  | NDir _ readErr entries =>
      match err with
      | Some e => (if error_eqb e SkipDir then None else Some e, s)
      | None =>
          let '(err, s) :=
            match readErr with
            | Some re => fn path (Failure (Some d) re) s
            | None => (None, s)
            end in
          match err with
          | Some e => (if error_eqb e SkipDir then None else Some e, s)
          | None =>
              (fix walkEntries (ds : list Node) (s : S) : option error * S :=
                 match ds with
                 | [] => (None, s)
                 | d1 :: rest =>
                     let '(err, s) := walkDir (join path (Name d1)) d1 s in
                     match err with
                     | Some e =>
                         if error_eqb e SkipDir then (None, s) else (Some e, s)
                     | None => walkEntries rest s
                     end
                 end) entries s
          end
      end
  end.

(** [filepath.WalkDir] *)
Definition WalkDir (root : Root) (path : string) (s : S) : option error * S :=
  let '(err, s) :=
    match root with
    | RootError e => fn path (Failure None e) s
    | RootNode d => walkDir path d s
    end in
  match err with
  | Some e =>
      if error_eqb e SkipDir || error_eqb e SkipAll then (None, s) else (Some e, s)
  | None => (None, s)
  end.

End WalkDir.

(** *** [filepath.Ext] and [strings.EqualFold] *)

Definition isDot (c : ascii) : bool := Ascii.eqb c "."%char.
Definition isPathSeparator (c : ascii) : bool := Ascii.eqb c "/"%char.

(** [extScan s] is [Some e] when scanning [s] from its end meets a dot
    or a separator, [e] being the extension then decided, and [None]
    when [s] has neither. *)
Fixpoint extScan (s : string) : option string :=
  match s with
  | EmptyString => None
  | String c rest =>
      match extScan rest with
      | Some e => Some e
      | None =>
          if isDot c then Some s
          else if isPathSeparator c then Some EmptyString
          else None
      end
  end.

Definition Ext (path : string) : string :=
  match extScan path with Some e => e | None => EmptyString end.

Definition toLower (c : ascii) : ascii :=
  let n := nat_of_ascii c in
  if (65 <=? n)%nat && (n <=? 90)%nat then ascii_of_nat (n + 32) else c.

Fixpoint lowerString (s : string) : string :=
  match s with
  | EmptyString => EmptyString
  | String c rest => String (toLower c) (lowerString rest)
  end.

(** [strings.EqualFold] against an ASCII string without the letters k
    and s, the only ones with a fold outside ASCII. *)
Definition EqualFold (s t : string) : bool :=
  String.eqb (lowerString s) (lowerString t).

Definition isPDF (name : string) : bool := EqualFold (Ext name) ".pdf".

(** *** [sort.Strings] *)

(** Go compares strings byte by byte. Equal strings cannot be told
    apart, so every sorting algorithm yields the one sorted
    arrangement of its input; insertion sort computes it. *)
Fixpoint insertString (x : string) (l : list string) : list string :=
  match l with
  | [] => [x]
  | y :: l' => if String.leb x y then x :: l else y :: insertString x l'
  end.

Fixpoint sort_Strings (l : list string) : list string :=
  match l with
  | [] => []
  | x :: l' => insertString x (sort_Strings l')
  end.

(** *** ListPDFFiles *)

(** The function literal passed to [WalkDir]. *)
Definition visit (path : string) (a : WalkArg) (pdfFiles : list string)
  : option error * list string :=
  match a with
  | Failure _ _ => (None, pdfFiles)
  | Visit d =>
      if IsDir d then (None, pdfFiles)
      else if isPDF (Name d) then (None, pdfFiles ++ [path])
      else (None, pdfFiles)
  end.

Definition ListPDFFiles (join : string -> string -> string) (root : Root)
    (directory : string) : list string * option error :=
  let '(err, pdfFiles) := WalkDir join visit root directory [] in
  match err with
  | Some e => ([], Some e)
  | None => (sort_Strings pdfFiles, None)
  end.

(** *** The inventory in the words of its contract *)

(** The paths of all files under a node whose extension is .pdf in any
    letter case, subdirectories included. *)
Fixpoint pdfPaths (join : string -> string -> string) (path : string) (d : Node)
  : list string :=
  match d with
  | NFile name => if isPDF name then [path] else []
  | NDir _ _ entries =>
      (fix each (ds : list Node) : list string :=
         match ds with
         | [] => []
         | d1 :: rest => pdfPaths join (join path (Name d1)) d1 ++ each rest
         end) entries
  end.

Definition allPDFs (join : string -> string -> string) (root : Root) (directory : string)
  : list string :=
  match root with
  | RootError _ => []
  | RootNode d => pdfPaths join directory d
  end.

End Inventory.

(** ** The replacement protocol as a machine

    [replaceOriginalFile] cut at its system calls: a control point
    before each call, and the point where the function has returned. What
    lies between two system calls cannot be seen from outside, so the
    configurations of this machine are the observable points of a
    replacement. *)
Module Replacement.

Inductive Point : Type :=
| AtCheckTemp
| AtBackup
| AtSwap
| AtRollback (cause : error)
| AtCleanup
| AtReturn (result : option error).

Section Machine.

Variable uc : ProcessPDFsUseCase.
Variables originalFile tempFile : string.

Definition backupFile : string := originalFile +:+ ".backup".

Definition stepFrom (pc : Point) : M Point :=
  match pc with
  | AtCheckTemp =>
      st <- os_Stat tempFile ;;
      if os_IsNotExist (snd st) then
        ret (AtReturn (Some (ErrNew ("временный файл не существует: " +:+ tempFile))))
      else
        logf uc LInfo "Замена оригинального файла: %s" ;;;
        ret AtBackup
  | AtBackup =>
      err <- os_Rename originalFile backupFile ;;
      match err with
      | Some e =>
          logf uc LError "Ошибка создания резервной копии %s: %v" ;;;
          ret (AtReturn (Some (ErrWrap "ошибка создания резервной копии" e)))
      | None => ret AtSwap
      end
  | AtSwap =>
      err <- os_Rename tempFile originalFile ;;
      match err with
      | Some e =>
          logf uc LError "Ошибка замены файла %s: %v" ;;;
          ret (AtRollback e)
      | None => ret AtCleanup
      end
  | AtRollback e =>
      _ <- os_Rename backupFile originalFile ;;
      ret (AtReturn (Some (ErrWrap "ошибка замены файла" e)))
  | AtCleanup =>
      err <- os_Remove backupFile ;;
      match err with
      | Some _ => logf uc LWarning "Не удалось удалить резервную копию %s: %v"
      | None => ret tt
      end ;;;
      logf uc LInfo "Оригинальный файл успешно заменен: %s" ;;;
      ret (AtReturn None)
  | AtReturn r => ret (AtReturn r)
  end.

(** A configuration: the control point, the world, and the events so
    far. *)
Definition Conf : Type := Point * World * list Event.

Inductive step : Conf -> Conf -> Prop :=
| step_intro pc w tr pc' w' ev :
    (forall r, pc <> AtReturn r) ->
    stepFrom pc w = (pc', w', ev) ->
    step (pc, w, tr) (pc', w', tr ++ ev).

Definition reachable (w0 : World) (c : Conf) : Prop :=
  rtc step (AtCheckTemp, w0, []) c.

(** Running the machine for a number of steps. *)
Fixpoint run (n : nat) (c : Conf) : Conf :=
  match n with
  | O => c
  | S n' =>
      let '(pc, w, tr) := c in
      match pc with
      | AtReturn _ => c
      | _ => let '(pc', w', ev) := stepFrom pc w in run n' (pc', w', tr ++ ev)
      end
  end.

End Machine.

(** Where the original content [c0] is, at each control point, and
    what the original path holds once the swap has succeeded: the
    content [t0] the temporary path had when the protocol started,
    unless the temporary path is the backup path itself, which step 1
    overwrites with the original content. *)
Definition safe (originalFile tempFile : string) (c0 : string) (t0 : option string)
    (c : Conf) : Prop :=
  let '(pc, w, tr) := c in
  let backup := backupFile originalFile in
  let swapped := if decide (tempFile = backup) then Some c0 else t0 in
  match pc with
  | AtCheckTemp | AtBackup =>
      w_fs w !! originalFile = Some c0 /\ w_fs w !! tempFile = t0
  | AtSwap =>
      w_fs w !! originalFile = None /\ w_fs w !! backup = Some c0 /\
      (tempFile <> originalFile -> w_fs w !! tempFile = swapped)
  | AtRollback _ =>
      w_fs w !! originalFile = None /\ w_fs w !! backup = Some c0
  | AtCleanup | AtReturn None =>
      is_Some (w_fs w !! originalFile) /\ w_fs w !! originalFile = swapped
  | AtReturn (Some _) =>
      w_fs w !! originalFile = Some c0 \/
      (w_fs w !! originalFile = None /\ w_fs w !! backup = Some c0 /\
       exists e, In (EvSyscall (SysRename backup originalFile) (Some e)) tr)
  end.

End Replacement.

(** ** Instances used in the examples *)

(** An instance of [Filepath] for the examples: [/] is the only
    separator and nothing is cleaned. It agrees with Go's [Base], [Dir],
    [Join] and [Rel] on clean, relative, slash-separated paths with the
    target of [Rel] under its base, which is what the examples use; it
    is not Go's package beyond them (where Go's [Rel] climbs with
    [..], this one fails). The theorems do not depend on it: they hold
    for every [Filepath]. *)
Fixpoint lastElement (s : string) : string :=
  match s with
  | EmptyString => EmptyString
  | String c rest =>
      if existsb Inventory.isPathSeparator (list_ascii_of_string rest)
      then lastElement rest else
      if Inventory.isPathSeparator c then rest else s
  end.

(** What comes before the last separator of [s], when it has one. *)
Fixpoint dirScan (s : string) : option string :=
  match s with
  | EmptyString => None
  | String c rest =>
      match dirScan rest with
      | Some d => Some (String c d)
      | None => if Inventory.isPathSeparator c then Some EmptyString else None
      end
  end.

Definition slashDir (path : string) : string :=
  match dirScan path with
  | Some EmptyString => "/"
  | Some d => d
  | None => "."
  end.

(** [s] without its prefix [p]. *)
Fixpoint stripPrefix (p s : string) : option string :=
  match p, s with
  | EmptyString, _ => Some s
  | String a p', String b s' => if Ascii.eqb a b then stripPrefix p' s' else None
  | String _ _, EmptyString => None
  end.

Definition slashRel (base target : string) : string * option error :=
  let failed :=
    (EmptyString,
     Some (ErrNew ("Rel: can't make " +:+ target +:+ " relative to " +:+ base))) in
  match stripPrefix base target with
  | Some EmptyString => (".", None)
  | Some (String c rest) => if Inventory.isPathSeparator c then (rest, None) else failed
  | None => failed
  end.

Definition slashJoin (dir name : string) : string := dir +:+ "/" +:+ name.

Definition slashPaths : Filepath :=
  {| filepath_Base := lastElement;
     filepath_Rel := slashRel;
     filepath_Join := slashJoin;
     filepath_Dir := slashDir |}.

(** A compressor whose every call fails with the same error. *)
Definition failingCompressor (e : error) : PDFCompressor :=
  {| Compress := fun _ _ _ w => ((None, Some e), w) |}.

(** A compressor that reports the size of the input it finds and a
    fixed compressed size, and writes that many bytes to the output. *)
Definition fixedCompressor (compressedSize : nat) : PDFCompressor :=
  {| Compress := fun input output _ w =>
       match w_fs w !! input with
       | None => ((None, Some (PathError "stat" input ENOENT)), w)
       | Some c =>
           let out := string_of_list_ascii (repeat "x"%char compressedSize) in
           ((Some {| CompressionResult.CurrentFile := "";
                     CompressionResult.OriginalSize := Z.of_nat (String.length c);
                     CompressionResult.CompressedSize := Z.of_nat compressedSize;
                     CompressionResult.CompressionRatio := f64_zero;
                     CompressionResult.SavedSpace := 0;
                     CompressionResult.Success := true;
                     CompressionResult.Error := None |}, None),
            set_fs (<[output := out]> (w_fs w)) w)
       end |}.

(** A file repository over the modelled file system, listing a fixed
    inventory. *)
Definition listingRepo (files : list string) : FileRepository :=
  {| GetFileInfo := fun path w =>
       match w_fs w !! path with
       | Some c =>
           ((Some {| PDFDocument.Path := path;
                     PDFDocument.Size := Z.of_nat (String.length c);
                     PDFDocument.ModifiedTime := 0;
                     PDFDocument.Pages := 0 |}, None), w)
       | None => ((None, Some (PathError "stat" path ENOENT)), w)
       end;
     FileExists := fun _ w => (true, w);
     CreateDirectory := fun _ w => (None, w);
     ListPDFFiles := fun _ w => ((files, None), w) |}.

(** [ConfigRepository] of the repository: [ValidateConfig] is
    [config.Validate()]. *)
Definition theConfigRepository : ConfigRepository :=
  {| GetCompressionConfig := fun level w =>
       ((Some (CompressionConfig.NewCompressionConfig level), None), w);
     ValidateConfig := fun c w => (CompressionConfig.Validate c, w) |}.

Definition exampleConfig (replace : bool) (workers retries : Z) : Config.t :=
  {| Config.Scanner :=
       {| Config.SourceDirectory := "pdfs"; Config.TargetDirectory := "out";
          Config.ReplaceOriginal := replace |};
     Config.Compression :=
       {| Config.Level := 50; Config.Algorithm := "pdfcpu";
          Config.UniPDFLicenseKey := "" |};
     Config.Processing :=
       {| Config.ParallelWorkers := workers; Config.TimeoutSeconds := 30;
          Config.RetryAttempts := retries |} |}.

Definition exampleUseCase (c : PDFCompressor) (files : list string) : ProcessPDFsUseCase :=
  {| compressor := c; fileRepo := listingRepo files;
     configRepo := theConfigRepository; logger := true;
     progressReporter := true |}.

Definition worldOf (files : list (string * string)) (faults : list (option error)) : World :=
  {| w_fs := list_to_map files; w_faults := faults; w_clock := 0 |}.

(** ** Reading a run's events *)

Definition isSpawn (e : Event) : bool :=
  match e with EvSpawn _ => true | _ => false end.

Definition isCompress (e : Event) : bool :=
  match e with EvCompress _ _ _ => true | _ => false end.

(** The events of the retry executor: calls of the compressor and
    sleeps. *)
Definition isRetryEvent (e : Event) : bool :=
  match e with EvCompress _ _ _ | EvSleep _ => true | _ => false end.

(** Number of workers started. *)
Definition spawned (evs : list Event) : nat := length (List.filter isSpawn evs).

(** Number of calls of the compressor. *)
Definition compressCalls (evs : list Event) : nat := length (List.filter isCompress evs).

(** The phases of the snapshots handed to the progress reporter. *)
Definition reportedPhases (evs : list Event) : list ProcessingPhase :=
  flat_map (fun e => match e with
                     | EvReport s => [ProcessingStatus.Phase s]
                     | _ => []
                     end) evs.


(** ** The aggregator's counters *)

(** The counters after [n] results. *)
Definition counted (n : Z) (ps : ProcessingStatus.t) : Prop :=
  ProcessingStatus.ProcessedFiles ps = n /\
  ProcessingStatus.SuccessfulFiles ps + ProcessingStatus.FailedFiles ps = n /\
  0 <= ProcessingStatus.SuccessfulFiles ps /\ 0 <= ProcessingStatus.FailedFiles ps.

(** What the loop of [collect] computes from the results it is handed,
    all at one reading of the clock. *)
Definition aggregate (now : Z) (results : list CompressionResult.t)
    (status : ProcessingStatus.t) : ProcessingStatus.t :=
  fold_left
    (fun ps r =>
       ProcessingStatus.SetCurrentFile (CompressionResult.CurrentFile r)
         (CompressionResult.OriginalSize r) (ProcessingStatus.AddResult now r ps))
    results status.

(** ** The retry executor's events *)

(** The calls and sleeps of an execution in which the attempts of
    [failures] failed and were each followed by a sleep and another
    attempt, the last attempt ending with [last]. *)
Definition retryEvents (inputFile outputFile : string) (failures : list error)
    (last : option error) : list Event :=
  flat_map (fun e => [EvCompress inputFile outputFile (Some e);
                      EvSleep (2 * time_Second)]) failures
  ++ [EvCompress inputFile outputFile last].

Definition isSleep (e : Event) : bool :=
  match e with EvSleep _ => true | _ => false end.
Definition sleeps (evs : list Event) : nat := length (List.filter isSleep evs).

(** A compressor that fails whatever it is asked and whenever. *)
Definition alwaysFails (c : PDFCompressor) : Prop :=
  forall input output cc w, snd (fst (Compress c input output cc w)) <> None.

(** The system calls of a run, with their outcomes. *)
Definition syscalls (evs : list Event) : list (Syscall * option error) :=
  flat_map (fun e => match e with EvSyscall c r => [(c, r)] | _ => [] end) evs.

(** ** The order of [sort.Strings] *)

(** Byte-wise lexicographic order, Go's [<=] on strings. *)
Definition string_le (a b : string) : Prop := String.leb a b = true.

(** A tree with an unreadable directory. *)
Definition exampleTree : Inventory.Root :=
  Inventory.RootNode
    (Inventory.NDir "pdfs" None
       [Inventory.NFile "b.PDF"; Inventory.NFile "notes.txt";
        Inventory.NDir "locked" (Some (ErrNew "permission denied")) [];
        Inventory.NDir "sub" None [Inventory.NFile "a.pdf"; Inventory.NFile "c.pdf.bak"]]).

(** ** Mantissas *)

(** [q] shifted left by [n] bits. *)
Definition shiftp (n : nat) (q : positive) : positive := Nat.iter n xO q.

Definition ErrInvalidJPEGQuality : error :=
  ErrNew "качество JPEG должно быть от 10 до 50 с шагом 5".
Definition ErrInvalidPNGQuality : error :=
  ErrNew "качество PNG должно быть от 10 до 50 с шагом 5".

(** [AppCompressionConfig] with all its fields ([Config.AppCompressionConfig]
    keeps the three the batch pipeline reads). *)
Module AppCompressionConfig.

Record t : Type := {
  Level : Z;
  Algorithm : string;
  AutoStart : bool;
  UniPDFLicenseKey : string;
  EnableJPEG : bool;
  EnablePNG : bool;
  JPEGQuality : Z;
  PNGQuality : Z
}.

(** [q < 10 || q > 50 || q%5 != 0]; Go's [%] truncates like [Z.rem]. *)
Definition badQuality (q : Z) : bool :=
  (q <? 10) || (50 <? q) || negb (Z.rem q 5 =? 0).

Definition Validate (c : t) : option error :=
  if (Level c <? 10) || (90 <? Level c) then Some ErrInvalidCompressionLevel
  else if EnableJPEG c && badQuality (JPEGQuality c) then Some ErrInvalidJPEGQuality
  else if EnablePNG c && badQuality (PNGQuality c) then Some ErrInvalidPNGQuality
  else None.

Definition GetSupportedImageFormats (c : t) : list string :=
  let formats := [] in
  let formats := if EnableJPEG c then formats ++ ["JPEG"%string] else formats in
  let formats := if EnablePNG c then formats ++ ["PNG"%string] else formats in
  formats.

End AppCompressionConfig.

(** ** More readers of a run's events *)

(** The snapshots handed to the progress reporter, in order. *)
Definition reports (evs : list Event) : list ProcessingStatus.t :=
  flat_map (fun e => match e with EvReport s => [s] | _ => [] end) evs.

(** The results sent on the results channel, in order. *)
Definition published (evs : list Event) : list CompressionResult.t :=
  flat_map (fun e => match e with EvPublish r => [r] | _ => [] end) evs.

Definition isLog (e : Event) : bool :=
  match e with EvLog _ _ => true | _ => false end.

Definition isReport (e : Event) : bool :=
  match e with EvReport _ => true | _ => false end.


(** A log line, and none without a logger. *)
Definition onlyLog (withLogger : bool) (e : Event) : bool :=
  match e with EvLog _ _ => withLogger | _ => false end.

(** The use case with a logger and a progress reporter put in. *)
Definition attended (uc : ProcessPDFsUseCase) : ProcessPDFsUseCase :=
  {| compressor := compressor uc;
     fileRepo := fileRepo uc;
     configRepo := configRepo uc;
     logger := true;
     progressReporter := true |}.

(** What is left of the events of an attended run when there is no
    logger, no progress reporter, or neither. *)
Definition heard (withLogger withReporter : bool) (e : Event) : bool :=
  match e with
  | EvLog _ _ => withLogger
  | EvReport _ => withReporter
  | _ => true
  end.

(** [m] does what [m'] does, less the log lines and reports that are
    not heard. *)
Definition quieter {A} (withLogger withReporter : bool) (m m' : M A) : Prop :=
  forall w,
    m w = (result_of (m' w), world_of (m' w),
           List.filter (heard withLogger withReporter) (events_of (m' w))).

(** What a job may do before it publishes its result: system calls,
    calls of the compressor and sleeps, and log lines when there is a
    logger. *)
Definition stepEvent (withLogger : bool) (e : Event) : bool :=
  match e with
  | EvReport _ | EvSpawn _ | EvPublish _ => false
  | EvLog _ _ => withLogger
  | _ => true
  end.

(** What a worker may do: the same, and publications. *)
Definition workerEvent (withLogger : bool) (e : Event) : bool :=
  match e with
  | EvReport _ | EvSpawn _ => false
  | EvLog _ _ => withLogger
  | _ => true
  end.

(** What the aggregation loop may do: reports and log lines. *)
Definition aggregatorEvent (withLogger withReporter : bool) (e : Event) : bool :=
  match e with
  | EvReport _ => withReporter
  | EvLog _ _ => withLogger
  | _ => false
  end.

(** The statuses the aggregation loop goes through, one per result. *)
Fixpoint snapshots (now : Z) (results : list CompressionResult.t)
    (status : ProcessingStatus.t) : list ProcessingStatus.t :=
  match results with
  | [] => []
  | r :: rest =>
      let status :=
        ProcessingStatus.SetCurrentFile (CompressionResult.CurrentFile r)
          (CompressionResult.OriginalSize r) (ProcessingStatus.AddResult now r status) in
      status :: snapshots now rest status
  end.

(** The counters of a snapshot agree with each other and with the
    number of files. *)
Definition consistent (s : ProcessingStatus.t) : Prop :=
  ProcessingStatus.ProcessedFiles s =
    ProcessingStatus.SuccessfulFiles s + ProcessingStatus.FailedFiles s /\
  0 <= ProcessingStatus.ProcessedFiles s <= ProcessingStatus.TotalFiles s.

(** What [Execute] may do before the worker pool starts: log lines, and
    reports of a status that has counted no result yet and is not in
    phase Replacing. *)
Definition preludeEvent (withLogger withReporter : bool) (e : Event) : bool :=
  match e with
  | EvReport s =>
      withReporter
      && (ProcessingStatus.ProcessedFiles s =? 0)
      && (ProcessingStatus.SuccessfulFiles s =? 0)
      && (ProcessingStatus.FailedFiles s =? 0)
      && (0 <=? ProcessingStatus.TotalFiles s)
      && match ProcessingStatus.Phase s with PhaseReplacing => false | _ => true end
  | EvLog _ _ => withLogger
  | _ => false
  end.

(** The four errors [Execute] returns. *)
Definition runLevelError (config : Config.t) (err : error) : Prop :=
  err = ErrNew ("исходная директория не существует: "
                +:+ Config.SourceDirectory (Config.Scanner config)) \/
  exists cause,
    err = ErrWrap "ошибка создания целевой директории" cause \/
    err = ErrWrap "ошибка получения списка файлов" cause \/
    err = ErrWrap "ошибка валидации конфигурации сжатия" cause.

(** The two courses a batch run takes: it ends before the worker pool
    starts, with one of the four errors or over an empty inventory and
    having done nothing but log and report; or it goes through the pool,
    after a prelude that reported [phases]. *)
Definition Course (fp : Filepath) (uc : ProcessPDFsUseCase) (config : Config.t)
    (arrival : list CompressionResult.t -> list CompressionResult.t)
    (phases : list ProcessingPhase)
    (run : Go (option error * ProcessingStatus.t) * World * list Event) : Prop :=
  let lg := logger uc in
  let rp := progressReporter uc in
  (forallb (preludeEvent lg rp) (events_of run) = true /\
   exists final,
     (exists err,
        result_of run = Done (Some err, final) /\
        runLevelError config err /\
        ProcessingStatus.Phase final = PhaseFailed /\
        ProcessingStatus.IsComplete final = true /\
        ProcessingStatus.Error final = Some err /\
        ProcessingStatus.ProcessedFiles final = 0) \/
     (result_of run = Done (None, final) /\
      ProcessingStatus.TotalFiles final = 0)) \/
  (exists pre files status w1,
     let cc := CompressionConfig.NewCompressionConfigWithLicense
                 (Config.Level (Config.Compression config))
                 (Config.UniPDFLicenseKey (Config.Compression config)) in
     let pool := runPool fp uc config arrival cc files status w1 in
     events_of run = pre ++ events_of pool /\
     result_of run = result_of pool /\
     forallb (preludeEvent lg rp) pre = true /\
     reportedPhases pre = (if rp then phases else []) /\
     files <> [] /\
     (exists w0,
        fst (fst (ListPDFFiles (fileRepo uc)
                    (Config.SourceDirectory (Config.Scanner config)) w0)) = files) /\
     ProcessingStatus.TotalFiles status = Z.of_nat (length files) /\
     counted 0 status /\
     ProcessingStatus.Phase status = PhaseCompressing).

(** *** FileSystemRepository

    The repository over the modelled file system. Three things the
    model of the file system does not hold are taken as given:
    [filepath.Join] on a directory and an entry name, the tree
    [filepath.WalkDir] finds under a directory, and the modification
    time [os.Stat] reports for a path. An interface call does not show
    the system calls it makes. *)
Section FileSystemRepository.

Variable join : string -> string -> string.
Variable tree : World -> string -> Inventory.Root.
Variable modTime : World -> string -> Z.

Definition FileSystemRepository_GetFileInfo (path : string) (w : World)
  : (option PDFDocument.t * option error) * World :=
  let st := os_Stat path w in
  match snd (result_of st) with
  | Some err => ((None, Some err), world_of st)
  | None =>
      ((Some {| PDFDocument.Path := path;
                PDFDocument.Size :=
                  match fst (result_of st) with Some size => size | None => 0 end;
                PDFDocument.ModifiedTime := modTime w path;
                PDFDocument.Pages := 0 |}, None), world_of st)
  end.

Definition FileSystemRepository_FileExists (path : string) (w : World) : bool * World :=
  let st := os_Stat path w in
  (negb (os_IsNotExist (snd (result_of st))), world_of st).

Definition FileSystemRepository_CreateDirectory (path : string) (w : World)
  : option error * World :=
  let r := os_MkdirAll path w in (result_of r, world_of r).

Definition FileSystemRepository_ListPDFFiles (directory : string) (w : World)
  : (list string * option error) * World :=
  (Inventory.ListPDFFiles join (tree w directory) directory, w).

Definition NewFileSystemRepository : FileRepository :=
  {| GetFileInfo := FileSystemRepository_GetFileInfo;
     FileExists := FileSystemRepository_FileExists;
     CreateDirectory := FileSystemRepository_CreateDirectory;
     ListPDFFiles := FileSystemRepository_ListPDFFiles |}.

End FileSystemRepository.

(** The use case over the repository's own implementations of the file
    and configuration repositories. *)
Definition realUseCase (c : PDFCompressor) (join : string -> string -> string)
    (tree : World -> string -> Inventory.Root) : ProcessPDFsUseCase :=
  {| compressor := c;
     fileRepo := NewFileSystemRepository join tree (fun _ _ => 0);
     configRepo := theConfigRepository;
     logger := true;
     progressReporter := true |}.

(** The method [ListPDFFiles] of the interface, under a name of its
    own beside [Inventory.ListPDFFiles]. *)
Abbreviation FileRepository_ListPDFFiles := ListPDFFiles (only parsing).

(** *** CompressPDFUseCase *)

Definition ErrFileNotFound : error := ErrNew "файл не найден".

Record CompressPDFUseCase : Type := {
  cp_compressor : PDFCompressor;
  cp_fileRepo : FileRepository;
  cp_configRepo : ConfigRepository
}.

(** [inputPath[:len(inputPath)-len(ext)] + "_compressed" + ext] with
    [ext := filepath.Ext(inputPath)] *)
Definition compressedName (inputPath : string) : string :=
  let ext := Inventory.Ext inputPath in
  let base :=
    String.substring 0 (String.length inputPath - String.length ext) inputPath in
  base +:+ "_compressed" +:+ ext.

Section CompressPDF.

Variable uc : CompressPDFUseCase.

(** A nil configuration handed back without an error is dereferenced by
    [config.Validate()]. *)
Definition CompressPDF_Execute (inputPath outputPath : string) (compressionLevel : Z)
  : M (Go (option CompressionResult.t * option error)) :=
  (exists_ <- call (FileExists (cp_fileRepo uc) inputPath) ;;
   if negb exists_ then ret (Done (None, Some ErrFileNotFound))
   else
     info <- call (GetFileInfo (cp_fileRepo uc) inputPath) ;;
     match snd info with
     | Some e => ret (Done (None, Some (ErrWrap "ошибка получения информации о файле" e)))
     | None =>
         c <- call (GetCompressionConfig (cp_configRepo uc) compressionLevel) ;;
         match snd c, fst c with
         | Some e, _ => ret (Done (None, Some (ErrWrap "ошибка создания конфигурации" e)))
         | None, None => ret Panic
         | None, Some config =>
             err <- call (ValidateConfig (cp_configRepo uc) config) ;;
             match err with
             | Some e =>
                 ret (Done (None, Some (ErrWrap "ошибка валидации конфигурации" e)))
             | None =>
                 let outputPath :=
                   if String.eqb outputPath "" then compressedName inputPath
                   else outputPath in
                 r <- call (Compress (cp_compressor uc) inputPath outputPath config) ;;
                 emit (EvCompress inputPath outputPath (snd r)) ;;;
                 match snd r with
                 | Some e => ret (Done (None, Some (ErrWrap "ошибка сжатия файла" e)))
                 | None =>
                     match fst r, fst info with
                     | Some result, Some fileInfo =>
                         ret (Done
                                (Some (CompressionResult.CalculateCompressionRatio
                                         (CompressionResult.set_OriginalSize
                                            (PDFDocument.Size fileInfo) result)),
                                 None))
                     | _, _ => ret Panic
                     end
                 end
             end
         end
     end)%M.

End CompressPDF.

(** The compressor's calls of a run: input and output path of each. *)
Definition compressions (evs : list Event) : list (string * string) :=
  flat_map (fun e => match e with EvCompress i o _ => [(i, o)] | _ => [] end) evs.

(** The counters of a [DirectoryCompressionResult] agree with its
    lists, which hold an entry for each of [n] files. *)
Definition tallied (n : nat) (r : DirectoryCompressionResult) : Prop :=
  dcr_SuccessCount r = Z.of_nat (length (dcr_Results r)) /\
  dcr_FailedCount r = Z.of_nat (length (dcr_Errors r)) /\
  (length (dcr_Results r) + length (dcr_Errors r))%nat = n.

(** ** Package logging *)

Module FileLogger.

(** Whether the logger holds a [*log.Logger], and the level it was
    given (already in lower case). *)
Record t : Type := {
  logger : bool;
  logLevel : string
}.

Definition levels : gmap string Z :=
  <["debug" := 0]> (<["info" := 1]> (<["warning" := 2]> (<["error" := 3]> ∅))).

Definition shouldLog (l : t) (level : string) : bool :=
  let currentLevel :=
    match levels !! logLevel l with
    | Some n => n
    | None => 1
    end in
  match levels !! level with
  | None => false
  | Some messageLevel => currentLevel <=? messageLevel
  end.

(** The lines a call writes: none, or one, tagged with its level;
    [message] is the formatted text, and the time stamp [log.Logger]
    puts in front of a line is left out. *)
Definition writeLog (l : t) (level message : string) : list string :=
  if logger l then ["[" +:+ level +:+ "] " +:+ message] else [].

Definition Debug (l : t) (message : string) : list string :=
  if shouldLog l "debug" then writeLog l "DEBUG" message else [].

Definition Info (l : t) (message : string) : list string :=
  if shouldLog l "info" then writeLog l "INFO" message else [].

Definition Warning (l : t) (message : string) : list string :=
  if shouldLog l "warning" then writeLog l "WARNING" message else [].

Definition Error (l : t) (message : string) : list string :=
  if shouldLog l "error" then writeLog l "ERROR" message else [].

Definition Success (l : t) (message : string) : list string :=
  if shouldLog l "info" then writeLog l "SUCCESS" message else [].

End FileLogger.

(** ** Images and the use case over all file types *)

(** [strings.ToLower(filepath.Ext(filename))], to be compared with one
    of ".pdf", ".jpg", ".jpeg" and ".png": ASCII strings without the
    letters i and k, the only ones some character outside ASCII has as
    its lower case. *)
Definition lowerExt (filename : string) : string :=
  Inventory.lowerString (Inventory.Ext filename).

Definition IsImageFile (filename : string) : bool :=
  let ext := lowerExt filename in
  String.eqb ext ".jpg" || String.eqb ext ".jpeg" || String.eqb ext ".png".

Definition GetImageFormat (filename : string) : string :=
  let ext := lowerExt filename in
  if String.eqb ext ".jpg" || String.eqb ext ".jpeg" then "jpeg"
  else if String.eqb ext ".png" then "png"
  else "".

Record ImageCompressor : Type := {
  CompressJPEG : string -> string -> Z -> World -> option error * World;
  CompressPNG : string -> string -> Z -> World -> option error * World
}.

(** [ci_logger] tells whether the logger is non-nil; the use case calls
    it without looking. *)
Record CompressImageUseCase : Type := {
  ci_logger : bool;
  ci_compressor : ImageCompressor
}.

Definition CompressImage (uc : CompressImageUseCase) (inputPath outputPath : string)
    (config : AppCompressionConfig.t) : M (Go (option error)) :=
  (let format := GetImageFormat inputPath in
   if String.eqb format "" then
     ret (Done (Some (ErrNew ("неподдерживаемый формат изображения: " +:+ inputPath))))
   else if String.eqb format "jpeg" then
     if negb (AppCompressionConfig.EnableJPEG config) then
       if ci_logger uc then
         emit (EvLog LInfo ("Пропуск JPEG файла (сжатие отключено): " +:+ inputPath)) ;;;
         ret (Done None)
       else ret Panic
     else
       err <- call (CompressJPEG (ci_compressor uc) inputPath outputPath
                      (AppCompressionConfig.JPEGQuality config)) ;;
       ret (Done err)
   else if String.eqb format "png" then
     if negb (AppCompressionConfig.EnablePNG config) then
       if ci_logger uc then
         emit (EvLog LInfo ("Пропуск PNG файла (сжатие отключено): " +:+ inputPath)) ;;;
         ret (Done None)
       else ret Panic
     else
       err <- call (CompressPNG (ci_compressor uc) inputPath outputPath
                      (AppCompressionConfig.PNGQuality config)) ;;
       ret (Done err)
   else
     ret (Done (Some (ErrNew ("неподдерживаемый формат изображения: " +:+ format)))))%M.

(** [entities.Config] with the whole of [AppCompressionConfig];
    [pipeline] is what [ProcessPDFsUseCase] reads of it. *)
Module AppConfig.

Record t : Type := {
  Scanner : Config.ScannerConfig;
  Compression : AppCompressionConfig.t;
  Processing : Config.ProcessingConfig
}.

Definition pipeline (c : t) : Config.t :=
  {| Config.Scanner := Scanner c;
     Config.Compression :=
       {| Config.Level := AppCompressionConfig.Level (Compression c);
          Config.Algorithm := AppCompressionConfig.Algorithm (Compression c);
          Config.UniPDFLicenseKey := AppCompressionConfig.UniPDFLicenseKey (Compression c) |};
     Config.Processing := Processing c |}.

End AppConfig.

Record ProcessingError : Type := {
  pe_FilePath : string;
  pe_Error : error
}.

Record ProcessingResult : Type := {
  pr_ProcessedFiles : list string;
  pr_FailedFiles : list ProcessingError;
  pr_SuccessfulFiles : Z;
  pr_TotalFiles : Z
}.

Section ProcessAllFiles.

Variable fp : Filepath.

(** [imageProcessor] stands for [CompressImageUseCase.ProcessImagesInDirectory],
    which walks the source directory with [filepath.Walk]: whatever it
    does, it panics or hands back a result and possibly an error. *)
Record ProcessAllFilesUseCase : Type := {
  pdfProcessor : ProcessPDFsUseCase;
  imageProcessor : string -> string -> AppCompressionConfig.t -> bool ->
                   M (Go (ProcessingResult * option error));
  pa_logger : bool
}.

Variable uc : ProcessAllFilesUseCase.
Variable config : AppConfig.t.

Definition shouldProcessPDFs : bool :=
  negb (String.eqb (AppCompressionConfig.Algorithm (AppConfig.Compression config)) "").

Definition shouldProcessImages : bool :=
  AppCompressionConfig.EnableJPEG (AppConfig.Compression config)
  || AppCompressionConfig.EnablePNG (AppConfig.Compression config).

Definition GetSupportedFileTypes : list string :=
  let types := [] in
  let types := if shouldProcessPDFs then types ++ ["PDF"%string] else types in
  let types :=
    if AppCompressionConfig.EnableJPEG (AppConfig.Compression config)
    then types ++ ["JPEG"%string] else types in
  let types :=
    if AppCompressionConfig.EnablePNG (AppConfig.Compression config)
    then types ++ ["PNG"%string] else types in
  types.

Definition IsFileSupported (filename : string) : bool :=
  let ext := lowerExt filename in
  if String.eqb ext ".pdf" && shouldProcessPDFs then true
  else if IsImageFile filename then
    let format := GetImageFormat filename in
    if String.eqb format "jpeg"
    then AppCompressionConfig.EnableJPEG (AppConfig.Compression config)
    else if String.eqb format "png"
    then AppCompressionConfig.EnablePNG (AppConfig.Compression config)
    else false
  else false.

(** [for _, failed := range result.FailedFiles { uc.logger.Error(...) }] *)
Fixpoint logFailed (failed : list ProcessingError) : M unit :=
  match failed with
  | [] => ret tt
  | _ :: rest =>
      (emit (EvLog LError "Не удалось обработать изображение %s: %v") ;;;
       logFailed rest)%M
  end.

(** The end of [Execute], from [if !processedPDFs && !processedImages]. *)
Definition finishAll (processedPDFs processedImages : bool) : M (Go (option error)) :=
  (if negb processedPDFs && negb processedImages then
     emit (EvLog LWarning "Не выбрано ни одного типа файлов для обработки") ;;;
     ret (Done (Some (ErrNew "не выбрано ни одного типа файлов для обработки")))
   else
     emit (EvLog LInfo "Обработка всех файлов завершена успешно") ;;;
     ret (Done None))%M.

(** The part of [Execute] on images. *)
Definition processImages (processedPDFs : bool) : M (Go (option error)) :=
  (if shouldProcessImages then
     emit (EvLog LInfo "Обработка изображений...") ;;;
     r <- imageProcessor uc
            (Config.SourceDirectory (AppConfig.Scanner config))
            (Config.TargetDirectory (AppConfig.Scanner config))
            (AppConfig.Compression config)
            (Config.ReplaceOriginal (AppConfig.Scanner config)) ;;
     match r with
     | Panic => ret Panic
     | Done (_, Some err) =>
         emit (EvLog LError "Ошибка обработки изображений: %v") ;;;
         ret (Done (Some (ErrWrap "ошибка обработки изображений" err)))
     | Done (result, None) =>
         emit (EvLog LInfo "Обработка изображений завершена. Всего файлов: %d, Успешно: %d, Ошибок: %d") ;;;
         logFailed (pr_FailedFiles result) ;;;
         finishAll processedPDFs true
     end
   else finishAll processedPDFs false)%M.

(** A nil logger is dereferenced by the first statement. *)
Definition ProcessAllFiles_Execute
    (arrival : list CompressionResult.t -> list CompressionResult.t)
  : M (Go (option error)) :=
  (if negb (pa_logger uc) then ret Panic
   else
     emit (EvLog LInfo "Начинаем обработку файлов") ;;;
     emit (EvLog LInfo "Исходная директория: %s") ;;;
     if shouldProcessPDFs then
       emit (EvLog LInfo "Обработка PDF файлов...") ;;;
       r <- Execute fp (pdfProcessor uc) (AppConfig.pipeline config) arrival ;;
       match r with
       | Panic => ret Panic
       | Done (Some err, _) =>
           emit (EvLog LError "Ошибка обработки PDF файлов: %v") ;;;
           ret (Done (Some (ErrWrap "ошибка обработки PDF файлов" err)))
       | Done (None, _) =>
           emit (EvLog LInfo "Обработка PDF файлов завершена") ;;;
           processImages true
       end
     else processImages false)%M.

End ProcessAllFiles.

(** ** float64: signs *)

(** A float that has sign [s], or is not a number. *)
Definition signed (s : bool) (f : float64) : Prop :=
  match f with
  | S754_zero s' | S754_infinity s' | S754_finite s' _ _ => s' = s
  | S754_nan => True
  end.

(** * Properties *)

Local Close Scope M_scope.

(** ** Running monadic code *)

Section Run.

Context {A B : Type}.

Lemma result_bind (m : M A) (k : A -> M B) (w : World) :
  result_of (bind m k w) = result_of (k (result_of (m w)) (world_of (m w))).
Proof.
  unfold bind, result_of, world_of. destruct (m w) as [[a w1] e1]; simpl.
  destruct (k a w1) as [[b w2] e2]; reflexivity.
Qed.

Lemma world_bind (m : M A) (k : A -> M B) (w : World) :
  world_of (bind m k w) = world_of (k (result_of (m w)) (world_of (m w))).
Proof.
  unfold bind, result_of, world_of. destruct (m w) as [[a w1] e1]; simpl.
  destruct (k a w1) as [[b w2] e2]; reflexivity.
Qed.

Lemma events_bind (m : M A) (k : A -> M B) (w : World) :
  events_of (bind m k w) =
  events_of (m w) ++ events_of (k (result_of (m w)) (world_of (m w))).
Proof.
  unfold bind, result_of, world_of, events_of. destruct (m w) as [[a w1] e1]; simpl.
  destruct (k a w1) as [[b w2] e2]; reflexivity.
Qed.

Lemma result_call (f : World -> A * World) (w : World) : result_of (call f w) = fst (f w).
Proof. unfold call, result_of. now destruct (f w). Qed.

Lemma world_call (f : World -> A * World) (w : World) : world_of (call f w) = snd (f w).
Proof. unfold call, world_of. now destruct (f w). Qed.

Lemma events_call (f : World -> A * World) (w : World) : events_of (call f w) = [].
Proof. unfold call, events_of. now destruct (f w). Qed.

Lemma result_ret (a : A) (w : World) : result_of (ret a w) = a.
Proof. reflexivity. Qed.

Lemma world_ret (a : A) (w : World) : world_of (ret a w) = w.
Proof. reflexivity. Qed.

Lemma events_ret (a : A) (w : World) : events_of (ret a w) = [].
Proof. reflexivity. Qed.

Lemma run_eta (r : A * World * list Event) : r = (result_of r, world_of r, events_of r).
Proof. now destruct r as [[a w] e]. Qed.

End Run.

Lemma world_reportProgress uc s w : world_of (reportProgress uc s w) = w.
Proof. unfold reportProgress. now destruct (progressReporter uc). Qed.

Lemma events_reportProgress uc s w :
  events_of (reportProgress uc s w) = if progressReporter uc then [EvReport s] else [].
Proof. unfold reportProgress. now destruct (progressReporter uc). Qed.

Lemma world_logf uc l f w : world_of (logf uc l f w) = w.
Proof. unfold logf. now destruct (logger uc). Qed.

Lemma events_logf uc l f w :
  events_of (logf uc l f w) = if logger uc then [EvLog l f] else [].
Proof. unfold logf. now destruct (logger uc). Qed.

Lemma result_time_Now w : result_of (time_Now w) = w_clock w.
Proof. reflexivity. Qed.

Lemma world_time_Now w : world_of (time_Now w) = w.
Proof. reflexivity. Qed.

Lemma events_time_Now w : events_of (time_Now w) = [].
Proof. reflexivity. Qed.

Lemma world_emit e w : world_of (emit e w) = w.
Proof. reflexivity. Qed.

Lemma events_emit e w : events_of (emit e w) = [e].
Proof. reflexivity. Qed.

Create Rewrite HintDb run.
#[export] Hint Rewrite @result_bind @world_bind @events_bind
  @result_call @world_call @events_call @result_ret @world_ret @events_ret
  world_reportProgress events_reportProgress world_logf events_logf
  result_time_Now world_time_Now events_time_Now world_emit events_emit : run.

Ltac run_simpl := repeat (autorewrite with run; cbn [fst snd negb]).

(** Case analysis on the test that decides how a run goes on. *)
Ltac run_case :=
  match goal with
  | |- context [events_of ((if ?c then _ else _) _)] => destruct c eqn:?
  | |- context [events_of ((match ?c with Some _ => _ | None => _ end) _)] =>
      destruct c eqn:?
  | |- context [result_of ((if ?c then _ else _) _)] => destruct c eqn:?
  | |- context [result_of ((match ?c with Some _ => _ | None => _ end) _)] =>
      destruct c eqn:?
  | |- context [world_of ((if ?c then _ else _) _)] => destruct c eqn:?
  | |- context [world_of ((match ?c with Some _ => _ | None => _ end) _)] =>
      destruct c eqn:?
  end.

(** *** The banner, the start lines and the statistics

    They log, and do nothing else. *)

Lemma forallb_weaken {A} (P Q : A -> bool) (l : list A) :
  (forall a, P a = true -> Q a = true) -> forallb P l = true -> forallb Q l = true.
Proof.
  intros HPQ. induction l as [|a l IH]; [reflexivity|]. cbn [forallb].
  intros H. apply andb_prop in H as [Ha Hl]. now rewrite (HPQ a Ha), (IH Hl).
Qed.

Lemma onlyLog_logf uc l f w :
  forallb (onlyLog (logger uc)) (events_of (logf uc l f w)) = true.
Proof. rewrite events_logf. now destruct (logger uc). Qed.

Lemma world_logBanner uc config w : world_of (logBanner uc config w) = w.
Proof.
  unfold logBanner. run_simpl.
  destruct (Config.ReplaceOriginal (Config.Scanner config)); now run_simpl.
Qed.

Lemma events_logBanner uc config w :
  forallb (onlyLog (logger uc)) (events_of (logBanner uc config w)) = true.
Proof.
  unfold logBanner. run_simpl.
  destruct (Config.ReplaceOriginal (Config.Scanner config)); run_simpl;
    destruct (logger uc); reflexivity.
Qed.

Lemma world_logStart uc w : world_of (logStart uc w) = w.
Proof. unfold logStart. now run_simpl. Qed.

Lemma events_logStart uc w :
  forallb (onlyLog (logger uc)) (events_of (logStart uc w)) = true.
Proof. unfold logStart. run_simpl. destruct (logger uc); reflexivity. Qed.

Lemma world_logStatistics uc status w : world_of (logStatistics uc status w) = w.
Proof.
  unfold logStatistics, when. run_simpl.
  destruct (0 <? ProcessingStatus.FailedFiles status),
           (0 <? ProcessingStatus.SkippedFiles status),
           (0 <? ProcessingStatus.TotalOriginalSize status); now run_simpl.
Qed.

Lemma events_logStatistics uc status w :
  forallb (onlyLog (logger uc)) (events_of (logStatistics uc status w)) = true.
Proof.
  unfold logStatistics, when. run_simpl.
  destruct (0 <? ProcessingStatus.FailedFiles status),
           (0 <? ProcessingStatus.SkippedFiles status),
           (0 <? ProcessingStatus.TotalOriginalSize status); run_simpl;
    destruct (logger uc); reflexivity.
Qed.

#[export] Hint Rewrite world_logBanner world_logStart world_logStatistics : run.

(** ** Machine integers *)

Lemma wrap64_id (z : Z) : in_int64 z -> wrap64 z = z.
Proof.
  unfold in_int64, wrap64. intros H.
  rewrite Z.mod_small; lia.
Qed.

Lemma wrap64_in_int64 (z : Z) : in_int64 (wrap64 z).
Proof.
  unfold in_int64, wrap64.
  pose proof (Z.mod_pos_bound (z + 2 ^ 63) (2 ^ 64) ltac:(lia)). lia.
Qed.

Lemma int64_add_exact (a b : Z) : in_int64 (a + b) -> int64_add a b = a + b.
Proof. apply wrap64_id. Qed.

Lemma int64_sub_exact (a b : Z) : in_int64 (a - b) -> int64_sub a b = a - b.
Proof. apply wrap64_id. Qed.

(** In 64-bit arithmetic, taking the difference away from the minuend
    gives the subtrahend back, overflow or not. *)
Lemma int64_sub_sub (a b : Z) : in_int64 b -> int64_sub a (int64_sub a b) = b.
Proof.
  unfold int64_sub, wrap64, in_int64. intros H.
  rewrite (Z.mod_eq (a - b + 2 ^ 63) (2 ^ 64)) by lia.
  set (q := (a - b + 2 ^ 63) / 2 ^ 64).
  replace (a - (a - b + 2 ^ 63 - 2 ^ 64 * q - 2 ^ 63) + 2 ^ 63)
    with (b + 2 ^ 63 + q * 2 ^ 64) by lia.
  rewrite Z_mod_plus_full, Z.mod_small; lia.
Qed.

(** ** float64 on small integers *)

Lemma shiftp_S n q : shiftp (S n) q = xO (shiftp n q).
Proof. reflexivity. Qed.

Lemma shiftp_add n m q : shiftp (n + m) q = shiftp n (shiftp m q).
Proof. unfold shiftp. now rewrite Nat.iter_add. Qed.

Lemma digits_shiftp n q :
  Zpos (digits2_pos (shiftp n q)) = Zpos (digits2_pos q) + Z.of_nat n.
Proof.
  induction n as [|n IH]; [cbn; lia|].
  rewrite shiftp_S. cbn [digits2_pos]. rewrite Pos2Z.inj_succ, IH. lia.
Qed.

Lemma Zpos_shiftp n q : Zpos (shiftp n q) = Zpos q * 2 ^ Z.of_nat n.
Proof.
  induction n as [|n IH]; [cbn; lia|].
  rewrite shiftp_S, Pos2Z.inj_xO, IH, Nat2Z.inj_succ, Z.pow_succ_r by lia. lia.
Qed.

Lemma pos_iter_shiftp d q : Pos.iter xO q d = shiftp (Pos.to_nat d) q.
Proof. unfold shiftp. apply Pos2Nat.inj_iter. Qed.

Lemma iter_pos_nat {A} (f : A -> A) (p : positive) (x : A) :
  SpecFloat.iter_pos f p x = Nat.iter (Pos.to_nat p) f x.
Proof.
  revert x. induction p as [p IH|p IH|]; intros x; cbn [SpecFloat.iter_pos].
  - rewrite !IH, Pos2Nat.inj_xI.
    replace (S (2 * Pos.to_nat p)) with (Pos.to_nat p + (Pos.to_nat p + 1))%nat by lia.
    now rewrite !Nat.iter_add.
  - rewrite !IH, Pos2Nat.inj_xO.
    replace (2 * Pos.to_nat p)%nat with (Pos.to_nat p + Pos.to_nat p)%nat by lia.
    now rewrite Nat.iter_add.
  - reflexivity.
Qed.

Lemma shr_1_exact (j n : nat) (q : positive) :
  (j <= n)%nat ->
  Nat.iter j shr_1 {| shr_m := Zpos (shiftp n q); shr_r := false; shr_s := false |} =
  {| shr_m := Zpos (shiftp (n - j) q); shr_r := false; shr_s := false |}.
Proof.
  revert n. induction j as [|j IH]; intros n Hj.
  - now rewrite Nat.sub_0_r.
  - destruct n as [|n]; [lia|].
    rewrite Nat.iter_succ_r. rewrite shiftp_S. cbn [shr_1 orb].
    rewrite IH by lia. reflexivity.
Qed.

Lemma fexp_eq (x : Z) : -1074 <= x - 53 -> fexp 53 1024 x = x - 53.
Proof. intros H. unfold fexp, emin. lia. Qed.

Lemma shr_fexp_shiftp (q : positive) (n : nat) (e : Z) :
  let dq := Zpos (digits2_pos q) in
  let E := e + Z.of_nat n + dq - 53 in
  dq <= 53 -> -1074 <= E -> e <= E ->
  shr_fexp 53 1024 (Zpos (shiftp n q)) e loc_Exact =
  ({| shr_m := Zpos (shiftp (Z.to_nat (53 - dq)) q); shr_r := false; shr_s := false |}, E).
Proof.
  intros dq E Hdq HE He.
  unfold shr_fexp, shr_record_of_loc. cbn [Zdigits2].
  rewrite digits_shiftp. fold dq.
  rewrite fexp_eq by (subst E; lia).
  replace (dq + Z.of_nat n + e - 53 - e) with (E - e) by (subst E; lia).
  unfold shr. destruct (E - e) as [|p|p] eqn:Hp; [| |lia].
  - replace (Z.to_nat (53 - dq)) with n by (subst E; lia).
    f_equal. lia.
  - rewrite iter_pos_nat, shr_1_exact by (subst E; lia).
    replace (n - Pos.to_nat p)%nat with (Z.to_nat (53 - dq)) by (subst E; lia).
    f_equal. lia.
Qed.

Lemma binary_round_aux_shiftp (s : bool) (q : positive) (n : nat) (e : Z) :
  let dq := Zpos (digits2_pos q) in
  let E := e + Z.of_nat n + dq - 53 in
  dq <= 53 -> -1074 <= E <= 971 -> e <= E ->
  binary_round_aux 53 1024 s (Zpos (shiftp n q)) e loc_Exact =
  S754_finite s (shiftp (Z.to_nat (53 - dq)) q) E.
Proof.
  intros dq E Hdq HE He. unfold binary_round_aux.
  rewrite (shr_fexp_shiftp q n e) by (fold dq; fold E; lia).
  fold dq. fold E. cbn [shr_m loc_of_shr_record round_nearest_even].
  pose proof (shr_fexp_shiftp q (Z.to_nat (53 - dq)) E) as H2.
  cbn zeta in H2. fold dq in H2.
  replace (E + Z.of_nat (Z.to_nat (53 - dq)) + dq - 53) with E in H2 by lia.
  rewrite H2 by lia. cbn [shr_m].
  replace (E <=? 1024 - 53) with true by (symmetry; apply Z.leb_le; lia).
  reflexivity.
Qed.

Lemma binary_round_shiftp (s : bool) (q : positive) (n : nat) (e : Z) :
  let dq := Zpos (digits2_pos q) in
  let E := e + Z.of_nat n + dq - 53 in
  dq <= 53 -> -1074 <= E <= 971 ->
  binary_round 53 1024 s (shiftp n q) e =
  S754_finite s (shiftp (Z.to_nat (53 - dq)) q) E.
Proof.
  intros dq E Hdq HE. unfold binary_round.
  rewrite digits_shiftp. fold dq.
  rewrite fexp_eq by (subst E; lia).
  replace (dq + Z.of_nat n + e - 53) with E by (subst E; lia).
  unfold shl_align. destruct (E - e) as [|p|p] eqn:Hp.
  - apply binary_round_aux_shiftp; fold dq; fold E; lia.
  - apply binary_round_aux_shiftp; fold dq; fold E; lia.
  - rewrite pos_iter_shiftp, <- shiftp_add.
    pose proof (binary_round_aux_shiftp s q (Pos.to_nat p + n) E) as H.
    cbn zeta in H. fold dq in H.
    replace (E + Z.of_nat (Pos.to_nat p + n) + dq - 53) with E in H by (subst E; lia).
    apply H; lia.
Qed.

Lemma digits2_pos_bounds (p : positive) :
  2 ^ (Zpos (digits2_pos p) - 1) <= Zpos p < 2 ^ Zpos (digits2_pos p).
Proof.
  induction p as [p IH|p IH|]; cbn [digits2_pos];
    [| |split; [discriminate|reflexivity]].
  - rewrite Pos2Z.inj_succ, Pos2Z.inj_xI.
    replace (Z.succ (Zpos (digits2_pos p)) - 1) with (Z.succ (Zpos (digits2_pos p) - 1)) by lia.
    rewrite !Z.pow_succ_r by lia.
    set (X := 2 ^ (Zpos (digits2_pos p) - 1)) in *.
    set (Y := 2 ^ Zpos (digits2_pos p)) in *. clearbody X Y. lia.
  - rewrite Pos2Z.inj_succ. change (Zpos p~0) with (2 * Zpos p).
    replace (Z.succ (Zpos (digits2_pos p)) - 1) with (Z.succ (Zpos (digits2_pos p) - 1)) by lia.
    rewrite !Z.pow_succ_r by lia.
    set (X := 2 ^ (Zpos (digits2_pos p) - 1)) in *.
    set (Y := 2 ^ Zpos (digits2_pos p)) in *. clearbody X Y. lia.
Qed.

(** A positive integer up to 2^53 is a mantissa of at most 53 bits times
    a power of two. *)
Lemma small_decomposition (p : positive) :
  Zpos p <= 2 ^ 53 ->
  exists (q : positive) (n : nat),
    p = shiftp n q /\ Zpos (digits2_pos q) <= 53 /\
    Z.of_nat n + Zpos (digits2_pos q) <= 54.
Proof.
  intros Hp. destruct (Z_le_gt_dec (Zpos (digits2_pos p)) 53) as [Hd|Hd].
  - exists p, 0%nat. cbn [shiftp Nat.iter]. split; [reflexivity|]. lia.
  - exists 1%positive, 53%nat. split; [|cbn; lia].
    pose proof (digits2_pos_bounds p) as [Hlo _].
    assert (H53 : 2 ^ 53 <= 2 ^ (Zpos (digits2_pos p) - 1))
      by (apply Z.pow_le_mono_r; lia).
    assert (Zpos p = 2 ^ 53) by lia.
    apply Pos2Z.inj. rewrite Zpos_shiftp. lia.
Qed.

(** The float of a small integer, mantissa and exponent. *)
Lemma binary_round_small (s : bool) (q : positive) (n k : nat) :
  let dq := Zpos (digits2_pos q) in
  dq <= 53 -> Z.of_nat n + dq <= 54 ->
  binary_round 53 1024 s (shiftp k (shiftp n q)) (- Z.of_nat k) =
  S754_finite s (shiftp (Z.to_nat (53 - dq)) q) (Z.of_nat n + dq - 53).
Proof.
  intros dq Hdq Hn. rewrite <- shiftp_add.
  pose proof (digits2_pos_bounds q) as _.
  assert (Hd1 : 1 <= dq) by (subst dq; lia).
  pose proof (binary_round_shiftp s q (k + n) (- Z.of_nat k)) as H.
  cbn zeta in H. fold dq in H.
  replace (- Z.of_nat k + Z.of_nat (k + n) + dq - 53) with (Z.of_nat n + dq - 53) in H by lia.
  apply H; lia.
Qed.

Lemma binary_normalize_scaled (z : Z) (k : nat) :
  Z.abs z <= 2 ^ 53 ->
  binary_normalize 53 1024 (z * 2 ^ Z.of_nat k) (- Z.of_nat k) false = f64_of_int z.
Proof.
  intros Hz. unfold f64_of_int.
  destruct z as [|p|p]; [reflexivity| |].
  - destruct (small_decomposition p) as (q & n & -> & Hdq & Hn); [lia|].
    rewrite <- Zpos_shiftp. cbn [binary_normalize].
    rewrite binary_round_small by lia.
    change (shiftp n q) with (shiftp 0 (shiftp n q)).
    change 0 with (- Z.of_nat 0).
    now rewrite binary_round_small by lia.
  - destruct (small_decomposition p) as (q & n & -> & Hdq & Hn); [lia|].
    change (Z.neg (shiftp n q)) with (- Zpos (shiftp n q)).
    rewrite Z.mul_opp_l, <- Zpos_shiftp.
    change (- Zpos (shiftp k (shiftp n q))) with (Zneg (shiftp k (shiftp n q))).
    change (- Zpos (shiftp n q)) with (Zneg (shiftp n q)).
    cbn [binary_normalize].
    rewrite binary_round_small by lia.
    change (shiftp n q) with (shiftp 0 (shiftp n q)).
    change 0 with (- Z.of_nat 0).
    now rewrite binary_round_small by lia.
Qed.

Lemma f64_of_int_pos (q : positive) (n : nat) :
  let dq := Zpos (digits2_pos q) in
  dq <= 53 -> Z.of_nat n + dq <= 54 ->
  f64_of_int (Zpos (shiftp n q)) =
  S754_finite false (shiftp (Z.to_nat (53 - dq)) q) (Z.of_nat n + dq - 53).
Proof.
  intros dq Hdq Hn. unfold f64_of_int. cbn [binary_normalize].
  change (shiftp n q) with (shiftp 0 (shiftp n q)).
  change 0 with (- Z.of_nat 0) at 1.
  now apply binary_round_small.
Qed.

(** The mantissa of a small integer, aligned to a lower exponent. *)
Lemma aligned_mantissa (q : positive) (n : nat) (ez : Z) :
  let dq := Zpos (digits2_pos q) in
  dq <= 53 -> ez <= Z.of_nat n + dq - 53 -> ez <= 0 ->
  Zpos (fst (shl_align (shiftp (Z.to_nat (53 - dq)) q) (Z.of_nat n + dq - 53) ez)) =
  Zpos (shiftp n q) * 2 ^ (- ez).
Proof.
  intros dq Hdq He He0. unfold shl_align.
  rewrite (Zpos_shiftp n q).
  destruct (ez - (Z.of_nat n + dq - 53)) as [|p|p] eqn:Hp; cbn [fst]; [|lia|].
  - rewrite Zpos_shiftp, Z2Nat.id by lia.
    rewrite <- Z.mul_assoc, <- Z.pow_add_r by lia. do 2 f_equal. lia.
  - rewrite pos_iter_shiftp, <- shiftp_add, Zpos_shiftp.
    rewrite <- Z.mul_assoc, <- Z.pow_add_r by lia. do 2 f_equal. lia.
Qed.

Lemma f64_sub_of_int (a b : Z) :
  0 <= a <= 2 ^ 53 -> 0 <= b <= 2 ^ 53 ->
  f64_sub (f64_of_int a) (f64_of_int b) = f64_of_int (a - b).
Proof.
  intros Ha Hb.
  destruct a as [|pa|pa]; [| |lia]; destruct b as [|pb|pb]; try lia.
  - reflexivity.
  - destruct (small_decomposition pb) as (q & n & -> & Hdq & Hn); [lia|].
    change (0 - Zpos (shiftp n q)) with (Zneg (shiftp n q)).
    rewrite f64_of_int_pos by lia.
    unfold f64_of_int. cbn [binary_normalize f64_sub SFsub negb].
    change (shiftp n q) with (shiftp 0 (shiftp n q)).
    change 0 with (- Z.of_nat 0).
    now rewrite binary_round_small by lia.
  - rewrite Z.sub_0_r. now destruct (f64_of_int (Zpos pa)) as [[]| | |].
  - destruct (small_decomposition pa) as (qa & na & -> & Hdqa & Hna); [lia|].
    destruct (small_decomposition pb) as (qb & nb & -> & Hdqb & Hnb); [lia|].
    rewrite !f64_of_int_pos by lia.
    cbn [f64_sub SFsub cond_Zopp].
    pose proof (digits2_pos_bounds (shiftp na qa)) as [Hloa _].
    pose proof (digits2_pos_bounds (shiftp nb qb)) as [Hlob _].
    rewrite digits_shiftp in Hloa, Hlob.
    destruct (Z_le_gt_dec
                (Z.min (Z.of_nat na + Zpos (digits2_pos qa) - 53)
                       (Z.of_nat nb + Zpos (digits2_pos qb) - 53)) 0) as [Hz|Hz].
    + rewrite !aligned_mantissa by lia.
      rewrite <- Z.mul_sub_distr_r.
      match goal with |- context [2 ^ (- ?e)] =>
        pose proof (binary_normalize_scaled (Zpos (shiftp na qa) - Zpos (shiftp nb qb))
                      (Z.to_nat (- e))) as H;
        rewrite Z2Nat.id in H by lia; rewrite Z.opp_involutive in H
      end.
      apply H. lia.
    + assert (Hea : Z.of_nat na + Zpos (digits2_pos qa) - 53 = 1) by lia.
      assert (Heb : Z.of_nat nb + Zpos (digits2_pos qb) - 53 = 1) by lia.
      replace (Zpos (digits2_pos qa) + Z.of_nat na - 1) with 53 in Hloa by lia.
      replace (Zpos (digits2_pos qb) + Z.of_nat nb - 1) with 53 in Hlob by lia.
      assert (Hva : Zpos (shiftp na qa) = 2 ^ 53) by lia.
      assert (Hvb : Zpos (shiftp nb qb) = 2 ^ 53) by lia.
      rewrite Hva, Hvb, Z.sub_diag, Hea, Heb. cbn [Z.min Z.compare].
      assert (Hm : forall q n, Zpos (digits2_pos q) <= 53 ->
                   Z.of_nat n + Zpos (digits2_pos q) - 53 = 1 ->
                   Zpos (shiftp n q) = 2 ^ 53 ->
                   Zpos (shiftp (Z.to_nat (53 - Zpos (digits2_pos q))) q) = 2 ^ 52).
      { intros q n Hd He Hv. rewrite Zpos_shiftp in *. rewrite Z2Nat.id by lia.
        replace (Z.of_nat n) with (1 + (53 - Zpos (digits2_pos q))) in Hv by lia.
        rewrite Z.pow_add_r in Hv by lia. change (2 ^ 53) with (2 * 2 ^ 52) in Hv.
        change (2 ^ 1) with 2 in Hv. lia. }
      unfold shl_align. rewrite !Z.sub_diag. cbn [fst].
      rewrite (Hm qa na Hdqa Hea Hva), (Hm qb nb Hdqb Heb Hvb), Z.sub_diag. reflexivity.
Qed.

(** ** The progress aggregator *)

Section Aggregator.

Import ProcessingStatus.

Lemma isSuccess_true (r : CompressionResult.t) :
  isSuccess r = true <->
  CompressionResult.Success r = true /\ CompressionResult.Error r = None.
Proof.
  unfold isSuccess. destruct (CompressionResult.Success r), (CompressionResult.Error r);
    simpl; intuition congruence.
Qed.

Lemma AddResult_counters (now : Z) (r : CompressionResult.t) (ps : t) :
  ProcessedFiles (AddResult now r ps) = int64_add (ProcessedFiles ps) 1 /\
  TotalFiles (AddResult now r ps) = TotalFiles ps /\
  (if isSuccess r
   then SuccessfulFiles (AddResult now r ps) = int64_add (SuccessfulFiles ps) 1 /\
        FailedFiles (AddResult now r ps) = FailedFiles ps
   else SuccessfulFiles (AddResult now r ps) = SuccessfulFiles ps /\
        FailedFiles (AddResult now r ps) = int64_add (FailedFiles ps) 1).
Proof.
  unfold AddResult. destruct (isSuccess r); simpl; auto.
Qed.

Lemma AddResult_counted (now : Z) (r : CompressionResult.t) (ps : t) (n : Z) :
  0 <= n -> n + 1 < 2 ^ 63 -> counted n ps -> counted (n + 1) (AddResult now r ps).
Proof.
  intros Hn Hlt (Hp & Hs & Hs0 & Hf0).
  destruct (AddResult_counters now r ps) as (Ep & _ & E).
  unfold counted. rewrite Ep.
  destruct (isSuccess r); destruct E as [Es Ef]; rewrite Es, Ef;
    rewrite !int64_add_exact by (unfold in_int64; lia); lia.
Qed.

Lemma feed_app (xs ys : list (Z * CompressionResult.t)) (ps : t) :
  feed (xs ++ ys) ps = feed ys (feed xs ps).
Proof. apply fold_left_app. Qed.

Lemma feed_TotalFiles (inputs : list (Z * CompressionResult.t)) (ps : t) :
  TotalFiles (feed inputs ps) = TotalFiles ps.
Proof.
  revert ps. induction inputs as [|[now r] inputs IH]; intros ps; simpl; [reflexivity|].
  rewrite IH. apply AddResult_counters.
Qed.

Lemma feed_counted (inputs : list (Z * CompressionResult.t)) (ps : t) (n : Z) :
  0 <= n -> n + Z.of_nat (length inputs) < 2 ^ 63 ->
  counted n ps -> counted (n + Z.of_nat (length inputs)) (feed inputs ps).
Proof.
  revert ps n. induction inputs as [|[now r] inputs IH]; intros ps n Hn Hlt Hc.
  - simpl. now rewrite Z.add_0_r.
  - cbn [feed fold_left fst snd]. cbn [length] in *.
    replace (n + Z.of_nat (S (length inputs)))
      with ((n + 1) + Z.of_nat (length inputs)) by lia.
    apply IH; [lia | lia |]. apply AddResult_counted; auto. lia.
Qed.

Lemma NewProcessingStatus_counted (now total : Z) :
  counted 0 (NewProcessingStatus now total).
Proof. unfold counted; simpl; lia. Qed.

End Aggregator.




(** ** C7: cumulative totals and the running average *)

(** C7, as stated, fails at a successful result that leaves the
    cumulative original size at zero: the totals are updated, but the
    average is not recomputed from them (the quotient of the two totals
    is then 0/0, not a number; the aggregator keeps the average it had). *)
Lemma AddResult_average_not_recomputed_at_zero_total :
  let r := {| CompressionResult.CurrentFile := "empty.pdf";
              CompressionResult.OriginalSize := 0;
              CompressionResult.CompressedSize := 0;
              CompressionResult.CompressionRatio := f64_zero;
              CompressionResult.SavedSpace := 0;
              CompressionResult.Success := true;
              CompressionResult.Error := None |} in
  let ps' := ProcessingStatus.AddResult 1 r (ProcessingStatus.NewProcessingStatus 0 1) in
  ProcessingStatus.isSuccess r = true /\
  ProcessingStatus.SuccessfulFiles ps' = 1 /\
  ProcessingStatus.AverageCompression ps' = f64_zero /\
  CompressionResult.ratio_of (ProcessingStatus.TotalOriginalSize ps')
                             (ProcessingStatus.TotalCompressedSize ps') = S754_nan /\
  ProcessingStatus.AverageCompression ps' <>
    CompressionResult.ratio_of (ProcessingStatus.TotalOriginalSize ps')
                               (ProcessingStatus.TotalCompressedSize ps').
Proof.
  vm_compute. repeat split; try reflexivity. discriminate.
Qed.

(** C7, amended. A successful result adds its original and compressed
    sizes to the cumulative totals (in [int64] arithmetic), and when the
    new cumulative original size is positive the average is recomputed
    as [(totalOriginal - totalCompressed) / totalOriginal * 100] from the
    two new totals; otherwise the average keeps its value. The average
    never looks at a per-file ratio: results that agree on sizes and
    outcome give the same average whatever their own ratio fields say. A
    result that is not successful changes no byte total and not the
    average. *)
Theorem AddResult_totals_and_average
    (now : Z) (r : CompressionResult.t) (ps : ProcessingStatus.t) :
  let ps' := ProcessingStatus.AddResult now r ps in
  (ProcessingStatus.isSuccess r = true ->
     ProcessingStatus.TotalOriginalSize ps' =
       int64_add (ProcessingStatus.TotalOriginalSize ps) (CompressionResult.OriginalSize r) /\
     ProcessingStatus.TotalCompressedSize ps' =
       int64_add (ProcessingStatus.TotalCompressedSize ps) (CompressionResult.CompressedSize r) /\
     (0 < ProcessingStatus.TotalOriginalSize ps' ->
        ProcessingStatus.AverageCompression ps' =
          CompressionResult.ratio_of (ProcessingStatus.TotalOriginalSize ps')
                                     (ProcessingStatus.TotalCompressedSize ps')) /\
     (ProcessingStatus.TotalOriginalSize ps' <= 0 ->
        ProcessingStatus.AverageCompression ps' = ProcessingStatus.AverageCompression ps) /\
     forall (now2 : Z) (r2 : CompressionResult.t),
       ProcessingStatus.isSuccess r2 = true ->
       CompressionResult.OriginalSize r2 = CompressionResult.OriginalSize r ->
       CompressionResult.CompressedSize r2 = CompressionResult.CompressedSize r ->
       ProcessingStatus.AverageCompression (ProcessingStatus.AddResult now2 r2 ps) =
         ProcessingStatus.AverageCompression ps') /\
  (ProcessingStatus.isSuccess r = false ->
     ProcessingStatus.TotalOriginalSize ps' = ProcessingStatus.TotalOriginalSize ps /\
     ProcessingStatus.TotalCompressedSize ps' = ProcessingStatus.TotalCompressedSize ps /\
     ProcessingStatus.TotalSavedSpace ps' = ProcessingStatus.TotalSavedSpace ps /\
     ProcessingStatus.AverageCompression ps' = ProcessingStatus.AverageCompression ps).
Proof.
  intros ps'. subst ps'. unfold ProcessingStatus.AddResult. split; intros Hs; rewrite Hs.
  - cbn. repeat split.
    + intros Hpos. apply Z.ltb_lt in Hpos. now rewrite Hpos.
    + intros Hle. apply Z.ltb_ge in Hle. now rewrite Hle.
    + intros now2 r2 Hs2 Ho Hc. rewrite Hs2. cbn. now rewrite Ho, Hc.
  - cbn. repeat split.
Qed.

(** The scenario of the specification: 1000 to 500 and 2000 to 1800
    bytes. The two per-file ratios are 50 and 10, their mean is 30; the
    aggregator reports 700/3000*100. *)
Lemma AddResult_totals_and_average_witness :
  let mk o c :=
    CompressionResult.CalculateCompressionRatio
      {| CompressionResult.CurrentFile := "f.pdf";
         CompressionResult.OriginalSize := o;
         CompressionResult.CompressedSize := c;
         CompressionResult.CompressionRatio := f64_zero;
         CompressionResult.SavedSpace := 0;
         CompressionResult.Success := true;
         CompressionResult.Error := None |} in
  let ps1 := ProcessingStatus.AddResult 1 (mk 1000 500)
               (ProcessingStatus.NewProcessingStatus 0 2) in
  let ps2 := ProcessingStatus.AddResult 2 (mk 2000 1800) ps1 in
  ProcessingStatus.isSuccess (mk 2000 1800) = true /\
  0 < ProcessingStatus.TotalOriginalSize ps2 /\
  ProcessingStatus.TotalOriginalSize ps2 = 3000 /\
  ProcessingStatus.TotalCompressedSize ps2 = 2300 /\
  ProcessingStatus.AverageCompression ps2 = CompressionResult.ratio_of 3000 2300 /\
  CompressionResult.CompressionRatio (mk 1000 500) = f64_of_int 50 /\
  CompressionResult.CompressionRatio (mk 2000 1800) = f64_of_int 10 /\
  ProcessingStatus.AverageCompression ps2 <> f64_of_int 30.
Proof.
  intros mk ps1 ps2.
  destruct (AddResult_totals_and_average 2 (mk 2000 1800) ps1) as [Hs _].
  destruct (Hs eq_refl) as (Ho & Hc & Havg & _).
  assert (Hpos : 0 < ProcessingStatus.TotalOriginalSize ps2) by reflexivity.
  refine (conj eq_refl (conj Hpos (conj Ho (conj Hc (conj (Havg Hpos) _))))).
  vm_compute. repeat split; discriminate.
Defined.

(** ** C6: the counters *)

(** C6, as stated, fails for the aggregator on its own: [AddResult] never
    looks at [TotalFiles], so one result fed to a status created for no
    files already has [ProcessedFiles] above [TotalFiles]. *)
Lemma AddResult_processed_can_exceed_total :
  let ps' := ProcessingStatus.feed [(1, CompressionResult.zero)]
               (ProcessingStatus.NewProcessingStatus 0 0) in
  ProcessingStatus.ProcessedFiles ps' = 1 /\
  ProcessingStatus.TotalFiles ps' = 0 /\
  ~ ProcessingStatus.ProcessedFiles ps' <= ProcessingStatus.TotalFiles ps'.
Proof. vm_compute. repeat split; try reflexivity. intros H; apply H; reflexivity. Qed.


(** ** C1: a run over an empty inventory *)

Lemma spawned_app (a b : list Event) : spawned (a ++ b) = (spawned a + spawned b)%nat.
Proof. unfold spawned. now rewrite List.filter_app, length_app. Qed.

Lemma compressCalls_app (a b : list Event) :
  compressCalls (a ++ b) = (compressCalls a + compressCalls b)%nat.
Proof. unfold compressCalls. now rewrite List.filter_app, length_app. Qed.

Lemma reportedPhases_app (a b : list Event) :
  reportedPhases (a ++ b) = reportedPhases a ++ reportedPhases b.
Proof. unfold reportedPhases. apply flat_map_app. Qed.












(** ** The aggregation loop and the pool *)

Lemma world_logResult uc r w : world_of (logResult uc r w) = w.
Proof. unfold logResult. destruct (ProcessingStatus.isSuccess r); now run_simpl. Qed.

Lemma collect_run uc results counter status w :
  world_of (collect uc results counter status w) = w /\
  result_of (collect uc results counter status w) = aggregate (w_clock w) results status.
Proof.
  revert counter status. induction results as [|r rest IH]; intros counter status.
  - split; reflexivity.
  - cbn [collect]. run_simpl. rewrite !world_logResult. apply IH.
Qed.

Lemma aggregate_counted now results status n :
  0 <= n -> n + Z.of_nat (length results) < 2 ^ 63 ->
  counted n status ->
  counted (n + Z.of_nat (length results)) (aggregate now results status) /\
  ProcessingStatus.TotalFiles (aggregate now results status) =
    ProcessingStatus.TotalFiles status.
Proof.
  revert status n. induction results as [|r rest IH]; intros status n Hn Hlt Hc.
  - cbn. rewrite Z.add_0_r. auto.
  - cbn [aggregate fold_left length] in *.
    replace (n + Z.of_nat (S (length rest))) with ((n + 1) + Z.of_nat (length rest)) by lia.
    destruct (IH (ProcessingStatus.SetCurrentFile (CompressionResult.CurrentFile r)
                    (CompressionResult.OriginalSize r)
                    (ProcessingStatus.AddResult now r status)) (n + 1)) as [H1 H2];
      [lia | lia | | ].
    + pose proof (AddResult_counted now r status n Hn ltac:(lia) Hc) as H.
      exact H.
    + split; [exact H1|]. unfold aggregate in H2 |- *. rewrite H2. cbn.
      now destruct (AddResult_counters now r status) as (_ & H & _).
Qed.

Lemma worker_publishes_one_result_per_job fp uc config cc jobs w results :
  result_of (worker fp uc config cc jobs w) = Done results ->
  length results = length jobs.
Proof.
  revert w results. induction jobs as [|job rest IH]; intros w results.
  - cbn. intros H. injection H as <-. reflexivity.
  - cbn [worker]. run_simpl.
    destruct (result_of (processJob fp uc config cc job w)) eqn:Hj; run_simpl; [|discriminate].
    destruct (result_of (worker fp uc config cc rest _)) eqn:Hr; run_simpl; [|discriminate].
    intros H. injection H as <-. cbn. f_equal. eapply IH. exact Hr.
Qed.

Lemma Complete_counted now n status :
  counted n status -> counted n (ProcessingStatus.Complete now status).
Proof. unfold counted. cbn. auto. Qed.

Lemma runPool_completion fp uc config arrival cc files status w final err :
  (forall l, Permutation (arrival l) l) ->
  Z.of_nat (length files) < 2 ^ 63 ->
  counted 0 status ->
  result_of (runPool fp uc config arrival cc files status w) = Done (err, final) ->
  err = None /\
  counted (Z.of_nat (length files)) final /\
  ProcessingStatus.TotalFiles final = ProcessingStatus.TotalFiles status /\
  ProcessingStatus.Phase final = PhaseCompleted /\
  ProcessingStatus.IsComplete final = true.
Proof.
  intros Hperm Hlen Hc. unfold runPool, completeRun. run_simpl.
  destruct (result_of (worker fp uc config cc files _)) as [results|] eqn:Hw; run_simpl;
    [|discriminate].
  intros H. injection H as <- <-.
  apply worker_publishes_one_result_per_job in Hw.
  match goal with |- context [collect uc ?rs ?c ?s ?w1] =>
    destruct (collect_run uc rs c s w1) as [Hcw Hcr] end.
  rewrite Hcr.
  assert (Hl : length (arrival results) = length files).
  { rewrite <- Hw. apply Permutation_length, Hperm. }
  match goal with |- context [aggregate ?now _ _] =>
    destruct (aggregate_counted now (arrival results) status 0 ltac:(lia)
                ltac:(rewrite Hl; lia) Hc) as [Hcount Htot] end.
  rewrite Hl in Hcount. cbn [Z.add] in Hcount.
  split; [reflexivity|]. split; [apply Complete_counted, Hcount|].
  split; [cbn; exact Htot|]. split; reflexivity.
Qed.

Lemma Execute_completion fp uc config arrival w final :
  (forall l, Permutation (arrival l) l) ->
  (forall dir w', Z.of_nat (length (fst (fst (ListPDFFiles (fileRepo uc) dir w')))) < 2 ^ 63) ->
  result_of (Execute fp uc config arrival w) = Done (None, final) ->
  ProcessingStatus.ProcessedFiles final =
    ProcessingStatus.SuccessfulFiles final + ProcessingStatus.FailedFiles final /\
  ProcessingStatus.ProcessedFiles final = ProcessingStatus.TotalFiles final /\
  ProcessingStatus.Phase final = PhaseCompleted /\
  ProcessingStatus.IsComplete final = true.
Proof.
  intros Hperm Hlen.
  unfold Execute, failRun. run_simpl.
  repeat (run_case; run_simpl); try discriminate.
  all: unfold scanFiles, failRun, completeRun; run_simpl.
  all: repeat (run_case; run_simpl); try discriminate.
  all: try (intros H; injection H as <-; cbn; repeat split; reflexivity).
  all: unfold compressFiles, failRun; run_simpl.
  all: repeat (run_case; run_simpl); try discriminate.
  all: intros H; eapply runPool_completion in H; eauto;
    [ | unfold counted; cbn; lia ].
  all: destruct H as (_ & (Hp & Hs & _) & Ht & Hph & Hic); cbn in Ht.
  all: repeat split; auto; try lia.
Qed.

(** C6, amended. Fed any sequence of results (fewer than 2^63 of them)
    after initialisation, the aggregator has [ProcessedFiles] equal to
    the number of results and to [SuccessfulFiles + FailedFiles].
    [ProcessedFiles <= TotalFiles] holds exactly as long as no more
    results have been fed than [TotalFiles] says: the aggregator does not
    enforce it, the batch run does, by feeding one result per file of the
    inventory. At the completion of a batch run (any order of arrival of
    the results), [ProcessedFiles = SuccessfulFiles + FailedFiles =
    TotalFiles]. *)
Theorem aggregator_counters :
  (forall (now total : Z) (inputs : list (Z * CompressionResult.t)),
     Z.of_nat (length inputs) < 2 ^ 63 ->
     let ps := ProcessingStatus.feed inputs (ProcessingStatus.NewProcessingStatus now total) in
     ProcessingStatus.ProcessedFiles ps = Z.of_nat (length inputs) /\
     ProcessingStatus.ProcessedFiles ps =
       ProcessingStatus.SuccessfulFiles ps + ProcessingStatus.FailedFiles ps /\
     ProcessingStatus.TotalFiles ps = total /\
     (ProcessingStatus.ProcessedFiles ps <= ProcessingStatus.TotalFiles ps <->
      Z.of_nat (length inputs) <= total)) /\
  (forall (fp : Filepath) (uc : ProcessPDFsUseCase) (config : Config.t)
          (arrival : list CompressionResult.t -> list CompressionResult.t)
          (w : World) (final : ProcessingStatus.t),
     (forall l, Permutation (arrival l) l) ->
     (forall dir w',
        Z.of_nat (length (fst (fst (ListPDFFiles (fileRepo uc) dir w')))) < 2 ^ 63) ->
     result_of (Execute fp uc config arrival w) = Done (None, final) ->
     ProcessingStatus.ProcessedFiles final =
       ProcessingStatus.SuccessfulFiles final + ProcessingStatus.FailedFiles final /\
     ProcessingStatus.ProcessedFiles final = ProcessingStatus.TotalFiles final /\
     ProcessingStatus.Phase final = PhaseCompleted /\
     ProcessingStatus.IsComplete final = true).
Proof.
  split.
  - intros now total inputs Hlen ps.
    destruct (feed_counted inputs (ProcessingStatus.NewProcessingStatus now total) 0
                ltac:(lia) ltac:(lia) (NewProcessingStatus_counted now total))
      as (Hp & Hs & _).
    fold ps in Hp, Hs. cbn [Z.add] in Hp, Hs.
    assert (Ht : ProcessingStatus.TotalFiles ps = total)
      by (subst ps; now rewrite feed_TotalFiles).
    rewrite Hp, Hs, Ht. repeat split; auto.
  - intros fp uc config arrival w final. apply Execute_completion.
Qed.


Lemma aggregator_counters_witness :
  let r := CompressionResult.zero in
  let ps := ProcessingStatus.feed [(1, r); (2, r)] (ProcessingStatus.NewProcessingStatus 0 5) in
  let uc := exampleUseCase (fixedCompressor 4) ["pdfs/a.pdf"; "pdfs/b.pdf"]%string in
  let run := Execute slashPaths uc (exampleConfig true 2 3) (fun l => l)
               (worldOf [("pdfs/a.pdf", "0123456789"); ("pdfs/b.pdf", "01234")]%string []) in
  (ProcessingStatus.ProcessedFiles ps = 2 /\
   ProcessingStatus.ProcessedFiles ps <= ProcessingStatus.TotalFiles ps) /\
  exists final,
    result_of run = Done (None, final) /\
    ProcessingStatus.ProcessedFiles final = 2 /\
    ProcessingStatus.ProcessedFiles final = ProcessingStatus.TotalFiles final.
Proof.
  intros r ps uc run. destruct aggregator_counters as [HA HB]. split.
  - destruct (HA 0 5 [(1, r); (2, r)] eq_refl) as (Hp & _ & _ & Hle).
    split; [exact Hp|]. apply Hle. cbn. discriminate.
  - set (final := match result_of run with
                  | Done (_, f) => f
                  | Panic => ProcessingStatus.NewProcessingStatus 0 0
                  end).
    assert (E : result_of run = Done (None, final)) by (vm_compute; reflexivity).
    exists final. split; [exact E|].
    assert (Hperm : forall l : list CompressionResult.t, Permutation ((fun l => l) l) l)
      by (intros l; apply Permutation_refl).
    assert (Hlen : forall dir w',
               Z.of_nat (length (fst (fst (ListPDFFiles (fileRepo uc) dir w')))) < 2 ^ 63)
      by (intros dir w'; reflexivity).
    destruct (HB slashPaths uc (exampleConfig true 2 3) (fun l => l) _ final Hperm Hlen E)
      as (_ & H2 & _).
    split; [vm_compute; reflexivity | exact H2].
Defined.

(** ** The retry executor *)

Lemma world_time_Sleep d w : world_of (time_Sleep d w) = set_clock (w_clock w + Z.max 0 d) w.
Proof. reflexivity. Qed.
Lemma events_time_Sleep d w : events_of (time_Sleep d w) = [EvSleep d].
Proof. reflexivity. Qed.
#[export] Hint Rewrite world_time_Sleep events_time_Sleep : run.

Lemma filter_retry_logf uc l f w :
  List.filter isRetryEvent (events_of (logf uc l f w)) = [].
Proof. rewrite events_logf. now destruct (logger uc). Qed.

Lemma retryFrom_shape uc config cc inputFile outputFile (remaining : nat) :
  forall (attempt : Z) (last : option CompressionResult.t * option error) (w : World),
    (0 < remaining)%nat ->
    0 <= attempt ->
    attempt + Z.of_nat remaining = RetryAttempts config ->
    RetryAttempts config < 2 ^ 63 ->
    let run := retryFrom uc config cc inputFile outputFile remaining attempt last w in
    exists (failures : list error),
      List.filter isRetryEvent (events_of run) =
        retryEvents inputFile outputFile failures (snd (result_of run)) /\
      (length failures < remaining)%nat /\
      (snd (result_of run) <> None -> S (length failures) = remaining).
Proof.
  induction remaining as [|k IH]; intros attempt last w Hpos Hatt Hsum Hmax run; [lia|].
  subst run. cbn [retryFrom]. run_simpl.
  set (r := Compress (compressor uc) inputFile outputFile cc w).
  destruct (snd (fst r)) as [e|] eqn:Herr.
  - run_simpl.
    rewrite int64_sub_exact by (unfold in_int64; lia).
    destruct (attempt <? RetryAttempts config - 1) eqn:Hlast.
    + apply Z.ltb_lt in Hlast. run_simpl.
      rewrite int64_add_exact by (unfold in_int64; lia).
      match goal with |- context [retryFrom uc config cc inputFile outputFile k ?a ?l ?w1] =>
        destruct (IH a l w1 ltac:(lia) ltac:(lia) ltac:(lia) Hmax) as (fs & Hev & Hlen & Hex)
      end.
      exists (e :: fs). rewrite !List.filter_app, Hev.
      destruct (logger uc); cbn [List.filter isRetryEvent app].
      all: split; [reflexivity|]; cbn [length]; split; [lia|]; intros H; f_equal; auto.
    + apply Z.ltb_ge in Hlast. assert (k = 0%nat) by lia. subst k.
      cbn [retryFrom]. run_simpl. exists []. rewrite Herr.
      cbn. repeat split; auto.
  - run_simpl. rewrite Herr. exists []. cbn. repeat split; auto; try lia. congruence.
Qed.

Lemma filter_compress_retry (evs : list Event) :
  List.filter isCompress (List.filter isRetryEvent evs) = List.filter isCompress evs.
Proof.
  induction evs as [|e evs IH]; [reflexivity|].
  destruct e; cbn; rewrite ?IH; reflexivity.
Qed.

Lemma filter_sleep_retry (evs : list Event) :
  List.filter isSleep (List.filter isRetryEvent evs) = List.filter isSleep evs.
Proof.
  induction evs as [|e evs IH]; [reflexivity|].
  destruct e; cbn; rewrite ?IH; reflexivity.
Qed.

Lemma retryEvents_counts inputFile outputFile failures last :
  compressCalls (retryEvents inputFile outputFile failures last) = S (length failures) /\
  sleeps (retryEvents inputFile outputFile failures last) = length failures.
Proof.
  unfold compressCalls, sleeps, retryEvents.
  induction failures as [|e fs [IH1 IH2]]; [split; reflexivity|].
  cbn [flat_map app List.filter isCompress isSleep length].
  rewrite IH1, IH2. split; reflexivity.
Qed.

Lemma retryFrom_alwaysFails uc config cc inputFile outputFile (remaining : nat) :
  alwaysFails (compressor uc) ->
  forall attempt last w,
    (0 < remaining)%nat ->
    snd (result_of (retryFrom uc config cc inputFile outputFile remaining attempt last w))
      <> None.
Proof.
  intros Hf. induction remaining as [|k IH]; intros attempt last w Hpos; [lia|].
  cbn [retryFrom]. run_simpl.
  pose proof (Hf inputFile outputFile cc w) as He.
  destruct (snd (fst (Compress (compressor uc) inputFile outputFile cc w))) as [e|] eqn:Herr;
    [|congruence].
  run_simpl. destruct k as [|k].
  - cbn [retryFrom]. run_simpl. congruence.
  - apply IH. lia.
Qed.

Lemma compressWithRetry_none uc config cc inputFile outputFile w :
  RetryAttempts config <= 0 ->
  compressWithRetry uc config cc inputFile outputFile w = ((None, None), w, []).
Proof.
  intros H. unfold compressWithRetry.
  replace (Z.to_nat (RetryAttempts config)) with 0%nat by lia. reflexivity.
Qed.

(** *** System calls *)

Lemma events_os_Stat p w :
  events_of (os_Stat p w) = [EvSyscall (SysStat p) (snd (result_of (os_Stat p w)))].
Proof. unfold os_Stat. destruct (next_fault w) as [f w1]. reflexivity. Qed.

Lemma events_os_Rename a b w :
  events_of (os_Rename a b w) = [EvSyscall (SysRename a b) (result_of (os_Rename a b w))].
Proof.
  unfold os_Rename. destruct (next_fault w) as [[e|] w1]; [reflexivity|].
  destruct (w_fs w1 !! a); reflexivity.
Qed.

Lemma events_os_Remove p w :
  events_of (os_Remove p w) = [EvSyscall (SysRemove p) (result_of (os_Remove p w))].
Proof.
  unfold os_Remove. destruct (next_fault w) as [[e|] w1]; [reflexivity|].
  destruct (w_fs w1 !! p); reflexivity.
Qed.

Lemma events_os_MkdirAll p w :
  events_of (os_MkdirAll p w) = [EvSyscall (SysMkdirAll p) (result_of (os_MkdirAll p w))].
Proof. unfold os_MkdirAll. destruct (next_fault w) as [f w1]. reflexivity. Qed.

#[export] Hint Rewrite events_os_Stat events_os_Rename events_os_Remove events_os_MkdirAll : run.

Lemma replaceOriginalFile_no_retry_events uc originalFile tempFile w :
  List.filter isRetryEvent (events_of (replaceOriginalFile uc originalFile tempFile w)) = [].
Proof.
  unfold replaceOriginalFile. run_simpl.
  repeat (run_case; run_simpl); destruct (logger uc); reflexivity.
Qed.

Lemma resolveOutput_no_retry_events fp config inputFile w :
  List.filter isRetryEvent (events_of (resolveOutput fp config inputFile w)) = [].
Proof.
  unfold resolveOutput.
  destruct (ReplaceOriginal config); [reflexivity|].
  destruct (filepath_Rel fp (SourceDirectory config) inputFile) as [rel [e|]]; [reflexivity|].
  run_simpl. repeat (run_case; run_simpl); reflexivity.
Qed.

Lemma finishJob_no_retry_events uc config inputFile outputFile size result w :
  List.filter isRetryEvent
    (events_of (finishJob uc config inputFile outputFile size result w)) = [].
Proof.
  unfold finishJob, publish.
  destruct (ReplaceOriginal config); [|reflexivity].
  run_simpl. rewrite List.filter_app, replaceOriginalFile_no_retry_events.
  repeat (run_case; run_simpl); destruct (logger uc); reflexivity.
Qed.

Lemma processJob_retry_events fp uc config cc inputFile outputFile info w0 :
  result_of (resolveOutput fp config inputFile w0) = inl outputFile ->
  fst (GetFileInfo (fileRepo uc) inputFile
         (world_of (resolveOutput fp config inputFile w0))) = (Some info, None) ->
  let w := snd (GetFileInfo (fileRepo uc) inputFile
                  (world_of (resolveOutput fp config inputFile w0))) in
  let retry := compressWithRetry uc config cc inputFile outputFile w in
  let job := processJob fp uc config cc inputFile w0 in
  List.filter isRetryEvent (events_of job) = List.filter isRetryEvent (events_of retry) /\
  match result_of retry with
  | (_, Some e) =>
      result_of job = Done (failedResult inputFile (PDFDocument.Size info) e) /\
      In (EvPublish (failedResult inputFile (PDFDocument.Size info) e)) (events_of job)
  | (None, None) => result_of job = Panic
  | (Some r, None) =>
      result_of job =
        result_of (finishJob uc config inputFile outputFile (PDFDocument.Size info) r
                     (world_of retry))
  end.
Proof.
  intros Hout Hinfo w retry job. subst job. unfold processJob. run_simpl.
  rewrite Hout. run_simpl. rewrite Hinfo. cbn [fst snd]. run_simpl.
  fold w. fold retry.
  rewrite !List.filter_app, resolveOutput_no_retry_events. cbn [app].
  destruct (result_of retry) as [[r|] [e|]] eqn:Hr; cbn [fst snd]; unfold publish; run_simpl.
  - cbn [List.filter app isRetryEvent]. rewrite app_nil_r. split; [reflexivity|].
    split; [reflexivity|]. apply in_or_app. right. apply in_or_app. right. now left.
  - rewrite ?List.filter_app, finishJob_no_retry_events, ?app_nil_r. split; reflexivity.
  - cbn [List.filter app isRetryEvent]. rewrite app_nil_r. split; [reflexivity|].
    split; [reflexivity|]. apply in_or_app. right. apply in_or_app. right. now left.
  - cbn [List.filter app]. rewrite ?app_nil_r. split; reflexivity.
Qed.

(** C5. A job that reaches the retry executor with [RetryAttempts = N >=
    1] calls the compressor at least once and at most [N] times; between
    two consecutive attempts, and only there, it sleeps the fixed two
    seconds, so that the calls and sleeps of the job read
    [call; sleep; call; sleep; ...; call]; every attempt but the last one
    has failed, so the executor stops at the first success. If the last
    attempt failed as well, it was attempt number [N] (exactly [N] calls
    and [N - 1] sleeps, none after the last call), and the job publishes
    a failed result carrying the error of that last attempt: the one
    result the job publishes has [Success = false] and as its [Error]
    the error of the last call. A compressor that fails on every call
    always ends this way. *)
Theorem retry_executor
    (fp : Filepath) (uc : ProcessPDFsUseCase) (config : Config.t)
    (cc : CompressionConfig.t) (inputFile outputFile : string)
    (info : PDFDocument.t) (w0 : World) :
  1 <= RetryAttempts config < 2 ^ 63 ->
  result_of (resolveOutput fp config inputFile w0) = inl outputFile ->
  fst (GetFileInfo (fileRepo uc) inputFile
         (world_of (resolveOutput fp config inputFile w0))) = (Some info, None) ->
  let job := processJob fp uc config cc inputFile w0 in
  let N := Z.to_nat (RetryAttempts config) in
  exists (failures : list error) (last : option error),
    List.filter isRetryEvent (events_of job) =
      retryEvents inputFile outputFile failures last /\
    compressCalls (events_of job) = S (length failures) /\
    sleeps (events_of job) = length failures /\
    (S (length failures) <= N)%nat /\
    (forall e, last = Some e ->
       S (length failures) = N /\
       result_of job = Done (failedResult inputFile (PDFDocument.Size info) e) /\
       In (EvPublish (failedResult inputFile (PDFDocument.Size info) e)) (events_of job) /\
       exists outcome,
         result_of job = Done outcome /\
         In (EvPublish outcome) (events_of job) /\
         CompressionResult.Error outcome = Some e /\
         CompressionResult.Success outcome = false /\
         ProcessingStatus.isSuccess outcome = false /\
         CompressionResult.CurrentFile outcome = inputFile /\
         CompressionResult.OriginalSize outcome = PDFDocument.Size info) /\
    (alwaysFails (compressor uc) -> last <> None).
Proof.
  intros HN Hout Hinfo job N.
  destruct (processJob_retry_events fp uc config cc inputFile outputFile info w0 Hout Hinfo)
    as [Hev Hres].
  fold job in Hev, Hres.
  set (w := snd (GetFileInfo (fileRepo uc) inputFile
                   (world_of (resolveOutput fp config inputFile w0)))) in *.
  set (retry := compressWithRetry uc config cc inputFile outputFile w) in *.
  destruct (retryFrom_shape uc config cc inputFile outputFile N 0 (None, None) w)
    as (failures & Hshape & Hlen & Hex); try (subst N; lia).
  change (retryFrom uc config cc inputFile outputFile N 0 (None, None) w)
    with retry in Hshape, Hex.
  exists failures, (snd (result_of retry)).
  rewrite Hev, Hshape.
  destruct (retryEvents_counts inputFile outputFile failures (snd (result_of retry)))
    as [Hc Hs].
  unfold compressCalls, sleeps in *.
  rewrite <- filter_compress_retry, <- filter_sleep_retry, Hev, Hshape.
  repeat split; auto; try lia.
  - apply Hex. congruence.
  - destruct (result_of retry) as [r [e'|]]; cbn [snd] in *; [|discriminate].
    injection H as ->. destruct r; apply Hres.
  - destruct (result_of retry) as [r [e'|]]; cbn [snd] in *; [|discriminate].
    injection H as ->. destruct r; apply Hres.
  - exists (failedResult inputFile (PDFDocument.Size info) e).
    destruct (result_of retry) as [r [e'|]]; cbn [snd] in *; [|discriminate].
    injection H as ->.
    split; [destruct r; apply Hres|]. split; [destruct r; apply Hres|].
    repeat split; reflexivity.
  - intros Hf. apply retryFrom_alwaysFails; [exact Hf | subst N; lia].
Qed.

Lemma retry_executor_witness :
  let boom := ErrNew "boom" in
  let uc := exampleUseCase (failingCompressor boom) ["pdfs/a.pdf"]%string in
  let config := exampleConfig true 2 3 in
  let w0 := worldOf [("pdfs/a.pdf", "0123456789")]%string [] in
  let job := processJob slashPaths uc config
               (CompressionConfig.NewCompressionConfig 50) "pdfs/a.pdf" w0 in
  1 <= RetryAttempts config < 2 ^ 63 /\
  compressCalls (events_of job) = 3%nat /\
  sleeps (events_of job) = 2%nat /\
  result_of job = Done (failedResult "pdfs/a.pdf" 10 boom).
Proof.
  intros boom uc config w0 job.
  assert (HN : 1 <= RetryAttempts config < 2 ^ 63) by (split; [discriminate|reflexivity]).
  split; [exact HN|].
  destruct (retry_executor slashPaths uc config (CompressionConfig.NewCompressionConfig 50)
              "pdfs/a.pdf" "pdfs/a.pdf.tmp"
              {| PDFDocument.Path := "pdfs/a.pdf"; PDFDocument.Size := 10;
                 PDFDocument.ModifiedTime := 0; PDFDocument.Pages := 0 |}
              w0 HN eq_refl eq_refl)
    as (failures & last & Hev & Hc & Hs & Hle & Hlast & Hfail).
  fold job in Hev, Hc, Hs, Hlast.
  assert (Hboom : last = Some boom).
  { assert (E : List.filter isRetryEvent (events_of job) =
                retryEvents "pdfs/a.pdf" "pdfs/a.pdf.tmp" [boom; boom] (Some boom))
      by (vm_compute; reflexivity).
    rewrite E in Hev. unfold retryEvents in Hev.
    apply (f_equal (@rev Event)) in Hev. rewrite !rev_app_distr in Hev. cbn in Hev.
    congruence. }
  destruct (Hlast boom Hboom) as (HNe & Hres & _).
  split; [rewrite Hc; exact HNe|]. split; [|exact Hres].
  rewrite Hs. apply eq_add_S. exact HNe.
Defined.

(** C2 does not hold on the code. With [RetryAttempts <= 0] the loop
    [for attempt := 0; attempt < RetryAttempts; attempt++] is not entered:
    a job that reaches the retry executor makes no compression attempt
    at all, leaves [result] and [err] both nil, and the worker then
    dereferences the nil [result] ([result.CurrentFile = inputFile]): the
    job ends in a panic and publishes nothing. *)
Theorem zero_retry_attempts_make_no_attempt
    (fp : Filepath) (uc : ProcessPDFsUseCase) (config : Config.t)
    (cc : CompressionConfig.t) (inputFile outputFile : string)
    (info : PDFDocument.t) (w0 : World) :
  RetryAttempts config <= 0 ->
  result_of (resolveOutput fp config inputFile w0) = inl outputFile ->
  fst (GetFileInfo (fileRepo uc) inputFile
         (world_of (resolveOutput fp config inputFile w0))) = (Some info, None) ->
  let job := processJob fp uc config cc inputFile w0 in
  compressCalls (events_of job) = 0%nat /\
  result_of job = Panic /\
  forall r, ~ In (EvPublish r) (events_of job).
Proof.
  intros HN Hout Hinfo job. subst job. unfold processJob. run_simpl.
  rewrite Hout. run_simpl. rewrite Hinfo. cbn [fst snd]. run_simpl.
  rewrite !compressWithRetry_none by exact HN.
  cbn [result_of world_of events_of fst snd]. run_simpl.
  pose proof (resolveOutput_no_retry_events fp config inputFile w0) as Hq.
  repeat split.
  - unfold compressCalls. rewrite !app_nil_r, <- filter_compress_retry, Hq. reflexivity.
  - intros r Hin. rewrite !app_nil_r in Hin. revert Hin.
    unfold resolveOutput.
    destruct (ReplaceOriginal config); [intros []|].
    destruct (filepath_Rel fp (SourceDirectory config) inputFile) as [rel [e|]]; [intros []|].
    run_simpl. repeat (run_case; run_simpl); cbn; intuition discriminate.
Qed.

Lemma zero_retry_attempts_make_no_attempt_witness :
  let uc := exampleUseCase (fixedCompressor 4) ["pdfs/a.pdf"]%string in
  let config := exampleConfig true 2 0 in
  let w0 := worldOf [("pdfs/a.pdf", "0123456789")]%string [] in
  let job := processJob slashPaths uc config
               (CompressionConfig.NewCompressionConfig 50) "pdfs/a.pdf" w0 in
  RetryAttempts config <= 0 /\
  compressCalls (events_of job) = 0%nat /\
  result_of job = Panic /\
  result_of (Execute slashPaths uc config (fun l => l) w0) = Panic.
Proof.
  intros uc config w0 job.
  assert (HN : RetryAttempts config <= 0) by discriminate.
  destruct (zero_retry_attempts_make_no_attempt slashPaths uc config
              (CompressionConfig.NewCompressionConfig 50)
              "pdfs/a.pdf" "pdfs/a.pdf.tmp"
              {| PDFDocument.Path := "pdfs/a.pdf"; PDFDocument.Size := 10;
                 PDFDocument.ModifiedTime := 0; PDFDocument.Pages := 0 |}
              w0 HN eq_refl eq_refl) as (Hc & Hp & _).
  split; [exact HN|]. split; [exact Hc|]. split; [exact Hp|].
  vm_compute. reflexivity.
Defined.

(** ** The replacement protocol *)

Lemma syscalls_app (a b : list Event) : syscalls (a ++ b) = syscalls a ++ syscalls b.
Proof. apply flat_map_app. Qed.

Lemma syscalls_logf uc l f w : syscalls (events_of (logf uc l f w)) = [].
Proof. rewrite events_logf. now destruct (logger uc). Qed.

Lemma syscalls_log (b : bool) l f : syscalls (if b then [EvLog l f] else []) = [].
Proof. now destruct b. Qed.

Lemma w_fs_next_fault w : w_fs (snd (next_fault w)) = w_fs w.
Proof. unfold next_fault. now destruct (w_faults w). Qed.

Lemma logf_eq uc l f w : logf uc l f w = (tt, w, if logger uc then [EvLog l f] else []).
Proof. unfold logf, when. now destruct (logger uc). Qed.

Lemma os_Stat_inv p w st w' ev :
  os_Stat p w = (st, w', ev) ->
  ev = [EvSyscall (SysStat p) (snd st)] /\ w_fs w' = w_fs w.
Proof.
  unfold os_Stat. pose proof (w_fs_next_fault w) as H.
  destruct (next_fault w) as [f w1]. intros E. injection E as <- <- <-. auto.
Qed.

Lemma os_Rename_inv a b w r w' ev :
  os_Rename a b w = (r, w', ev) ->
  ev = [EvSyscall (SysRename a b) r] /\
  match r with
  | None => exists c, w_fs w !! a = Some c /\ w_fs w' = <[b := c]> (delete a (w_fs w))
  | Some _ => w_fs w' = w_fs w
  end.
Proof.
  unfold os_Rename. pose proof (w_fs_next_fault w) as H.
  destruct (next_fault w) as [[e|] w1]; cbn [snd] in H.
  - intros E. injection E as <- <- <-. auto.
  - destruct (w_fs w1 !! a) as [c|] eqn:Hc; intros E; injection E as <- <- <-.
    + split; [reflexivity|]. exists c. rewrite <- H. auto.
    + auto.
Qed.

Lemma os_Remove_inv p w r w' ev :
  os_Remove p w = (r, w', ev) ->
  ev = [EvSyscall (SysRemove p) r] /\
  match r with
  | None => w_fs w' = delete p (w_fs w)
  | Some _ => w_fs w' = w_fs w
  end.
Proof.
  unfold os_Remove. pose proof (w_fs_next_fault w) as H.
  destruct (next_fault w) as [[e|] w1]; cbn [snd] in H.
  - intros E. injection E as <- <- <-. auto.
  - destruct (w_fs w1 !! p) as [c|] eqn:Hc; intros E; injection E as <- <- <-.
    + split; [reflexivity|]. cbn. now rewrite H.
    + auto.
Qed.

Lemma string_length_app (a b : string) :
  String.length (a +:+ b) = (String.length a + String.length b)%nat.
Proof.
  induction a as [|c a IH]; [reflexivity|].
  change (S (String.length (a +:+ b)) = S (String.length a + String.length b)).
  now rewrite IH.
Qed.

Lemma backup_ne (originalFile : string) : originalFile +:+ ".backup" <> originalFile.
Proof.
  intros H. apply (f_equal String.length) in H.
  rewrite string_length_app in H. cbn in H. lia.
Qed.

Tactic Notation "os_step" ident(r) ident(w') ident(H) :=
  match goal with
  | |- context [os_Stat ?p ?w] =>
      let E := fresh "E" in
      destruct (os_Stat p w) as [[r w'] ?] eqn:E;
      apply os_Stat_inv in E; destruct E as [-> H]
  | |- context [os_Rename ?a ?b ?w] =>
      let E := fresh "E" in
      destruct (os_Rename a b w) as [[r w'] ?] eqn:E;
      apply os_Rename_inv in E; destruct E as [-> H]
  | |- context [os_Remove ?p ?w] =>
      let E := fresh "E" in
      destruct (os_Remove p w) as [[r w'] ?] eqn:E;
      apply os_Remove_inv in E; destruct E as [-> H]
  end.

Theorem replaceOriginalFile_courses
    (uc : ProcessPDFsUseCase) (originalFile tempFile : string) (w : World) :
  let run := replaceOriginalFile uc originalFile tempFile w in
  let backupFile := originalFile +:+ ".backup" in
  let fs0 := w_fs w in
  let fs1 := w_fs (world_of run) in
  (exists st,
     syscalls (events_of run) = [(SysStat tempFile, st)] /\
     os_IsNotExist st = true /\
     result_of run = Some (ErrNew ("временный файл не существует: " +:+ tempFile)) /\
     fs1 = fs0) \/
  (exists st e1,
     syscalls (events_of run) =
       [(SysStat tempFile, st); (SysRename originalFile backupFile, Some e1)] /\
     result_of run = Some (ErrWrap "ошибка создания резервной копии" e1) /\
     fs1 = fs0) \/
  (exists st e2 rollback,
     syscalls (events_of run) =
       [(SysStat tempFile, st); (SysRename originalFile backupFile, None);
        (SysRename tempFile originalFile, Some e2);
        (SysRename backupFile originalFile, rollback)] /\
     result_of run = Some (ErrWrap "ошибка замены файла" e2) /\
     (rollback = None -> fs1 !! originalFile = fs0 !! originalFile) /\
     (rollback <> None ->
        fs1 !! originalFile = None /\ fs1 !! backupFile = fs0 !! originalFile)) \/
  (exists st cleanup,
     syscalls (events_of run) =
       [(SysStat tempFile, st); (SysRename originalFile backupFile, None);
        (SysRename tempFile originalFile, None); (SysRemove backupFile, cleanup)] /\
     result_of run = None /\
     is_Some (fs1 !! originalFile) /\
     (tempFile <> backupFile -> fs1 !! originalFile = fs0 !! tempFile) /\
     (cleanup = None -> fs1 !! backupFile = None) /\
     (cleanup <> None -> logger uc = true ->
        In (EvLog LWarning "Не удалось удалить резервную копию %s: %v") (events_of run))).
Proof.
  intros run backupFile fs0 fs1. subst run fs1.
  assert (Hbo : backupFile <> originalFile) by apply backup_ne.
  unfold replaceOriginalFile, bind. fold backupFile.
  os_step st w1 Hfs1. cbn [snd].
  destruct (os_IsNotExist (snd st)) eqn:Hne.
  { left. exists (snd st). cbn. repeat split; eauto. }
  right. rewrite logf_eq. os_step r1 w2 H1.
  destruct r1 as [e1|].
  { left. rewrite logf_eq. cbn [ret world_of result_of events_of fst snd].
    exists (snd st), e1. rewrite !syscalls_app, !syscalls_log. cbn.
    repeat split. subst fs0. congruence. }
  right. destruct H1 as (c0 & Hc0 & Hw2). os_step r2 w3 H2.
  assert (Horig : fs0 !! originalFile = Some c0) by (subst fs0; congruence).
  destruct r2 as [e2|].
  - left. rewrite logf_eq. os_step r3 w4 H3.
    cbn [ret world_of result_of events_of fst snd].
    exists (snd st), e2, r3. rewrite !syscalls_app, !syscalls_log. cbn.
    split; [reflexivity|]. split; [reflexivity|].
    assert (Hw3 : w_fs w3 = <[backupFile := c0]> (delete originalFile fs0))
      by (subst fs0; congruence).
    split.
    + intros ->. destruct H3 as (c & Hc & Hw4). rewrite Hw4, lookup_insert.
      rewrite decide_True by reflexivity.
      rewrite Hw3, lookup_insert, decide_True in Hc by reflexivity. congruence.
    + intros Hr. destruct r3 as [e3|]; [|congruence].
      rewrite H3, Hw3. split.
      * rewrite lookup_insert_ne by exact Hbo. apply lookup_delete_eq.
      * rewrite lookup_insert, decide_True by reflexivity. congruence.
  - right. destruct H2 as (ct & Hct & Hw3). os_step r3 w4 H3.
    assert (Horig3 : w_fs w3 !! originalFile = Some ct)
      by (rewrite Hw3, lookup_insert, decide_True; reflexivity).
    assert (Horig4 : w_fs w4 !! originalFile = Some ct).
    { destruct r3; rewrite H3; [exact Horig3|].
      rewrite lookup_delete_ne by exact Hbo. exact Horig3. }
    assert (Htemp : tempFile <> backupFile -> Some ct = fs0 !! tempFile).
    { intros Htb. rewrite <- Hct, Hw2, Hfs1.
      rewrite lookup_insert_ne by congruence.
      destruct (decide (originalFile = tempFile)) as [->|Hot].
      - rewrite Hw2, lookup_insert_ne, lookup_delete_eq in Hct by congruence. discriminate.
      - rewrite lookup_delete_ne by exact Hot. reflexivity. }
    exists (snd st), r3.
    destruct r3 as [e3|]; unfold ret; rewrite !logf_eq;
      cbn [world_of result_of events_of fst snd].
    all: rewrite ?syscalls_app, ?syscalls_log; cbn [syscalls flat_map app].
    all: split; [reflexivity|]; split; [reflexivity|].
    all: split; [rewrite Horig4; eauto|]; split; [rewrite Horig4; exact Htemp|split].
    all: try congruence.
    + intros _ Hlog. rewrite Hlog. cbn. tauto.
    + intros _. rewrite H3. apply lookup_delete_eq.
Qed.

(** ** The replacement protocol, step by step *)

Import Replacement.

Lemma run_reachable uc originalFile tempFile (n : nat) (c : Conf) :
  rtc (step uc originalFile tempFile) c (run uc originalFile tempFile n c).
Proof.
  revert c. induction n as [|n IH]; intros [[pc w] tr]; [apply rtc_refl|].
  cbn [run].
  destruct (stepFrom uc originalFile tempFile pc w) as [[pc' w'] ev] eqn:E.
  assert (Hs : (forall r, pc <> AtReturn r) ->
               rtc (step uc originalFile tempFile) (pc, w, tr)
                 (run uc originalFile tempFile n (pc', w', tr ++ ev))).
  { intros Hpc. eapply rtc_l; [|apply IH]. now constructor. }
  destruct pc; try (apply Hs; intros r; discriminate). apply rtc_refl.
Qed.

(** The machine run from its start computes what [replaceOriginalFile]
    computes, in at most four steps. *)
Lemma machine_agrees uc originalFile tempFile w :
  run uc originalFile tempFile 4 (AtCheckTemp, w, []) =
  (AtReturn (result_of (replaceOriginalFile uc originalFile tempFile w)),
   world_of (replaceOriginalFile uc originalFile tempFile w),
   events_of (replaceOriginalFile uc originalFile tempFile w)).
Proof.
  unfold replaceOriginalFile. cbn [run stepFrom]. unfold bind.
  fold (backupFile originalFile).
  destruct (os_Stat tempFile w) as [[st w1] ev1]. cbn [snd].
  destruct (os_IsNotExist (snd st)); [cbn; now rewrite app_nil_r|].
  rewrite !logf_eq. cbn [ret app]. cbn [run stepFrom]. unfold bind.
  destruct (os_Rename originalFile (backupFile originalFile) w1) as [[[e1|] w2] ev2].
  { rewrite !logf_eq. cbn. now rewrite !app_nil_r, <- !app_assoc. }
  cbn [ret run stepFrom]. unfold bind.
  destruct (os_Rename tempFile originalFile w2) as [[[e2|] w3] ev3].
  - rewrite !logf_eq. cbn [ret run stepFrom]. unfold bind.
    destruct (os_Rename (backupFile originalFile) originalFile w3) as [[r3 w4] ev4].
    cbn. now rewrite !app_nil_r, <- !app_assoc.
  - cbn [ret run stepFrom]. unfold bind.
    destruct (os_Remove (backupFile originalFile) w3) as [[[e3|] w4] ev4];
      unfold ret; rewrite !logf_eq; cbn; now rewrite !app_nil_r, <- !app_assoc.
Qed.

Lemma step_safe uc originalFile tempFile c0 t0 (c c' : Conf) :
  step uc originalFile tempFile c c' ->
  safe originalFile tempFile c0 t0 c -> safe originalFile tempFile c0 t0 c'.
Proof.
  assert (Hbo : backupFile originalFile <> originalFile) by apply backup_ne.
  intros Hstep. destruct Hstep as [pc w tr pc' w' ev Hpc Hstep]. revert Hstep.
  unfold safe. destruct pc; cbn [stepFrom]; unfold bind.
  - os_step st w1 H1. cbn [snd].
    destruct (os_IsNotExist (snd st)).
    + intros E; injection E as <- <- <-. intros [H Ht]. left. congruence.
    + rewrite logf_eq. intros E; injection E as <- <- <-. intros [H Ht].
      split; congruence.
  - os_step r w1 H1. destruct r as [e|].
    + rewrite logf_eq. intros E; injection E as <- <- <-. intros [H Ht]. left. congruence.
    + intros E; injection E as <- <- <-. intros [H Ht].
      destruct H1 as (c & Hc & ->). assert (c = c0) by congruence. subst c.
      split; [|split].
      * rewrite lookup_insert_ne by exact Hbo. apply lookup_delete_eq.
      * rewrite lookup_insert, decide_True; reflexivity.
      * intros Hto. destruct (decide (tempFile = backupFile originalFile)) as [->|Hn].
        -- rewrite lookup_insert, decide_True; reflexivity.
        -- rewrite lookup_insert_ne by congruence.
           rewrite lookup_delete_ne by congruence. exact Ht.
  - os_step r w1 H1. destruct r as [e|].
    + rewrite logf_eq. intros E; injection E as <- <- <-. intros (Ho & Hb & _).
      now rewrite H1.
    + intros E; injection E as <- <- <-. intros (Ho & Hb & Ht).
      destruct H1 as (c & Hc & ->).
      assert (Hne : tempFile <> originalFile) by (intros ->; congruence).
      rewrite (Ht Hne) in Hc.
      rewrite lookup_insert, decide_True by reflexivity.
      split; [eauto | now rewrite Hc].
  - os_step r w1 H1. intros E; injection E as <- <- <-. intros [Ho Hb].
    destruct r as [e|].
    + right. rewrite H1. split; [exact Ho|]. split; [exact Hb|].
      exists e. apply in_or_app. right. now left.
    + left. destruct H1 as (c & Hc & ->). assert (c = c0) by congruence. subst c.
      rewrite lookup_insert, decide_True; reflexivity.
  - os_step r w1 H1.
    destruct r as [e|]; unfold ret; rewrite !logf_eq;
      intros E; injection E as <- <- <-; intros H; rewrite H1; [exact H|].
    rewrite lookup_delete_ne by exact Hbo. exact H.
  - exfalso. eapply Hpc. reflexivity.
Qed.

(** C4, as stated, fails: after step 1 the original path does not
    resolve, and when step 2 and then the rollback both fail the protocol
    returns leaving it missing. *)
Lemma replacement_leaves_original_path_missing :
  let uc := exampleUseCase (fixedCompressor 4) [] in
  let files := [("a.pdf", "original"); ("a.pdf.tmp", "new")]%string in
  (exists c,
     reachable uc "a.pdf" "a.pdf.tmp" (worldOf files []) c /\
     fst (fst c) = AtSwap /\
     w_fs (snd (fst c)) !! "a.pdf" = None) /\
  (exists r w tr,
     reachable uc "a.pdf" "a.pdf.tmp"
       (worldOf files [None; None; Some (ErrNew "EACCES"); Some (ErrNew "EACCES")])
       (AtReturn r, w, tr) /\
     w_fs w !! "a.pdf" = None).
Proof.
  intros uc files. split.
  - exists (run uc "a.pdf" "a.pdf.tmp" 2 (AtCheckTemp, worldOf files [], [])).
    split; [apply run_reachable|]. split; vm_compute; reflexivity.
  - pose (c := run uc "a.pdf" "a.pdf.tmp" 4
                 (AtCheckTemp,
                  worldOf files [None; None; Some (ErrNew "EACCES"); Some (ErrNew "EACCES")],
                  [])).
    exists (match fst (fst c) with AtReturn r => r | _ => None end),
           (snd (fst c)), (snd c).
    split.
    + replace (AtReturn (match fst (fst c) with AtReturn r => r | _ => None end),
               snd (fst c), snd c) with c by (vm_compute; reflexivity).
      apply run_reachable.
    + vm_compute. reflexivity.
Qed.

(** C4, amended. In every execution of the replacement protocol on an
    existing original, the original content is never lost and the
    original path is missing only in bounded places. Before step 1 the
    original path holds the original content. Between step 1 and step 2,
    and while a rollback is pending, the original path does not resolve
    and the backup path holds the original content. From the success of
    step 2 on, the original path resolves: to the content the temporary
    path held when the protocol started or, when the temporary path is
    the backup path itself, which step 1 overwrites, to the original
    content again. The protocol always returns, after at most four
    system calls; when it returns nil the original path resolves in
    that way, and when it returns an error the original path holds the
    original content again, unless the rollback rename itself failed,
    in which case the original path is missing and the backup path
    still holds the original content. *)
Theorem replacement_keeps_original_content
    (uc : ProcessPDFsUseCase) (originalFile tempFile : string) (w0 : World) (c0 : string) :
  w_fs w0 !! originalFile = Some c0 ->
  (forall c, reachable uc originalFile tempFile w0 c ->
             safe originalFile tempFile c0 (w_fs w0 !! tempFile) c) /\
  (let f := replaceOriginalFile uc originalFile tempFile w0 in
   reachable uc originalFile tempFile w0 (AtReturn (result_of f), world_of f, events_of f) /\
   run uc originalFile tempFile 4 (AtCheckTemp, w0, []) =
     (AtReturn (result_of f), world_of f, events_of f)) /\
  (let f := replaceOriginalFile uc originalFile tempFile w0 in
   result_of f = None ->
   is_Some (w_fs (world_of f) !! originalFile) /\
   w_fs (world_of f) !! originalFile =
     if decide (tempFile = backupFile originalFile) then Some c0
     else w_fs w0 !! tempFile).
Proof.
  intros H0.
  assert (Hsafe : forall c, reachable uc originalFile tempFile w0 c ->
                            safe originalFile tempFile c0 (w_fs w0 !! tempFile) c).
  { unfold reachable.
    apply (rtc_ind_r (safe originalFile tempFile c0 (w_fs w0 !! tempFile))
             (AtCheckTemp, w0, [])); [split; [exact H0 | reflexivity]|].
    intros y z _ Hstep Hy. eapply step_safe; eauto. }
  assert (Hreach : reachable uc originalFile tempFile w0
                     (AtReturn (result_of (replaceOriginalFile uc originalFile tempFile w0)),
                      world_of (replaceOriginalFile uc originalFile tempFile w0),
                      events_of (replaceOriginalFile uc originalFile tempFile w0))).
  { rewrite <- machine_agrees. apply run_reachable. }
  split; [exact Hsafe|]. split.
  - cbn zeta. split; [exact Hreach | apply machine_agrees].
  - cbn zeta. intros Hr. pose proof (Hsafe _ Hreach) as Hs.
    rewrite Hr in Hs. exact Hs.
Qed.

Lemma replacement_keeps_original_content_witness :
  let uc := exampleUseCase (fixedCompressor 4) [] in
  let w0 := worldOf [("a.pdf", "original"); ("a.pdf.tmp", "new")]%string
              [None; None; Some (ErrNew "EACCES")] in
  let f := replaceOriginalFile uc "a.pdf" "a.pdf.tmp" w0 in
  w_fs w0 !! "a.pdf" = Some "original" /\
  safe "a.pdf" "a.pdf.tmp" "original" (Some "new")
    (AtReturn (result_of f), world_of f, events_of f) /\
  w_fs (world_of f) !! "a.pdf" = Some "original".
Proof.
  intros uc w0 f.
  assert (H0 : w_fs w0 !! "a.pdf" = Some "original") by (vm_compute; reflexivity).
  destruct (replacement_keeps_original_content uc "a.pdf" "a.pdf.tmp" w0 "original" H0)
    as [Hsafe [[Hreach _] _]].
  split; [exact H0|]. split; [apply (Hsafe _ Hreach)|].
  vm_compute. reflexivity.
Defined.

(** When the temporary path is the backup path itself, step 1 puts the
    original content over the new one and step 2 brings it back: the
    replacement returns nil and nothing has been replaced. *)
Lemma replacement_from_the_backup_path :
  let uc := exampleUseCase (fixedCompressor 4) [] in
  let w0 := worldOf [("a.pdf", "original"); ("a.pdf.backup", "new")]%string [] in
  let f := replaceOriginalFile uc "a.pdf" "a.pdf.backup" w0 in
  result_of f = None /\ w_fs (world_of f) !! "a.pdf" = Some "original".
Proof. vm_compute. split; reflexivity. Qed.

(** ** The file inventory *)

Import Inventory.

Lemma Node_induction (P : Node -> Prop) :
  (forall name, P (NFile name)) ->
  (forall name readErr entries, Forall P entries -> P (NDir name readErr entries)) ->
  forall d, P d.
Proof.
  intros Hf Hd. fix IH 1. intros [name|name readErr entries]; [apply Hf|].
  apply Hd. induction entries as [|d ds IHds]; constructor; [apply IH|exact IHds].
Qed.

Lemma visit_never_fails path a acc : fst (visit path a acc) = None.
Proof.
  unfold visit. destruct a as [d|d e]; [|reflexivity].
  destruct (IsDir d); [reflexivity|]. destruct (isPDF (Name d)); reflexivity.
Qed.

Lemma walkDir_visit join (d : Node) :
  forall path acc,
    walkDir join visit path d acc = (None, acc ++ pdfPaths join path d).
Proof.
  induction d as [name|name readErr entries IH] using Node_induction; intros path acc.
  - cbn. destruct (isPDF name); [reflexivity|]. now rewrite app_nil_r.
  - cbn [walkDir visit IsDir pdfPaths].
    assert (Hwalk : forall acc,
      (fix walkEntries (ds : list Node) (s : list string) : option error * list string :=
         match ds with
         | [] => (None, s)
         | d1 :: rest =>
             let '(err, s0) := walkDir join visit (join path (Name d1)) d1 s in
             match err with
             | Some e => if error_eqb e SkipDir then (None, s0) else (Some e, s0)
             | None => walkEntries rest s0
             end
         end) entries acc =
      (None, acc ++
         (fix each (ds : list Node) : list string :=
            match ds with
            | [] => []
            | d1 :: rest => pdfPaths join (join path (Name d1)) d1 ++ each rest
            end) entries)).
    { induction IH as [|d ds Hd Hds IHds]; intros acc0.
      - now rewrite app_nil_r.
      - rewrite Hd, IHds, app_assoc. reflexivity. }
    destruct readErr; cbn; apply Hwalk.
Qed.

Lemma WalkDir_visit join root directory :
  WalkDir join visit root directory [] = (None, allPDFs join root directory).
Proof.
  unfold WalkDir, allPDFs. destruct root as [e|d]; [reflexivity|].
  now rewrite walkDir_visit.
Qed.

(** *** The byte-wise order on strings *)

Lemma ascii_compare_refl (a : ascii) : Ascii.compare a a = Eq.
Proof. unfold Ascii.compare. apply N.compare_refl. Qed.

Lemma string_compare_eq (s t : string) : String.compare s t = Eq -> s = t.
Proof. apply String.compare_eq_iff. Qed.

Lemma string_compare_trans (s : string) :
  forall t u c,
    String.compare s t = c -> String.compare t u = c -> c <> Eq ->
    String.compare s u = c.
Proof.
  induction s as [|a s IH]; intros [|b t] [|d u] c; cbn; try congruence.
  unfold Ascii.compare.
  destruct (N.compare_spec (N_of_ascii a) (N_of_ascii b)) as [Hab|Hab|Hab];
    destruct (N.compare_spec (N_of_ascii b) (N_of_ascii d)) as [Hbd|Hbd|Hbd];
    intros H1 H2 Hc; try congruence.
  - rewrite Hab, Hbd, N.compare_refl. eapply IH; eauto.
  - rewrite Hab. apply N.compare_lt_iff in Hbd. now rewrite Hbd.
  - rewrite Hab. apply N.compare_gt_iff in Hbd. now rewrite Hbd.
  - rewrite <- Hbd. apply N.compare_lt_iff in Hab. now rewrite Hab.
  - assert (H : (N_of_ascii a < N_of_ascii d)%N) by lia.
    apply N.compare_lt_iff in H. now rewrite H.
  - rewrite <- Hbd. apply N.compare_gt_iff in Hab. now rewrite Hab.
  - assert (H : (N_of_ascii d < N_of_ascii a)%N) by lia.
    apply N.compare_gt_iff in H. now rewrite H.
Qed.

Lemma string_compare_refl (s : string) : String.compare s s = Eq.
Proof.
  induction s as [|a s IH]; [reflexivity|]. cbn. now rewrite ascii_compare_refl.
Qed.

Lemma string_le_refl (s : string) : string_le s s.
Proof. unfold string_le, String.leb. now rewrite string_compare_refl. Qed.

Lemma string_le_trans (s t u : string) : string_le s t -> string_le t u -> string_le s u.
Proof.
  unfold string_le, String.leb.
  destruct (String.compare s t) eqn:Hst; [|
    destruct (String.compare t u) eqn:Htu |]; try discriminate.
  - apply string_compare_eq in Hst. now subst.
  - apply string_compare_eq in Htu. subst. now rewrite Hst.
  - rewrite (string_compare_trans s t u Lt Hst Htu); [reflexivity|discriminate].
Qed.

Lemma string_le_total (s t : string) : string_le s t \/ string_le t s.
Proof. apply String.leb_total. Qed.

(** *** [sort.Strings] *)

Lemma insertString_perm (x : string) (l : list string) :
  Permutation (insertString x l) (x :: l).
Proof.
  induction l as [|y l IH]; cbn; [reflexivity|].
  destruct (String.leb x y); [reflexivity|].
  rewrite IH. apply perm_swap.
Qed.

Lemma sort_Strings_perm (l : list string) : Permutation (sort_Strings l) l.
Proof.
  induction l as [|x l IH]; cbn; [reflexivity|].
  rewrite insertString_perm. now constructor.
Qed.

Lemma insertString_sorted (x : string) (l : list string) :
  StronglySorted string_le l -> StronglySorted string_le (insertString x l).
Proof.
  induction 1 as [|y l Hs IH Hy]; cbn.
  - repeat constructor.
  - destruct (String.leb x y) eqn:Hxy.
    + constructor; [now constructor|]. constructor; [exact Hxy|].
      eapply List.Forall_impl; [|exact Hy]. intros z Hz. eapply string_le_trans; eauto.
    + constructor; [exact IH|].
      assert (Hyx : string_le y x).
      { destruct (string_le_total x y) as [H|H]; [unfold string_le in H; congruence|exact H]. }
      apply List.Forall_forall. intros z Hz.
      apply (Permutation_in _ (insertString_perm x l)) in Hz.
      destruct Hz as [<-|Hz]; [exact Hyx|].
      rewrite List.Forall_forall in Hy. now apply Hy.
Qed.

Lemma sort_Strings_sorted (l : list string) : StronglySorted string_le (sort_Strings l).
Proof.
  induction l as [|x l IH]; cbn; [constructor|]. now apply insertString_sorted.
Qed.

(** C9. For every directory tree and whatever fails while it is walked
    (the root that cannot be examined, directories that cannot be read or
    are read in part), [ListPDFFiles] returns no error and the paths of
    all files with extension .pdf (in any letter case) found in the root
    and in all its subdirectories, each once, in ascending byte-wise
    order; with no such file the result is the empty list, not an
    error. *)
Theorem ListPDFFiles_inventory
    (join : string -> string -> string) (root : Root) (directory : string) :
  let result := ListPDFFiles join root directory in
  snd result = None /\
  StronglySorted string_le (fst result) /\
  Permutation (fst result) (allPDFs join root directory) /\
  (allPDFs join root directory = [] -> fst result = []) /\
  (forall e, root = RootError e -> result = ([], None)).
Proof.
  intros result. subst result. unfold ListPDFFiles.
  rewrite WalkDir_visit. cbn [fst snd].
  split; [reflexivity|]. split; [apply sort_Strings_sorted|].
  split; [apply sort_Strings_perm|]. split.
  - intros ->. reflexivity.
  - intros e ->. reflexivity.
Qed.

Lemma ListPDFFiles_inventory_example :
  ListPDFFiles slashJoin exampleTree "pdfs" = (["pdfs/b.PDF"; "pdfs/sub/a.pdf"]%string, None).
Proof. vm_compute. reflexivity. Qed.

(** ** C8: the derived fields of a result *)

(** C8, as stated, fails in two places. With [OriginalSize <= 0] the
    derived fields are not set to zero but left as they are, whatever
    they hold (a compressor fills them before the worker overwrites
    [OriginalSize]). And the ratio is computed from the two sizes
    converted to [float64] one by one, not from [SavedSpace]: beyond 2^53
    bytes the two differ. *)
Lemma CalculateCompressionRatio_not_as_stated :
  (let cr := {| CompressionResult.CurrentFile := "a.pdf";
                CompressionResult.OriginalSize := 0;
                CompressionResult.CompressedSize := 500;
                CompressionResult.CompressionRatio := f64_of_int 50;
                CompressionResult.SavedSpace := 500;
                CompressionResult.Success := true;
                CompressionResult.Error := None |} in
   let r := CompressionResult.CalculateCompressionRatio cr in
   CompressionResult.SavedSpace r = 500 /\ CompressionResult.SavedSpace r <> 0 /\
   CompressionResult.CompressionRatio r = f64_of_int 50 /\
   CompressionResult.CompressionRatio r <> f64_zero) /\
  (let cr := {| CompressionResult.CurrentFile := "b.pdf";
                CompressionResult.OriginalSize := 2 ^ 53 + 1;
                CompressionResult.CompressedSize := 1;
                CompressionResult.CompressionRatio := f64_zero;
                CompressionResult.SavedSpace := 0;
                CompressionResult.Success := true;
                CompressionResult.Error := None |} in
   let r := CompressionResult.CalculateCompressionRatio cr in
   CompressionResult.SavedSpace r = 2 ^ 53 /\
   CompressionResult.CompressionRatio r <>
     f64_mul (f64_div (f64_of_int (CompressionResult.SavedSpace r))
                      (f64_of_int (CompressionResult.OriginalSize r)))
             (f64_of_int 100)).
Proof.
  split; vm_compute; repeat split; try reflexivity; discriminate.
Qed.

(** C8, amended. For a result with [OriginalSize > 0],
    [CalculateCompressionRatio] sets [SavedSpace] to [OriginalSize -
    CompressedSize] in [int64] arithmetic, so that [CompressedSize =
    OriginalSize - SavedSpace], and sets the ratio to
    [((float64(OriginalSize) - float64(CompressedSize)) /
    float64(OriginalSize)) * 100]; nothing is clamped, and a larger
    output gives a negative [SavedSpace]. For sizes up to 2^53 bytes the
    ratio is exactly [float64(SavedSpace) / float64(OriginalSize) * 100].
    With [OriginalSize <= 0] the result is left as it is: the ratio and
    [SavedSpace] keep their values, zero if they were zero. *)
Theorem CalculateCompressionRatio_derived (cr : CompressionResult.t) :
  let r := CompressionResult.CalculateCompressionRatio cr in
  let original := CompressionResult.OriginalSize cr in
  let compressed := CompressionResult.CompressedSize cr in
  (0 < original ->
     CompressionResult.OriginalSize r = original /\
     CompressionResult.CompressedSize r = compressed /\
     CompressionResult.SavedSpace r = int64_sub original compressed /\
     CompressionResult.CompressionRatio r = CompressionResult.ratio_of original compressed /\
     (in_int64 compressed ->
        compressed = int64_sub original (CompressionResult.SavedSpace r)) /\
     (original < 2 ^ 63 -> 0 <= compressed < 2 ^ 63 ->
        CompressionResult.SavedSpace r = original - compressed /\
        (original < compressed -> CompressionResult.SavedSpace r < 0)) /\
     (original <= 2 ^ 53 -> 0 <= compressed <= 2 ^ 53 ->
        CompressionResult.CompressionRatio r =
          f64_mul (f64_div (f64_of_int (CompressionResult.SavedSpace r))
                           (f64_of_int original))
                  (f64_of_int 100))) /\
  (original <= 0 ->
     r = cr /\
     (CompressionResult.SavedSpace cr = 0 -> CompressionResult.SavedSpace r = 0) /\
     (CompressionResult.CompressionRatio cr = f64_zero ->
        CompressionResult.CompressionRatio r = f64_zero)).
Proof.
  intros r original compressed. subst r.
  unfold CompressionResult.CalculateCompressionRatio. fold original compressed.
  split; intros Ho.
  - apply Z.ltb_lt in Ho as Hb. rewrite Hb. cbn.
    assert (Hexact : original < 2 ^ 63 -> 0 <= compressed < 2 ^ 63 ->
                     int64_sub original compressed = original - compressed).
    { intros H1 H2. apply int64_sub_exact. unfold in_int64. lia. }
    do 4 (split; [reflexivity|]). split; [|split].
    + intros Hc. symmetry. now apply int64_sub_sub.
    + intros H1 H2. rewrite Hexact by lia. split; [reflexivity|lia].
    + intros H1 H2. rewrite Hexact by lia.
      unfold CompressionResult.ratio_of. rewrite f64_sub_of_int by lia. reflexivity.
  - apply Z.ltb_ge in Ho. rewrite Ho. auto.
Qed.

(** The table of the repository's test of [CalculateCompressionRatio]:
    1000 to 500, 750, 1000 and 1100 bytes. *)
Lemma CalculateCompressionRatio_derived_witness :
  let mk c := CompressionResult.CalculateCompressionRatio
                {| CompressionResult.CurrentFile := "";
                   CompressionResult.OriginalSize := 1000;
                   CompressionResult.CompressedSize := c;
                   CompressionResult.CompressionRatio := f64_zero;
                   CompressionResult.SavedSpace := 0;
                   CompressionResult.Success := false;
                   CompressionResult.Error := None |} in
  (0 < 1000 /\ 1000 <= 2 ^ 53 /\ 0 <= 1100 <= 2 ^ 53) /\
  CompressionResult.SavedSpace (mk 1100) = -100 /\
  CompressionResult.CompressionRatio (mk 1100) =
    f64_mul (f64_div (f64_of_int (-100)) (f64_of_int 1000)) (f64_of_int 100) /\
  CompressionResult.CompressionRatio (mk 1100) = f64_of_int (-10) /\
  f64_is_neg (CompressionResult.CompressionRatio (mk 1100)) = true /\
  CompressionResult.CompressionRatio (mk 500) = f64_of_int 50 /\
  CompressionResult.CompressionRatio (mk 750) = f64_of_int 25 /\
  CompressionResult.CompressionRatio (mk 1000) = f64_zero.
Proof.
  intros mk.
  assert (H0 : 0 < 1000) by reflexivity.
  assert (H1 : 1000 <= 2 ^ 53) by discriminate.
  assert (H2 : 0 <= 1100 <= 2 ^ 53) by (split; discriminate).
  split; [exact (conj H0 (conj H1 H2))|].
  destruct (CalculateCompressionRatio_derived
              {| CompressionResult.CurrentFile := "";
                 CompressionResult.OriginalSize := 1000;
                 CompressionResult.CompressedSize := 1100;
                 CompressionResult.CompressionRatio := f64_zero;
                 CompressionResult.SavedSpace := 0;
                 CompressionResult.Success := false;
                 CompressionResult.Error := None |}) as [Hpos _].
  destruct (Hpos H0) as (_ & _ & Hs & _ & _ & _ & Hr).
  split; [exact Hs|]. split; [exact (Hr H1 H2)|].
  vm_compute. repeat split; reflexivity.
Defined.

(** * Further properties *)

(** ** Compression settings *)

Lemma NewCompressionConfigWithLicense_tiers (level : Z) (licenseKey : string) :
  let l := Z.max 10 (Z.min 90 level) in
  CompressionConfig.NewCompressionConfigWithLicense level licenseKey =
  {| CompressionConfig.Level := l;
     CompressionConfig.ImageQuality :=
       if l <=? 20 then 90 else if l <=? 40 then 75 else if l <=? 60 then 60
       else if l <=? 80 then 40 else 25;
     CompressionConfig.ImageCompression := true;
     CompressionConfig.RemoveDuplicates := true;
     CompressionConfig.CompressStreams := true;
     CompressionConfig.RemoveMetadata := negb (l <=? 20);
     CompressionConfig.RemoveAnnotations := negb (l <=? 40);
     CompressionConfig.RemoveAttachments := negb (l <=? 60);
     CompressionConfig.OptimizeForWeb := true;
     CompressionConfig.UniPDFLicenseKey := licenseKey |}.
Proof.
  intros l. unfold CompressionConfig.NewCompressionConfigWithLicense. cbv zeta.
  set (c := if level <? 10 then 10 else level).
  set (c2 := if 90 <? c then 90 else c).
  assert (E : c2 = l).
  { subst c2 c l. destruct (Z.ltb_spec level 10); destruct (Z.ltb_spec 90 level);
      repeat match goal with
             | |- context [?a <? ?b] => destruct (Z.ltb_spec a b)
             end; lia. }
  clearbody c2. subst c2.
  destruct (Z.leb_spec l 20), (Z.leb_spec l 40), (Z.leb_spec l 60), (Z.leb_spec l 80);
    try lia; reflexivity.
Qed.

(** X1. Whatever level it is given, [NewCompressionConfigWithLicense]
    builds a configuration that [Validate] accepts: the level is clamped
    to 10..90, the image quality is one of the five tier values, the
    licence key is kept, and building again from the clamped level gives
    the same configuration. *)
Theorem NewCompressionConfigWithLicense_is_valid (level : Z) (licenseKey : string) :
  let c := CompressionConfig.NewCompressionConfigWithLicense level licenseKey in
  CompressionConfig.Validate c = None /\
  CompressionConfig.Level c = Z.max 10 (Z.min 90 level) /\
  In (CompressionConfig.ImageQuality c) [90; 75; 60; 40; 25] /\
  CompressionConfig.UniPDFLicenseKey c = licenseKey /\
  CompressionConfig.NewCompressionConfigWithLicense (CompressionConfig.Level c) licenseKey = c.
Proof.
  intros c. subst c.
  rewrite (NewCompressionConfigWithLicense_tiers (CompressionConfig.Level _)).
  rewrite !NewCompressionConfigWithLicense_tiers.
  cbn [CompressionConfig.Level CompressionConfig.ImageQuality
       CompressionConfig.UniPDFLicenseKey].
  set (l := Z.max 10 (Z.min 90 level)).
  assert (Hl : 10 <= l <= 90) by (subst l; lia).
  replace (Z.max 10 (Z.min 90 l)) with l by lia.
  unfold CompressionConfig.Validate.
  cbn [CompressionConfig.Level CompressionConfig.ImageQuality].
  destruct (Z.ltb_spec l 10); [lia|]. destruct (Z.ltb_spec 90 l); [lia|].
  destruct (Z.leb_spec l 20), (Z.leb_spec l 40), (Z.leb_spec l 60), (Z.leb_spec l 80);
    cbn; intuition (auto; lia).
Qed.

(** X2. A higher level never asks for less: the clamped level does not
    decrease, the image quality does not increase, and metadata,
    annotations and attachments, once removed at a level, are removed at
    every higher one; attachments are removed only where annotations
    are, and annotations only where metadata is. *)
Theorem NewCompressionConfig_levels_are_monotone (l1 l2 : Z) :
  l1 <= l2 ->
  let c1 := CompressionConfig.NewCompressionConfig l1 in
  let c2 := CompressionConfig.NewCompressionConfig l2 in
  CompressionConfig.Level c1 <= CompressionConfig.Level c2 /\
  CompressionConfig.ImageQuality c2 <= CompressionConfig.ImageQuality c1 /\
  (CompressionConfig.RemoveMetadata c1 = true -> CompressionConfig.RemoveMetadata c2 = true) /\
  (CompressionConfig.RemoveAnnotations c1 = true ->
   CompressionConfig.RemoveAnnotations c2 = true) /\
  (CompressionConfig.RemoveAttachments c1 = true ->
   CompressionConfig.RemoveAttachments c2 = true) /\
  (CompressionConfig.RemoveAttachments c1 = true ->
   CompressionConfig.RemoveAnnotations c1 = true) /\
  (CompressionConfig.RemoveAnnotations c1 = true ->
   CompressionConfig.RemoveMetadata c1 = true).
Proof.
  intros H c1 c2. subst c1 c2. unfold CompressionConfig.NewCompressionConfig.
  rewrite !NewCompressionConfigWithLicense_tiers.
  cbn [CompressionConfig.Level CompressionConfig.ImageQuality
       CompressionConfig.RemoveMetadata CompressionConfig.RemoveAnnotations
       CompressionConfig.RemoveAttachments].
  set (a := Z.max 10 (Z.min 90 l1)). set (b := Z.max 10 (Z.min 90 l2)).
  assert (Hab : a <= b) by (subst a b; lia). clearbody a b.
  destruct (Z.leb_spec a 20), (Z.leb_spec a 40), (Z.leb_spec a 60), (Z.leb_spec a 80);
    try lia;
    destruct (Z.leb_spec b 20), (Z.leb_spec b 40), (Z.leb_spec b 60), (Z.leb_spec b 80);
    try lia; cbn; repeat split; auto; try lia; discriminate.
Qed.

Lemma NewCompressionConfig_levels_are_monotone_witness :
  15 <= 70 /\
  CompressionConfig.ImageQuality (CompressionConfig.NewCompressionConfig 70) <=
  CompressionConfig.ImageQuality (CompressionConfig.NewCompressionConfig 15).
Proof.
  assert (H : 15 <= 70) by lia. split; [exact H|].
  exact (proj1 (proj2 (NewCompressionConfig_levels_are_monotone 15 70 H))).
Defined.

Lemma badQuality_false (q : Z) :
  AppCompressionConfig.badQuality q = false <-> In q [10; 15; 20; 25; 30; 35; 40; 45; 50].
Proof.
  unfold AppCompressionConfig.badQuality. split.
  - intros H. apply orb_false_elim in H as [H H3]. apply orb_false_elim in H as [H1 H2].
    apply Z.ltb_ge in H1. apply Z.ltb_ge in H2.
    apply negb_false_iff, Z.eqb_eq in H3.
    assert (E : q = 5 * Z.quot q 5) by (rewrite (Z.quot_rem' q 5) at 1; lia).
    assert (2 <= Z.quot q 5 <= 10) by lia.
    cbn. lia.
  - cbn. intros [<-|[<-|[<-|[<-|[<-|[<-|[<-|[<-|[<-|[]]]]]]]]]]; reflexivity.
Qed.

(** X3. [AppCompressionConfig.Validate] accepts exactly the
    configurations whose level is in 10..90 and whose JPEG and PNG
    qualities, for the formats that are enabled, are multiples of 5
    from 10 to 50; the level is checked first, and the only errors are
    the three of the package. *)
Theorem AppCompressionConfig_Validate_accepts (c : AppCompressionConfig.t) :
  (AppCompressionConfig.Validate c = None <->
     10 <= AppCompressionConfig.Level c <= 90 /\
     (AppCompressionConfig.EnableJPEG c = true ->
        In (AppCompressionConfig.JPEGQuality c) [10; 15; 20; 25; 30; 35; 40; 45; 50]) /\
     (AppCompressionConfig.EnablePNG c = true ->
        In (AppCompressionConfig.PNGQuality c) [10; 15; 20; 25; 30; 35; 40; 45; 50])) /\
  (AppCompressionConfig.Validate c = Some ErrInvalidCompressionLevel <->
     ~ 10 <= AppCompressionConfig.Level c <= 90) /\
  (forall e, AppCompressionConfig.Validate c = Some e ->
     e = ErrInvalidCompressionLevel \/ e = ErrInvalidJPEGQuality \/ e = ErrInvalidPNGQuality).
Proof.
  unfold AppCompressionConfig.Validate.
  pose proof (badQuality_false (AppCompressionConfig.JPEGQuality c)) as HJ.
  pose proof (badQuality_false (AppCompressionConfig.PNGQuality c)) as HP.
  destruct (Z.ltb_spec (AppCompressionConfig.Level c) 10) as [Hlo|Hlo];
    [| destruct (Z.ltb_spec 90 (AppCompressionConfig.Level c)) as [Hhi|Hhi]]; cbn [orb].
  - split; [split; [discriminate | lia] |].
    split; [split; [lia | reflexivity] |]. intros e [= <-]; auto.
  - split; [split; [discriminate | lia] |].
    split; [split; [lia | reflexivity] |]. intros e [= <-]; auto.
  - destruct (AppCompressionConfig.EnableJPEG c);
      destruct (AppCompressionConfig.badQuality (AppCompressionConfig.JPEGQuality c));
      cbn [andb].
    all: try (split; [split; [discriminate | intros (_ & A & _); specialize (A eq_refl);
                                apply HJ in A; discriminate] |];
              split; [split; [discriminate | lia] |]; intros e [= <-]; auto).
    all: destruct (AppCompressionConfig.EnablePNG c);
      destruct (AppCompressionConfig.badQuality (AppCompressionConfig.PNGQuality c));
      cbn [andb].
    all: try (split; [split; [discriminate | intros (_ & _ & B); specialize (B eq_refl);
                                apply HP in B; discriminate] |];
              split; [split; [discriminate | lia] |]; intros e [= <-]; auto).
    all: split; [split; [intros _ | reflexivity] |];
      [ split; [lia|]; split; intros E; try discriminate E;
        try (apply HJ; reflexivity); try (apply HP; reflexivity)
      | split; [split; [discriminate | lia] | discriminate] ].
Qed.

(** ** Events of the worker and of the aggregator *)

Lemma forallb_step_log (b : bool) l f :
  forallb (stepEvent b) (if b then [EvLog l f] else []) = true.
Proof. now destruct b. Qed.

Ltac step_events :=
  repeat (rewrite ?forallb_app, ?forallb_step_log; cbn [forallb andb stepEvent]).

Lemma stepEvent_quiet (lg : bool) (evs : list Event) :
  forallb (stepEvent lg) evs = true ->
  forallb (workerEvent lg) evs = true /\ published evs = [].
Proof.
  induction evs as [|e evs IH]; cbn [forallb]; intros H; [split; reflexivity|].
  apply andb_prop in H as [He H]. destruct (IH H) as [Hw Hp]. rewrite Hw.
  destruct e; cbn in *; try discriminate; rewrite ?He; auto.
Qed.

Lemma replaceOriginalFile_step_events uc originalFile tempFile w :
  forallb (stepEvent (logger uc))
    (events_of (replaceOriginalFile uc originalFile tempFile w)) = true.
Proof.
  unfold replaceOriginalFile. run_simpl.
  repeat (run_case; run_simpl); step_events; reflexivity.
Qed.

Lemma resolveOutput_step_events fp uc config inputFile w :
  forallb (stepEvent (logger uc)) (events_of (resolveOutput fp config inputFile w)) = true.
Proof.
  unfold resolveOutput.
  destruct (ReplaceOriginal config); [reflexivity|].
  destruct (filepath_Rel fp (SourceDirectory config) inputFile) as [rel [e|]]; [reflexivity|].
  run_simpl. repeat (run_case; run_simpl); reflexivity.
Qed.

Lemma retryFrom_step_events uc config cc inputFile outputFile (remaining : nat) :
  forall attempt last w,
    forallb (stepEvent (logger uc))
      (events_of (retryFrom uc config cc inputFile outputFile remaining attempt last w)) = true.
Proof.
  induction remaining as [|k IH]; intros attempt last w; [reflexivity|].
  cbn [retryFrom]. run_simpl.
  destruct (snd (fst (Compress (compressor uc) inputFile outputFile cc w))); run_simpl;
    [|reflexivity].
  destruct (attempt <? int64_sub (RetryAttempts config) 1); run_simpl; step_events;
    apply IH.
Qed.

Lemma forallb_worker_log (b : bool) l f :
  forallb (workerEvent b) (if b then [EvLog l f] else []) = true.
Proof. now destruct b. Qed.

Ltac worker_events :=
  repeat (rewrite ?forallb_app, ?forallb_worker_log; cbn [forallb andb workerEvent]).

(** A job that ends publishes its result, once and last, under the name
    of its input file. *)
Lemma finishJob_publishes uc config inputFile outputFile size result w :
  let run := finishJob uc config inputFile outputFile size result w in
  exists steps r,
    events_of run = steps ++ [EvPublish r] /\
    result_of run = Done r /\
    forallb (stepEvent (logger uc)) steps = true /\
    CompressionResult.CurrentFile r = inputFile.
Proof.
  intros run. subst run. unfold finishJob, publish.
  destruct (ReplaceOriginal config).
  - run_simpl. pose proof (replaceOriginalFile_step_events uc inputFile outputFile w) as Hs.
    destruct (result_of (replaceOriginalFile uc inputFile outputFile w)) as [e|]; run_simpl.
    + eexists; eexists. split; [rewrite !app_assoc, app_nil_r; reflexivity|].
      split; [reflexivity|].
      split; [step_events; rewrite Hs; reflexivity|].
      unfold CompressionResult.CalculateCompressionRatio. cbn.
      destruct (0 <? size); reflexivity.
    + eexists; eexists. split; [rewrite !app_assoc, app_nil_r; reflexivity|].
      split; [reflexivity|].
      split; [step_events; rewrite Hs; reflexivity|]. reflexivity.
  - exists [], (CompressionResult.CalculateCompressionRatio
                  (CompressionResult.set_OriginalSize size
                     (CompressionResult.set_CurrentFile inputFile result))).
    repeat split.
    unfold CompressionResult.CalculateCompressionRatio. cbn. destruct (0 <? size); reflexivity.
Qed.

Lemma processJob_publishes fp uc config cc inputFile w :
  let run := processJob fp uc config cc inputFile w in
  exists steps,
    forallb (stepEvent (logger uc)) steps = true /\
    match result_of run with
    | Done r =>
        events_of run = steps ++ [EvPublish r] /\
        CompressionResult.CurrentFile r = inputFile
    | Panic => events_of run = steps
    end.
Proof.
  intros run. subst run. unfold processJob, compressWithRetry, publish. run_simpl.
  pose proof (resolveOutput_step_events fp uc config inputFile w) as Hres.
  destruct (result_of (resolveOutput fp config inputFile w)) as [outputFile|e]; run_simpl.
  2: { eexists. split; [|split; [rewrite app_nil_r; reflexivity | reflexivity]]. exact Hres. }
  match goal with |- context [GetFileInfo ?r ?p ?w1] =>
    destruct (GetFileInfo r p w1) as [[info [e|]] w2] end; cbn [fst snd]; run_simpl.
  { eexists. split; [|split; [rewrite app_nil_r; reflexivity | reflexivity]]. exact Hres. }
  cbn [app].
  match goal with |- context [retryFrom ?a1 ?a2 ?a3 ?a4 ?a5 ?a6 ?a7 ?a8 ?a9] =>
    pose proof (retryFrom_step_events a1 a2 a3 a4 a5 a6 a7 a8 a9) as Hretry;
    set (retry := retryFrom a1 a2 a3 a4 a5 a6 a7 a8 a9) in * end.
  destruct info as [info|].
  2: { exists (events_of (resolveOutput fp config inputFile w) ++ events_of retry).
       run_simpl. rewrite forallb_app, Hres, Hretry, !app_nil_r. split; reflexivity. }
  destruct (result_of retry) as [[r|] [e|]]; cbn [fst snd]; run_simpl.
  - eexists. split; [|split; [rewrite app_nil_r, app_assoc; reflexivity | reflexivity]].
    now rewrite forallb_app, Hres, Hretry.
  - destruct (finishJob_publishes uc config inputFile outputFile (PDFDocument.Size info) r
                (world_of retry)) as (steps & r' & He & Hr & Hs & Hc).
    rewrite Hr, He. eexists. split; [|split; [rewrite !app_assoc; reflexivity | exact Hc]].
    now rewrite !forallb_app, Hres, Hretry, Hs.
  - eexists. split; [|split; [rewrite app_nil_r, app_assoc; reflexivity | reflexivity]].
    now rewrite forallb_app, Hres, Hretry.
  - exists (events_of (resolveOutput fp config inputFile w) ++ events_of retry).
    rewrite forallb_app, Hres, Hretry, !app_nil_r. split; reflexivity.
Qed.

Lemma forallb_workerEvent_step (lg : bool) (steps : list Event) :
  forallb (stepEvent lg) steps = true -> forallb (workerEvent lg) steps = true.
Proof. intros H. apply (stepEvent_quiet _ _ H). Qed.

Lemma processJob_worker_events fp uc config cc inputFile w :
  forallb (workerEvent (logger uc)) (events_of (processJob fp uc config cc inputFile w)) = true.
Proof.
  destruct (processJob_publishes fp uc config cc inputFile w) as (steps & Hs & H).
  apply forallb_workerEvent_step in Hs.
  destruct (result_of (processJob fp uc config cc inputFile w)).
  - destruct H as [-> _]. now rewrite forallb_app, Hs.
  - now rewrite H.
Qed.

Lemma worker_worker_events fp uc config cc jobs :
  forall w,
    forallb (workerEvent (logger uc)) (events_of (worker fp uc config cc jobs w)) = true.
Proof.
  induction jobs as [|job rest IH]; intros w; [reflexivity|].
  cbn [worker]. run_simpl. rewrite forallb_app, processJob_worker_events. cbn [andb].
  destruct (result_of (processJob fp uc config cc job w)); run_simpl; [|reflexivity].
  rewrite forallb_app, IH. cbn [andb].
  match goal with |- context [result_of ?x] => destruct (result_of x) end; reflexivity.
Qed.

Lemma workerEvent_quiet (lg : bool) (evs : list Event) :
  forallb (workerEvent lg) evs = true ->
  spawned evs = 0%nat /\ reports evs = [] /\ reportedPhases evs = [] /\
  (lg = false -> List.filter isLog evs = []).
Proof.
  induction evs as [|e evs IH]; cbn [forallb]; intros H; [repeat split|].
  apply andb_prop in H as [He H]. destruct (IH H) as (Hs & Hr & Hp & Hl).
  unfold spawned in *. destruct e; cbn in *; try discriminate; repeat split; auto.
  intros ->. discriminate.
Qed.

Lemma aggregatorEvent_quiet (lg rp : bool) (evs : list Event) :
  forallb (aggregatorEvent lg rp) evs = true ->
  spawned evs = 0%nat /\ compressCalls evs = 0%nat /\ published evs = [] /\
  (lg = false -> List.filter isLog evs = []) /\
  (rp = false -> reports evs = []).
Proof.
  induction evs as [|e evs IH]; cbn [forallb]; intros H; [repeat split|].
  apply andb_prop in H as [He H]. destruct (IH H) as (Hs & Hc & Hp & Hl & Hr).
  unfold spawned, compressCalls in *.
  destruct e; cbn in *; try discriminate; repeat split; auto; intros ->; discriminate.
Qed.

Lemma preludeEvent_aggregator (lg rp : bool) (evs : list Event) :
  forallb (preludeEvent lg rp) evs = true ->
  forallb (aggregatorEvent lg rp) evs = true.
Proof.
  induction evs as [|e evs IH]; cbn [forallb]; intros H; [reflexivity|].
  apply andb_prop in H as [He H]. rewrite (IH H), andb_true_r.
  destruct e; cbn in *; try discriminate; auto.
  destruct rp; [reflexivity | discriminate].
Qed.

Lemma preludeEvent_reports (lg rp : bool) (evs : list Event) :
  forallb (preludeEvent lg rp) evs = true ->
  Forall consistent (reports evs) /\ ~ In PhaseReplacing (reportedPhases evs).
Proof.
  induction evs as [|e evs IH]; cbn [forallb]; intros H.
  - split; [constructor | intros []].
  - apply andb_prop in H as [He H]. destruct (IH H) as [Hc Hp].
    destruct e; cbn in *; try discriminate; auto.
    repeat (apply andb_prop in He as [He ?]).
    split.
    + constructor; [|exact Hc]. unfold consistent. lia.
    + intros [E|Hin]; [|now apply Hp]. rewrite E in *. discriminate.
Qed.

Lemma reports_app (a b : list Event) : reports (a ++ b) = reports a ++ reports b.
Proof. apply flat_map_app. Qed.

Lemma published_app (a b : list Event) : published (a ++ b) = published a ++ published b.
Proof. apply flat_map_app. Qed.

Lemma spawnFrom_events (n : nat) :
  forall id w,
    spawned (events_of (spawnFrom n id w)) = n /\
    reports (events_of (spawnFrom n id w)) = [] /\
    reportedPhases (events_of (spawnFrom n id w)) = [] /\
    List.filter isLog (events_of (spawnFrom n id w)) = [] /\
    world_of (spawnFrom n id w) = w.
Proof.
  induction n as [|n IH]; intros id w; [repeat split|].
  cbn [spawnFrom]. run_simpl.
  destruct (IH (int64_add id 1) w) as (H1 & H2 & H3 & H4 & H5).
  rewrite spawned_app, reports_app, reportedPhases_app, List.filter_app, H1, H2, H3, H4.
  repeat split. exact H5.
Qed.

Lemma snapshots_length now results status :
  length (snapshots now results status) = length results.
Proof.
  revert status. induction results as [|r rest IH]; intros status; cbn; [|rewrite IH];
    reflexivity.
Qed.

Lemma snapshots_phase now results status :
  map ProcessingStatus.Phase (snapshots now results status) =
  repeat (ProcessingStatus.Phase status) (length results).
Proof.
  revert status. induction results as [|r rest IH]; intros status; [reflexivity|].
  cbn [snapshots map length repeat]. rewrite IH.
  assert (E : ProcessingStatus.Phase
                (ProcessingStatus.SetCurrentFile (CompressionResult.CurrentFile r)
                   (CompressionResult.OriginalSize r)
                   (ProcessingStatus.AddResult now r status)) =
              ProcessingStatus.Phase status).
  { unfold ProcessingStatus.AddResult. destruct (ProcessingStatus.isSuccess r); reflexivity. }
  rewrite E. reflexivity.
Qed.

Lemma snapshots_consistent now results :
  forall status n,
    0 <= n -> n + Z.of_nat (length results) <= ProcessingStatus.TotalFiles status ->
    ProcessingStatus.TotalFiles status < 2 ^ 63 ->
    counted n status ->
    Forall consistent (snapshots now results status).
Proof.
  induction results as [|r rest IH]; intros status n Hn Hle Hmax Hc; [constructor|].
  cbn [snapshots length] in *.
  pose proof (AddResult_counted now r status n Hn ltac:(lia) Hc) as Hc'.
  destruct (AddResult_counters now r status) as (_ & Ht & _).
  set (s1 := ProcessingStatus.AddResult now r status) in *.
  set (s2 := ProcessingStatus.SetCurrentFile (CompressionResult.CurrentFile r)
               (CompressionResult.OriginalSize r) s1).
  assert (Hc2 : counted (n + 1) s2) by exact Hc'.
  assert (Ht2 : ProcessingStatus.TotalFiles s2 = ProcessingStatus.TotalFiles status)
    by exact Ht.
  clearbody s2. constructor.
  - destruct Hc2 as (Hp & Hs & _). unfold consistent. lia.
  - apply (IH _ (n + 1)); try lia. exact Hc2.
Qed.

Lemma events_logResult uc r w :
  forallb (aggregatorEvent (logger uc) (progressReporter uc)) (events_of (logResult uc r w))
    = true /\
  reports (events_of (logResult uc r w)) = [] /\
  reportedPhases (events_of (logResult uc r w)) = [].
Proof.
  unfold logResult. destruct (ProcessingStatus.isSuccess r); run_simpl;
    destruct (logger uc); repeat split.
Qed.

Lemma collect_events uc results :
  forall counter status w,
    let evs := events_of (collect uc results counter status w) in
    forallb (aggregatorEvent (logger uc) (progressReporter uc)) evs = true /\
    reports evs =
      (if progressReporter uc then snapshots (w_clock w) results status else []) /\
    reportedPhases evs =
      (if progressReporter uc
       then repeat (ProcessingStatus.Phase status) (length results) else []).
Proof.
  induction results as [|r rest IH]; intros counter status w evs; subst evs.
  - cbn. destruct (progressReporter uc); repeat split.
  - cbn [collect]. run_simpl. rewrite !world_logResult.
    destruct (events_logResult uc r w) as (L1 & L2 & L3).
    match goal with |- context [collect uc rest ?c ?s w] =>
      destruct (IH c s w) as (H1 & H2 & H3) end.
    rewrite !forallb_app, !reports_app, !reportedPhases_app, L1, L2, L3, H1, H2, H3.
    cbn [app length repeat snapshots].
    destruct (progressReporter uc); cbn; repeat split.
    unfold ProcessingStatus.AddResult. destruct (ProcessingStatus.isSuccess r); reflexivity.
Qed.

(** ** The course of [Execute] *)

Lemma onlyLog_quiet (lg : bool) (evs : list Event) :
  forallb (onlyLog lg) evs = true ->
  spawned evs = 0%nat /\ compressCalls evs = 0%nat /\ published evs = [] /\
  reports evs = [] /\ reportedPhases evs = [] /\
  (lg = false -> evs = []).
Proof.
  induction evs as [|e evs IH]; cbn [forallb]; intros H; [repeat split|].
  apply andb_prop in H as [He H]. destruct (IH H) as (Hs & Hc & Hp & Hr & Hph & Hl).
  unfold spawned, compressCalls in *.
  destruct e; cbn in *; try discriminate; repeat split; auto.
  intros ->. discriminate.
Qed.

Lemma onlyLog_prelude (lg rp : bool) (evs : list Event) :
  forallb (onlyLog lg) evs = true -> forallb (preludeEvent lg rp) evs = true.
Proof. apply forallb_weaken. now intros []. Qed.

Lemma runPool_run fp uc config arrival cc files status w :
  let run := runPool fp uc config arrival cc files status w in
  let work := worker fp uc config cc files w in
  let w1 := world_of work in
  events_of run =
    events_of (spawnFrom (Z.to_nat (workerCount config)) 0 w) ++ events_of work ++
    match result_of work with
    | Panic => []
    | Done results =>
        let final := ProcessingStatus.Complete (w_clock w1)
                       (aggregate (w_clock w1) (arrival results) status) in
        events_of (collect uc (arrival results) 0 status w1) ++
        (if progressReporter uc then [EvReport final] else []) ++
        events_of (logStatistics uc final w1)
    end /\
  result_of run =
    match result_of work with
    | Panic => Panic
    | Done results =>
        Done (None, ProcessingStatus.Complete (w_clock w1)
                      (aggregate (w_clock w1) (arrival results) status))
    end.
Proof.
  intros run work w1. subst run. unfold runPool. run_simpl.
  destruct (spawnFrom_events (Z.to_nat (workerCount config)) 0 w) as (_ & _ & _ & _ & Hw).
  rewrite !Hw. fold work. fold w1.
  destruct (result_of work) as [results|]; run_simpl; [|split; reflexivity].
  destruct (collect_run uc (arrival results) 0 status w1) as [Hcw Hcr].
  rewrite !Hcw, !Hcr. cbn [app]. rewrite app_nil_r. split; reflexivity.
Qed.

Lemma prelude_report uc s :
  ProcessingStatus.ProcessedFiles s = 0 ->
  ProcessingStatus.SuccessfulFiles s = 0 ->
  ProcessingStatus.FailedFiles s = 0 ->
  0 <= ProcessingStatus.TotalFiles s ->
  ProcessingStatus.Phase s <> PhaseReplacing ->
  forallb (preludeEvent (logger uc) (progressReporter uc))
    (if progressReporter uc then [EvReport s] else []) = true.
Proof.
  intros Hp Hs Hf Ht Hph. destruct (progressReporter uc); [|reflexivity].
  cbn. rewrite Hp, Hs, Hf. apply Z.leb_le in Ht. rewrite Ht. cbn.
  destruct (ProcessingStatus.Phase s); try reflexivity. congruence.
Qed.

Lemma prelude_log uc l f :
  forallb (preludeEvent (logger uc) (progressReporter uc))
    (if logger uc then [EvLog l f] else []) = true.
Proof. now destruct (logger uc). Qed.

Lemma prelude_logBanner uc config w :
  forallb (preludeEvent (logger uc) (progressReporter uc))
    (events_of (logBanner uc config w)) = true.
Proof. apply onlyLog_prelude, events_logBanner. Qed.

Lemma prelude_logStart uc w :
  forallb (preludeEvent (logger uc) (progressReporter uc))
    (events_of (logStart uc w)) = true.
Proof. apply onlyLog_prelude, events_logStart. Qed.

Lemma reportedPhases_logBanner uc config w :
  reportedPhases (events_of (logBanner uc config w)) = [].
Proof. apply (onlyLog_quiet _ _ (events_logBanner uc config w)). Qed.

Lemma reportedPhases_logStart uc w : reportedPhases (events_of (logStart uc w)) = [].
Proof. apply (onlyLog_quiet _ _ (events_logStart uc w)). Qed.

Ltac prelude_events :=
  rewrite ?forallb_app, ?prelude_log, ?prelude_logBanner, ?prelude_logStart, ?prelude_report
    by (cbn; first [reflexivity | lia | discriminate]);
  cbn [forallb andb]; try reflexivity.

Lemma events_of_mk {A} (a : A) (w : World) (e : list Event) : events_of (a, w, e) = e.
Proof. reflexivity. Qed.

Lemma result_of_mk {A} (a : A) (w : World) (e : list Event) : result_of (a, w, e) = a.
Proof. reflexivity. Qed.

Ltac course_eta :=
  match goal with |- Course _ _ _ _ _ ?r => rewrite (run_eta r) end.

Ltac failed_course :=
  left; rewrite ?events_of_mk, ?result_of_mk; split; [prelude_events |];
  eexists; left; eexists; split; [reflexivity|]; cbn;
  unfold runLevelError; repeat split; eauto 6.

Lemma Course_after fp uc config arrival (ph0 phases : list ProcessingPhase) (pre0 : list Event)
    (run run' : Go (option error * ProcessingStatus.t) * World * list Event) :
  events_of run = pre0 ++ events_of run' ->
  result_of run = result_of run' ->
  forallb (preludeEvent (logger uc) (progressReporter uc)) pre0 = true ->
  reportedPhases pre0 = (if progressReporter uc then ph0 else []) ->
  Course fp uc config arrival phases run' ->
  Course fp uc config arrival (ph0 ++ phases) run.
Proof.
  intros He Hr Hp Hph [[Hev Hfin]|(pre & files & status & w1 & H)].
  - left. rewrite He, Hr, forallb_app, Hp, Hev. split; [reflexivity | exact Hfin].
  - right. exists (pre0 ++ pre), files, status, w1. cbv zeta in *.
    destruct H as (H1 & H2 & H3 & H4 & H5).
    rewrite He, Hr, H1, H2, forallb_app, Hp, H3, reportedPhases_app, Hph, H4, app_assoc.
    repeat split; try apply H5. now destruct (progressReporter uc).
Qed.

Lemma compressFiles_course fp uc config arrival files status w :
  files <> [] ->
  (exists w0,
     fst (fst (FileRepository_ListPDFFiles (fileRepo uc)
                 (Config.SourceDirectory (Config.Scanner config)) w0)) = files) ->
  counted 0 status ->
  Course fp uc config arrival [PhaseCompressing]
    (compressFiles fp uc config arrival files status w).
Proof.
  intros Hne Hinv (Hp & Hs & Hs0 & Hf0).
  assert (ProcessingStatus.SuccessfulFiles status = 0) by lia.
  assert (ProcessingStatus.FailedFiles status = 0) by lia.
  unfold compressFiles, failRun. course_eta. run_simpl.
  run_case; run_simpl.
  - failed_course.
  - right. rewrite ?events_of_mk, ?result_of_mk.
    eexists; eexists; eexists; eexists; cbv zeta.
    split; [rewrite !app_assoc; reflexivity|].
    split; [reflexivity|].
    split; [prelude_events|].
    rewrite ?app_nil_r, ?reportedPhases_app, ?reportedPhases_logStart.
    split; [destruct (progressReporter uc), (logger uc); reflexivity|].
    split; [exact Hne|]. split; [exact Hinv|]. split; [reflexivity|].
    split; [unfold counted; cbn; lia | reflexivity].
Qed.

Lemma scanFiles_course fp uc config arrival status w :
  counted 0 status ->
  ProcessingStatus.TotalFiles status = 0 ->
  Course fp uc config arrival [PhaseScanning; PhaseCompressing]
    (scanFiles fp uc config arrival status w).
Proof.
  intros Hc Ht. pose proof Hc as (Hp & Hs & Hs0 & Hf0).
  assert (ProcessingStatus.SuccessfulFiles status = 0) by lia.
  assert (ProcessingStatus.FailedFiles status = 0) by lia.
  unfold scanFiles, failRun, completeRun. course_eta. run_simpl.
  run_case; run_simpl; [failed_course|].
  run_case; run_simpl.
  - left. rewrite ?events_of_mk, ?result_of_mk. split; [prelude_events |].
    eexists; right; split; [reflexivity | exact Ht].
  - change [PhaseScanning; PhaseCompressing] with ([PhaseScanning] ++ [PhaseCompressing]).
    eapply Course_after;
      [ rewrite events_of_mk, ?app_assoc; reflexivity | reflexivity | prelude_events
      | | apply compressFiles_course ].
    + rewrite ?reportedPhases_app. destruct (progressReporter uc), (logger uc); reflexivity.
    + intros E. rewrite E in *. discriminate.
    + eexists. reflexivity.
    + exact Hc.
Qed.

Lemma Execute_course fp uc config arrival w :
  Course fp uc config arrival [PhaseInitializing; PhaseScanning; PhaseCompressing]
    (Execute fp uc config arrival w).
Proof.
  unfold Execute, failRun. course_eta. run_simpl.
  run_case; run_simpl; [failed_course|].
  change [PhaseInitializing; PhaseScanning; PhaseCompressing]
    with ([PhaseInitializing] ++ [PhaseScanning; PhaseCompressing]).
  run_case; run_simpl; try (run_case; run_simpl; [failed_course|]).
  all: eapply Course_after;
    [ rewrite events_of_mk, ?app_assoc; reflexivity | reflexivity | prelude_events
    | | apply scanFiles_course; [unfold counted; cbn; lia | reflexivity] ].
  all: rewrite ?reportedPhases_app, ?reportedPhases_logBanner;
    destruct (progressReporter uc); reflexivity.
Qed.

Lemma workerCount_max (config : Config.t) :
  workerCount config = Z.max 1 (Config.ParallelWorkers (Config.Processing config)).
Proof.
  unfold workerCount.
  destruct (Z.leb_spec (Config.ParallelWorkers (Config.Processing config)) 0); lia.
Qed.

Lemma runPool_result fp uc config arrival cc files status w r :
  result_of (runPool fp uc config arrival cc files status w) = Done r ->
  exists results,
    result_of (worker fp uc config cc files w) = Done results /\
    r = (None, ProcessingStatus.Complete (w_clock (world_of (worker fp uc config cc files w)))
                 (aggregate (w_clock (world_of (worker fp uc config cc files w)))
                    (arrival results) status)).
Proof.
  destruct (runPool_run fp uc config arrival cc files status w) as [_ Hr]. rewrite Hr.
  destruct (result_of (worker fp uc config cc files w)) as [results|]; [|discriminate].
  intros [= <-]. exists results. split; reflexivity.
Qed.

Lemma runPool_observed fp uc config arrival cc files status w :
  let evs := events_of (runPool fp uc config arrival cc files status w) in
  let work := worker fp uc config cc files w in
  let now := w_clock (world_of work) in
  spawned evs = Z.to_nat (workerCount config) /\
  (logger uc = false -> List.filter isLog evs = []) /\
  reports evs =
    match result_of work with
    | Done results =>
        if progressReporter uc
        then snapshots now (arrival results) status ++
             [ProcessingStatus.Complete now (aggregate now (arrival results) status)]
        else []
    | Panic => []
    end.
Proof.
  intros evs work now. subst evs.
  destruct (runPool_run fp uc config arrival cc files status w) as [He _]. rewrite He.
  fold work. fold now.
  destruct (spawnFrom_events (Z.to_nat (workerCount config)) 0 w) as (S1 & S2 & S3 & S4 & _).
  destruct (workerEvent_quiet _ _ (worker_worker_events fp uc config cc files w))
    as (W1 & W2 & W3 & W4).
  fold work in W1, W2, W3, W4.
  rewrite !spawned_app, !reports_app, !List.filter_app, S1, S2, S4, W1, W2.
  destruct (result_of work) as [results|].
  - destruct (collect_events uc (arrival results) 0 status (world_of work)) as (C1 & C2 & C3).
    destruct (aggregatorEvent_quiet _ _ _ C1) as (A1 & _ & _ & A4 & _).
    cbv zeta. fold now.
    destruct (onlyLog_quiet _ _
                (events_logStatistics uc
                   (ProcessingStatus.Complete now (aggregate now (arrival results) status))
                   (world_of work))) as (L1 & _ & _ & L4 & _ & L6).
    rewrite !spawned_app, !reports_app, !List.filter_app, A1, C2, L1, L4.
    split; [destruct (progressReporter uc); cbn; lia|].
    split.
    + intros Hl. rewrite (W4 Hl), (A4 Hl), (L6 Hl). now destruct (progressReporter uc).
    + destruct (progressReporter uc); cbn [reports flat_map app]; rewrite ?app_nil_r;
        reflexivity.
  - split; [cbn; lia|]. split; [|reflexivity].
    intros Hl. now rewrite (W4 Hl).
Qed.

(** ** What a batch run does and never does *)

(** X4. When [ProcessPDFsUseCase.Execute] returns an error, it is one
    of its four run-level errors (missing source directory, target
    directory, inventory, validation of the compression settings), the
    final status is failed and complete with that error and no file
    counted, and no worker was started, the compressor was never called
    and no result was published: the failure of a file is never the
    error of the run. *)
Theorem Execute_error_is_run_level
    (fp : Filepath) (uc : ProcessPDFsUseCase) (config : Config.t)
    (arrival : list CompressionResult.t -> list CompressionResult.t) (w : World)
    (err : error) (final : ProcessingStatus.t) :
  let run := Execute fp uc config arrival w in
  result_of run = Done (Some err, final) ->
  runLevelError config err /\
  ProcessingStatus.Phase final = PhaseFailed /\
  ProcessingStatus.IsComplete final = true /\
  ProcessingStatus.Error final = Some err /\
  ProcessingStatus.ProcessedFiles final = 0 /\
  spawned (events_of run) = 0%nat /\
  compressCalls (events_of run) = 0%nat /\
  published (events_of run) = [].
Proof.
  intros run Hr. subst run.
  destruct (Execute_course fp uc config arrival w)
    as [[Hev [final' [(err' & Hr' & H)|[Hr' _]]]]|(pre & files & status & w1 & H)].
  - rewrite Hr in Hr'. injection Hr' as <- <-.
    destruct (aggregatorEvent_quiet _ _ _ (preludeEvent_aggregator _ _ _ Hev))
      as (Q1 & Q2 & Q3 & _).
    tauto.
  - rewrite Hr in Hr'. discriminate.
  - cbv zeta in H. destruct H as (_ & Hres & _). rewrite Hr in Hres. symmetry in Hres.
    apply runPool_result in Hres as (results & _ & [=]).
Qed.

Lemma Execute_error_is_run_level_witness :
  let uc := realUseCase (fixedCompressor 4) slashJoin (fun _ _ => exampleTree) in
  let run := Execute slashPaths uc (exampleConfig true 2 3) (fun l => l) (worldOf [] []) in
  exists err final,
    result_of run = Done (Some err, final) /\
    ProcessingStatus.Phase final = PhaseFailed /\
    spawned (events_of run) = 0%nat.
Proof.
  intros uc run.
  set (err := match result_of run with
              | Done (Some e, _) => e
              | _ => ErrNew ""
              end).
  set (final := match result_of run with
                | Done (_, f) => f
                | Panic => ProcessingStatus.NewProcessingStatus 0 0
                end).
  assert (E : result_of run = Done (Some err, final)) by (vm_compute; reflexivity).
  exists err, final. split; [exact E|].
  destruct (Execute_error_is_run_level slashPaths uc (exampleConfig true 2 3) (fun l => l)
              (worldOf [] []) err final E) as (_ & H1 & _ & _ & _ & H2 & _).
  exact (conj H1 H2).
Defined.

(** X5. [Execute] starts either no worker or exactly
    [max 1 ParallelWorkers] of them, and it starts them whenever it
    returns without an error over a non-empty inventory: a worker
    count of zero or below still gives one worker. *)
Theorem Execute_worker_pool_size
    (fp : Filepath) (uc : ProcessPDFsUseCase) (config : Config.t)
    (arrival : list CompressionResult.t -> list CompressionResult.t) (w : World) :
  let run := Execute fp uc config arrival w in
  let N := Z.to_nat (Z.max 1 (Config.ParallelWorkers (Config.Processing config))) in
  (spawned (events_of run) = 0%nat \/ spawned (events_of run) = N) /\
  (forall final,
     result_of run = Done (None, final) ->
     ProcessingStatus.TotalFiles final <> 0 ->
     spawned (events_of run) = N).
Proof.
  intros run N. subst run N. rewrite <- workerCount_max.
  destruct (Execute_course fp uc config arrival w)
    as [[Hev [final' H]]|(pre & files & status & w1 & H)].
  - destruct (aggregatorEvent_quiet _ _ _ (preludeEvent_aggregator _ _ _ Hev)) as (Q1 & _).
    split; [now left|]. intros final Hr Ht.
    destruct H as [(err' & Hr' & _)|[Hr' Ht']]; rewrite Hr in Hr'; [discriminate|].
    injection Hr' as <-. contradiction.
  - cbv zeta in H. destruct H as (He & _ & Hpre & _).
    destruct (aggregatorEvent_quiet _ _ _ (preludeEvent_aggregator _ _ _ Hpre)) as (Q1 & _).
    destruct (runPool_observed fp uc config arrival
                (CompressionConfig.NewCompressionConfigWithLicense
                   (Config.Level (Config.Compression config))
                   (Config.UniPDFLicenseKey (Config.Compression config)))
                files status w1) as (P1 & _).
    assert (E : spawned (events_of (Execute fp uc config arrival w)) =
                Z.to_nat (workerCount config)).
    { rewrite He, spawned_app, Q1, P1. reflexivity. }
    split; [now right | intros; exact E].
Qed.

Lemma Execute_worker_pool_size_witness :
  let uc := exampleUseCase (fixedCompressor 4) ["pdfs/a.pdf"]%string in
  let run := Execute slashPaths uc (exampleConfig false 0 3) (fun l => l)
               (worldOf [("pdfs/a.pdf", "0123456789")]%string []) in
  exists final,
    result_of run = Done (None, final) /\
    ProcessingStatus.TotalFiles final <> 0 /\
    spawned (events_of run) = 1%nat.
Proof.
  intros uc run.
  set (final := match result_of run with
                | Done (_, f) => f
                | Panic => ProcessingStatus.NewProcessingStatus 0 0
                end).
  assert (E : result_of run = Done (None, final)) by (vm_compute; reflexivity).
  assert (T : ProcessingStatus.TotalFiles final <> 0) by (vm_compute; discriminate).
  exists final. split; [exact E|]. split; [exact T|].
  exact (proj2 (Execute_worker_pool_size slashPaths uc (exampleConfig false 0 3) (fun l => l)
                  (worldOf [("pdfs/a.pdf", "0123456789")]%string [])) final E T).
Defined.

Lemma reportedPhases_reports (evs : list Event) :
  reportedPhases evs = map ProcessingStatus.Phase (reports evs).
Proof.
  unfold reportedPhases, reports.
  induction evs as [|e evs IH]; [reflexivity|].
  destruct e; cbn [flat_map app map]; rewrite ?IH; reflexivity.
Qed.

Lemma aggregate_Phase now results status :
  ProcessingStatus.Phase (aggregate now results status) = ProcessingStatus.Phase status /\
  ProcessingStatus.TotalFiles (aggregate now results status) =
    ProcessingStatus.TotalFiles status.
Proof.
  revert status. induction results as [|r rest IH]; intros status; [split; reflexivity|].
  cbn [aggregate fold_left]. unfold aggregate in IH. rewrite (proj1 (IH _)), (proj2 (IH _)).
  unfold ProcessingStatus.AddResult. destruct (ProcessingStatus.isSuccess r); split; reflexivity.
Qed.

(** X6. [Execute] never reports the phase Replacing. With a progress
    reporter, a run that returns without an error over [n > 0] files
    reports Initializing, Scanning and Compressing, then Compressing
    once per file, then Completed. *)
Theorem Execute_reported_phases
    (fp : Filepath) (uc : ProcessPDFsUseCase) (config : Config.t)
    (arrival : list CompressionResult.t -> list CompressionResult.t) (w : World) :
  let run := Execute fp uc config arrival w in
  ~ In PhaseReplacing (reportedPhases (events_of run)) /\
  (forall final,
     (forall l, Permutation (arrival l) l) ->
     progressReporter uc = true ->
     result_of run = Done (None, final) ->
     ProcessingStatus.TotalFiles final <> 0 ->
     reportedPhases (events_of run) =
       [PhaseInitializing; PhaseScanning; PhaseCompressing]
       ++ repeat PhaseCompressing (Z.to_nat (ProcessingStatus.TotalFiles final))
       ++ [PhaseCompleted]).
Proof.
  intros run. subst run.
  destruct (Execute_course fp uc config arrival w)
    as [[Hev [final' H]]|(pre & files & status & w1 & H)].
  - destruct (preludeEvent_reports _ _ _ Hev) as [_ Hno]. split; [exact Hno|].
    intros final _ _ Hr Ht.
    destruct H as [(err' & Hr' & _)|[Hr' Ht']]; rewrite Hr in Hr'; [discriminate|].
    injection Hr' as <-. contradiction.
  - cbv zeta in H. destruct H as (He & Hres & Hpre & Hph & Hne & _ & Htot & _ & Hphase).
    destruct (preludeEvent_reports _ _ _ Hpre) as [_ Hno].
    set (cc := CompressionConfig.NewCompressionConfigWithLicense
                 (Config.Level (Config.Compression config))
                 (Config.UniPDFLicenseKey (Config.Compression config))) in *.
    destruct (runPool_observed fp uc config arrival cc files status w1) as (_ & _ & Hrep).
    set (work := worker fp uc config cc files w1) in *.
    set (now := w_clock (world_of work)) in *.
    assert (Hpool : reportedPhases (events_of (runPool fp uc config arrival cc files status w1)) =
              match result_of work with
              | Done results =>
                  if progressReporter uc
                  then repeat PhaseCompressing (length (arrival results)) ++ [PhaseCompleted]
                  else []
              | Panic => []
              end).
    { rewrite reportedPhases_reports, Hrep.
      destruct (result_of work) as [results|]; [|reflexivity].
      destruct (progressReporter uc); [|reflexivity].
      rewrite map_app, snapshots_phase, Hphase. reflexivity. }
    split.
    + rewrite He, reportedPhases_app, Hpool. intros Hin. apply in_app_or in Hin as [Hin|Hin];
        [now apply Hno|].
      destruct (result_of work) as [results|]; [|destruct Hin].
      destruct (progressReporter uc); [|destruct Hin].
      apply in_app_or in Hin as [Hin|[Hin|[]]]; [|discriminate].
      apply repeat_spec in Hin. discriminate.
    + intros final Hperm Hrp Hr Ht.
      rewrite He, reportedPhases_app, Hph, Hpool, Hrp.
      rewrite Hr in Hres. symmetry in Hres.
      apply runPool_result in Hres as (results & Hw & [= ->]).
      fold work in Hw. rewrite Hw.
      cbn [ProcessingStatus.TotalFiles ProcessingStatus.Complete].
      rewrite (proj2 (aggregate_Phase _ _ _)), Htot, Nat2Z.id.
      apply worker_publishes_one_result_per_job in Hw.
      rewrite (Permutation_length (Hperm results)), Hw. reflexivity.
Qed.

Lemma Execute_reported_phases_witness :
  let uc := exampleUseCase (fixedCompressor 4) ["pdfs/a.pdf"; "pdfs/b.pdf"]%string in
  let run := Execute slashPaths uc (exampleConfig true 2 3) (fun l => l)
               (worldOf [("pdfs/a.pdf", "0123456789"); ("pdfs/b.pdf", "01234")]%string []) in
  reportedPhases (events_of run) =
    [PhaseInitializing; PhaseScanning; PhaseCompressing; PhaseCompressing; PhaseCompressing;
     PhaseCompleted].
Proof.
  intros uc run.
  set (final := match result_of run with
                | Done (_, f) => f
                | Panic => ProcessingStatus.NewProcessingStatus 0 0
                end).
  assert (E : result_of run = Done (None, final)) by (vm_compute; reflexivity).
  assert (T : ProcessingStatus.TotalFiles final = 2) by (vm_compute; reflexivity).
  assert (Hperm : forall l : list CompressionResult.t, Permutation ((fun l => l) l) l)
    by (intros l; apply Permutation_refl).
  pose proof (proj2 (Execute_reported_phases slashPaths uc (exampleConfig true 2 3)
                       (fun l => l)
                       (worldOf [("pdfs/a.pdf", "0123456789"); ("pdfs/b.pdf", "01234")]%string
                          [])) final Hperm eq_refl E ltac:(rewrite T; discriminate)) as H.
  rewrite T in H. exact H.
Defined.

(** X7. Every status [Execute] hands to the progress reporter has
    [ProcessedFiles = SuccessfulFiles + FailedFiles] and
    [0 <= ProcessedFiles <= TotalFiles], provided the inventory is
    shorter than 2^63 and every result arrives once. *)
Theorem Execute_reported_snapshots_are_consistent
    (fp : Filepath) (uc : ProcessPDFsUseCase) (config : Config.t)
    (arrival : list CompressionResult.t -> list CompressionResult.t) (w : World) :
  (forall l, Permutation (arrival l) l) ->
  (forall dir w', Z.of_nat (length (fst (fst (FileRepository_ListPDFFiles (fileRepo uc) dir w')))) < 2 ^ 63) ->
  Forall consistent (reports (events_of (Execute fp uc config arrival w))).
Proof.
  intros Hperm Hlen.
  destruct (Execute_course fp uc config arrival w)
    as [[Hev _]|(pre & files & status & w1 & H)].
  - apply (preludeEvent_reports _ _ _ Hev).
  - cbv zeta in H. destruct H as (He & _ & Hpre & _ & _ & [w0 Hinv] & Htot & Hc & _).
    set (cc := CompressionConfig.NewCompressionConfigWithLicense
                 (Config.Level (Config.Compression config))
                 (Config.UniPDFLicenseKey (Config.Compression config))) in *.
    destruct (runPool_observed fp uc config arrival cc files status w1) as (_ & _ & Hrep).
    rewrite He, reports_app, Hrep. apply Forall_app. split.
    + apply (preludeEvent_reports _ _ _ Hpre).
    + assert (Hfiles : Z.of_nat (length files) < 2 ^ 63) by (rewrite <- Hinv; apply Hlen).
      destruct (result_of (worker fp uc config cc files w1)) as [results|] eqn:Hw;
        [|constructor].
      destruct (progressReporter uc); [|constructor].
      apply worker_publishes_one_result_per_job in Hw.
      assert (Hl : length (arrival results) = length files)
        by (rewrite (Permutation_length (Hperm results)); exact Hw).
      apply Forall_app. split.
      * apply (snapshots_consistent _ _ _ 0); rewrite ?Hl; try lia. exact Hc.
      * constructor; [|constructor].
        match goal with |- context [aggregate ?now _ _] =>
          destruct (aggregate_counted now (arrival results) status 0 ltac:(lia)
                      ltac:(rewrite Hl; lia) Hc) as [(Hp & Hs & _) Ht] end.
        unfold consistent. cbn. rewrite Hl in Hp. lia.
Qed.

Lemma Execute_reported_snapshots_are_consistent_witness :
  let uc := exampleUseCase (failingCompressor (ErrNew "boom")) ["pdfs/a.pdf"; "pdfs/b.pdf"]%string in
  let run := Execute slashPaths uc (exampleConfig true 2 3) (fun l => rev l)
               (worldOf [("pdfs/a.pdf", "0123456789"); ("pdfs/b.pdf", "01234")]%string []) in
  (length (reports (events_of run)) = 6)%nat /\
  Forall consistent (reports (events_of run)).
Proof.
  intros uc run. split; [vm_compute; reflexivity|].
  apply Execute_reported_snapshots_are_consistent.
  - intros l. symmetry. apply Permutation_rev.
  - intros dir w'. cbn. lia.
Defined.

Section Quieter.

Variables lg rp : bool.

Lemma quieter_ret {A} (a : A) : quieter lg rp (ret a) (ret a).
Proof. intros w. reflexivity. Qed.

Lemma quieter_bind {A B} (m m' : M A) (k k' : A -> M B) :
  quieter lg rp m m' -> (forall a, quieter lg rp (k a) (k' a)) ->
  quieter lg rp (bind m k) (bind m' k').
Proof.
  intros Hm Hk w. unfold bind. rewrite (Hm w).
  destruct (m' w) as [[a w1] e1]. cbn [result_of world_of events_of fst snd].
  rewrite (Hk a w1). destruct (k' a w1) as [[b w2] e2].
  cbn [result_of world_of events_of fst snd]. now rewrite List.filter_app.
Qed.

Lemma quieter_same {A} (m : M A) :
  (forall w, forallb (heard lg rp) (events_of (m w)) = true) -> quieter lg rp m m.
Proof.
  intros H w. specialize (H w). destruct (m w) as [[a w1] e].
  cbn [result_of world_of events_of fst snd] in *. f_equal.
  induction e as [|x e IH]; [reflexivity|]. cbn [forallb] in H.
  apply andb_prop in H as [Hx He]. cbn [List.filter]. rewrite Hx. f_equal. now apply IH.
Qed.

Lemma quieter_call {A} (f : World -> A * World) : quieter lg rp (call f) (call f).
Proof. apply quieter_same. intros w. now rewrite events_call. Qed.

Lemma quieter_emit (e : Event) : heard lg rp e = true -> quieter lg rp (emit e) (emit e).
Proof. intros H. apply quieter_same. intros w. cbn. now rewrite H. Qed.

Lemma quieter_time_Now : quieter lg rp time_Now time_Now.
Proof. apply quieter_same. reflexivity. Qed.

Lemma quieter_time_Sleep d : quieter lg rp (time_Sleep d) (time_Sleep d).
Proof. apply quieter_same. reflexivity. Qed.

Lemma quieter_os_Stat p : quieter lg rp (os_Stat p) (os_Stat p).
Proof. apply quieter_same. intros w. now rewrite events_os_Stat. Qed.

Lemma quieter_os_Rename a b : quieter lg rp (os_Rename a b) (os_Rename a b).
Proof. apply quieter_same. intros w. now rewrite events_os_Rename. Qed.

Lemma quieter_os_Remove p : quieter lg rp (os_Remove p) (os_Remove p).
Proof. apply quieter_same. intros w. now rewrite events_os_Remove. Qed.

Lemma quieter_os_MkdirAll p : quieter lg rp (os_MkdirAll p) (os_MkdirAll p).
Proof. apply quieter_same. intros w. now rewrite events_os_MkdirAll. Qed.

End Quieter.

Lemma quieter_logf uc l f :
  quieter (logger uc) (progressReporter uc) (logf uc l f) (logf (attended uc) l f).
Proof. intros w. unfold logf, when. cbn. now destruct (logger uc). Qed.

Lemma quieter_reportProgress uc s :
  quieter (logger uc) (progressReporter uc)
    (reportProgress uc s) (reportProgress (attended uc) s).
Proof. intros w. unfold reportProgress, when. cbn. now destruct (progressReporter uc). Qed.

Ltac quieter_step :=
  first
    [ apply quieter_ret | apply quieter_logf | apply quieter_reportProgress
    | apply quieter_call | apply quieter_time_Now | apply quieter_time_Sleep
    | apply quieter_os_Stat | apply quieter_os_Rename | apply quieter_os_Remove
    | apply quieter_os_MkdirAll
    | apply quieter_emit; reflexivity
    | match goal with H : _ |- _ => apply H end
    | apply quieter_bind; [|intros ?]
    | match goal with
      | |- quieter _ _ (if ?c then _ else _) _ => destruct c
      | |- quieter _ _ (match ?x with _ => _ end) _ => destruct x
      end ].

Ltac quieter_all := repeat quieter_step.

Lemma quieter_replaceOriginalFile uc originalFile tempFile :
  quieter (logger uc) (progressReporter uc)
    (replaceOriginalFile uc originalFile tempFile)
    (replaceOriginalFile (attended uc) originalFile tempFile).
Proof. unfold replaceOriginalFile. quieter_all. Qed.

Lemma quieter_resolveOutput fp config inputFile lg rp :
  quieter lg rp (resolveOutput fp config inputFile) (resolveOutput fp config inputFile).
Proof. unfold resolveOutput. quieter_all. Qed.

Lemma quieter_retryFrom uc config cc inputFile outputFile remaining :
  forall attempt last,
    quieter (logger uc) (progressReporter uc)
      (retryFrom uc config cc inputFile outputFile remaining attempt last)
      (retryFrom (attended uc) config cc inputFile outputFile remaining attempt last).
Proof.
  induction remaining as [|n IH]; intros attempt last; cbn [retryFrom]; [apply quieter_ret|].
  quieter_all.
Qed.

Lemma quieter_publish lg rp r : quieter lg rp (publish r) (publish r).
Proof. unfold publish. quieter_all. Qed.

Lemma quieter_finishJob uc config inputFile outputFile size result :
  quieter (logger uc) (progressReporter uc)
    (finishJob uc config inputFile outputFile size result)
    (finishJob (attended uc) config inputFile outputFile size result).
Proof.
  unfold finishJob.
  pose proof (quieter_replaceOriginalFile uc inputFile outputFile).
  pose proof (quieter_publish (logger uc) (progressReporter uc)).
  quieter_all.
Qed.

Lemma quieter_processJob fp uc config cc inputFile :
  quieter (logger uc) (progressReporter uc)
    (processJob fp uc config cc inputFile)
    (processJob fp (attended uc) config cc inputFile).
Proof.
  unfold processJob, compressWithRetry.
  pose proof (quieter_resolveOutput fp config inputFile (logger uc) (progressReporter uc)).
  pose proof (quieter_publish (logger uc) (progressReporter uc)).
  pose proof (quieter_retryFrom uc config cc inputFile).
  pose proof (quieter_finishJob uc config inputFile).
  quieter_all.
Qed.

Lemma quieter_worker fp uc config cc jobs :
  quieter (logger uc) (progressReporter uc)
    (worker fp uc config cc jobs) (worker fp (attended uc) config cc jobs).
Proof.
  induction jobs as [|job rest IH]; cbn [worker]; [apply quieter_ret|].
  pose proof (quieter_processJob fp uc config cc job).
  quieter_all.
Qed.

Lemma quieter_spawnFrom lg rp remaining :
  forall w, quieter lg rp (spawnFrom remaining w) (spawnFrom remaining w).
Proof.
  induction remaining as [|n IH]; intros w; cbn [spawnFrom]; quieter_all.
Qed.

Lemma quieter_logResult uc result :
  quieter (logger uc) (progressReporter uc) (logResult uc result)
    (logResult (attended uc) result).
Proof. unfold logResult. quieter_all. Qed.

Lemma quieter_collect uc results :
  forall fileCounter status,
    quieter (logger uc) (progressReporter uc)
      (collect uc results fileCounter status)
      (collect (attended uc) results fileCounter status).
Proof.
  induction results as [|r rest IH]; intros fileCounter status; cbn [collect];
    [apply quieter_ret|].
  pose proof (quieter_logResult uc r).
  quieter_all.
Qed.

Lemma quieter_logBanner uc config :
  quieter (logger uc) (progressReporter uc) (logBanner uc config)
    (logBanner (attended uc) config).
Proof. unfold logBanner. quieter_all. Qed.

Lemma quieter_logStart uc :
  quieter (logger uc) (progressReporter uc) (logStart uc) (logStart (attended uc)).
Proof. unfold logStart. quieter_all. Qed.

Lemma quieter_logStatistics uc status :
  quieter (logger uc) (progressReporter uc) (logStatistics uc status)
    (logStatistics (attended uc) status).
Proof. unfold logStatistics, when. quieter_all. Qed.

Lemma quieter_failRun uc err status :
  quieter (logger uc) (progressReporter uc) (failRun uc err status)
    (failRun (attended uc) err status).
Proof. unfold failRun. quieter_all. Qed.

Lemma quieter_completeRun uc status :
  quieter (logger uc) (progressReporter uc) (completeRun uc status)
    (completeRun (attended uc) status).
Proof. unfold completeRun. quieter_all. Qed.

Lemma quieter_runPool fp uc config arrival cc files status :
  quieter (logger uc) (progressReporter uc)
    (runPool fp uc config arrival cc files status)
    (runPool fp (attended uc) config arrival cc files status).
Proof.
  unfold runPool.
  pose proof (quieter_spawnFrom (logger uc) (progressReporter uc)
                (Z.to_nat (workerCount config)) 0).
  pose proof (quieter_worker fp uc config cc files).
  pose proof (quieter_collect uc).
  pose proof (quieter_logStatistics uc).
  quieter_all.
Qed.

Lemma quieter_Execute fp uc config arrival :
  quieter (logger uc) (progressReporter uc)
    (Execute fp uc config arrival) (Execute fp (attended uc) config arrival).
Proof.
  unfold Execute, scanFiles, compressFiles.
  pose proof (quieter_logBanner uc config).
  pose proof (quieter_logStart uc).
  pose proof (quieter_failRun uc).
  pose proof (quieter_completeRun uc).
  pose proof (quieter_runPool fp uc config arrival).
  quieter_all.
Qed.

Lemma filter_heard_isLog (rp : bool) (evs : list Event) :
  List.filter isLog (List.filter (heard false rp) evs) = [].
Proof.
  induction evs as [|e evs IH]; [reflexivity|].
  destruct e; cbn; try exact IH. destruct rp; cbn; exact IH.
Qed.

Lemma reports_heard (lg : bool) (evs : list Event) :
  reports (List.filter (heard lg false) evs) = [].
Proof.
  induction evs as [|e evs IH]; [reflexivity|].
  destruct e; cbn; try exact IH. destruct lg; cbn; exact IH.
Qed.

(** X8. A nil logger and a nil progress reporter are never
    dereferenced: whatever the use case has of the two, [Execute]
    returns what it returns with both, leaves the world as it leaves it
    with both, and does what it does with both, in the same order, less
    the log lines when there is no logger and less the reports when
    there is no reporter. So without a logger nothing is logged and
    without a reporter nothing is reported, and the run goes on all the
    same. *)
Theorem Execute_without_logger_or_reporter
    (fp : Filepath) (uc : ProcessPDFsUseCase) (config : Config.t)
    (arrival : list CompressionResult.t -> list CompressionResult.t) (w : World) :
  let run := Execute fp uc config arrival w in
  let full := Execute fp (attended uc) config arrival w in
  result_of run = result_of full /\
  world_of run = world_of full /\
  events_of run =
    List.filter (heard (logger uc) (progressReporter uc)) (events_of full) /\
  (logger uc = false -> List.filter isLog (events_of run) = []) /\
  (progressReporter uc = false -> reports (events_of run) = []).
Proof.
  intros run full. subst run full. rewrite (quieter_Execute fp uc config arrival w).
  cbn [result_of world_of events_of fst snd].
  split; [reflexivity|]. split; [reflexivity|]. split; [reflexivity|]. split.
  - intros ->. apply filter_heard_isLog.
  - intros ->. apply reports_heard.
Qed.

Lemma Execute_without_logger_or_reporter_witness :
  let uc := {| compressor := fixedCompressor 4;
               fileRepo := listingRepo ["pdfs/a.pdf"]%string;
               configRepo := theConfigRepository;
               logger := false; progressReporter := false |} in
  let w := worldOf [("pdfs/a.pdf", "0123456789")]%string [] in
  let run := Execute slashPaths uc (exampleConfig true 2 3) (fun l => l) w in
  let full := Execute slashPaths (attended uc) (exampleConfig true 2 3) (fun l => l) w in
  result_of run = result_of full /\
  (exists final, result_of run = Done (None, final)) /\
  List.filter isLog (events_of run) = [] /\ reports (events_of run) = [] /\
  compressCalls (events_of run) = 1%nat /\
  (length (List.filter isLog (events_of full)) = 36)%nat.
Proof.
  intros uc w run full.
  destruct (Execute_without_logger_or_reporter slashPaths uc (exampleConfig true 2 3)
              (fun l => l) w) as (H0 & _ & _ & H1 & H2).
  split; [exact H0|]. split; [eexists; vm_compute; reflexivity|].
  split; [exact (H1 eq_refl)|]. split; [exact (H2 eq_refl)|].
  split; vm_compute; reflexivity.
Defined.

(** ** Jobs *)

Lemma published_steps (lg : bool) (steps : list Event) :
  forallb (stepEvent lg) steps = true -> published steps = [].
Proof. intros H. apply (stepEvent_quiet _ _ H). Qed.

(** X9. A worker that gets through its queue has published exactly one
    result per job, in the order of the queue, each carrying the path
    of its job as [CurrentFile], whether the job succeeded or failed. *)
Theorem worker_publishes_each_job_once
    (fp : Filepath) (uc : ProcessPDFsUseCase) (config : Config.t)
    (cc : CompressionConfig.t) (jobs : list string) (w : World)
    (results : list CompressionResult.t) :
  let run := worker fp uc config cc jobs w in
  result_of run = Done results ->
  published (events_of run) = results /\
  map CompressionResult.CurrentFile results = jobs.
Proof.
  intros run. subst run. revert w results.
  induction jobs as [|job rest IH]; intros w results.
  - cbn. intros [= <-]. split; reflexivity.
  - cbn [worker]. run_simpl.
    destruct (processJob_publishes fp uc config cc job w) as (steps & Hs & Hj).
    destruct (result_of (processJob fp uc config cc job w)) as [r|]; run_simpl;
      [|discriminate].
    destruct Hj as [He Hc].
    destruct (result_of (worker fp uc config cc rest _)) as [rs|] eqn:Hr; run_simpl;
      [|discriminate].
    intros [= <-]. destruct (IH _ _ Hr) as [IH1 IH2].
    rewrite He, !published_app, (published_steps _ _ Hs), IH1, app_nil_r.
    cbn. rewrite Hc, IH2. split; reflexivity.
Qed.

Lemma worker_publishes_each_job_once_witness :
  let uc := exampleUseCase (fixedCompressor 4) []%string in
  let jobs := ["pdfs/a.pdf"; "pdfs/missing.pdf"]%string in
  let config := exampleConfig true 2 3 in
  let run := worker slashPaths uc config (CompressionConfig.NewCompressionConfig 50) jobs
               (worldOf [("pdfs/a.pdf", "0123456789")]%string []) in
  exists results,
    result_of run = Done results /\
    published (events_of run) = results /\
    map CompressionResult.CurrentFile results = jobs.
Proof.
  intros uc jobs config run.
  set (results := match result_of run with Done rs => rs | Panic => [] end).
  assert (E : result_of run = Done results) by (vm_compute; reflexivity).
  exists results. split; [exact E|].
  exact (worker_publishes_each_job_once slashPaths uc config _ jobs _ results E).
Defined.

(** X10. What the worker does with a successful compression. Without
    replacement it publishes the result, with the ratio computed from
    the sizes, and touches no file. With replacement, when
    [replaceOriginalFile] succeeds the job's result is that same
    result; when it fails the job's result is a failure wrapping the
    cause, and the temporary output is removed after the replacement's
    own system calls. *)
Theorem finishJob_outcomes
    (uc : ProcessPDFsUseCase) (config : Config.t) (inputFile outputFile : string)
    (size : Z) (result : CompressionResult.t) (w : World) :
  let run := finishJob uc config inputFile outputFile size result w in
  let swap := replaceOriginalFile uc inputFile outputFile w in
  let r0 := CompressionResult.CalculateCompressionRatio
              (CompressionResult.set_OriginalSize size
                 (CompressionResult.set_CurrentFile inputFile result)) in
  (ReplaceOriginal config = false ->
     run = (Done r0, w, [EvPublish r0])) /\
  (ReplaceOriginal config = true -> result_of swap = None ->
     result_of run = Done r0 /\
     world_of run = world_of swap /\
     syscalls (events_of run) = syscalls (events_of swap)) /\
  (forall e,
     ReplaceOriginal config = true -> result_of swap = Some e ->
     let failed := CompressionResult.set_failure
                     (ErrWrap "ошибка замены оригинального файла" e) r0 in
     result_of run = Done failed /\
     ProcessingStatus.isSuccess failed = false /\
     exists removal,
       syscalls (events_of run) =
         syscalls (events_of swap) ++ [(SysRemove outputFile, removal)] /\
       (removal = None -> w_fs (world_of run) !! outputFile = None)).
Proof.
  intros run swap r0. subst run swap. unfold finishJob, publish.
  split; [intros ->; reflexivity|]. split.
  - intros -> Hr. run_simpl. rewrite Hr. run_simpl.
    rewrite !syscalls_app, syscalls_log. cbn [syscalls flat_map app].
    rewrite !app_nil_r. repeat split.
    unfold r0, CompressionResult.CalculateCompressionRatio. cbn. destruct (0 <? size); reflexivity.
  - intros e -> Hr. run_simpl. rewrite Hr. run_simpl.
    split; [reflexivity|]. split.
    { unfold ProcessingStatus.isSuccess. cbn. reflexivity. }
    eexists. rewrite !syscalls_app, syscalls_log. cbn [syscalls flat_map app].
    split; [reflexivity|].
    intros Hrm.
    destruct (os_Remove outputFile (world_of (replaceOriginalFile uc inputFile outputFile w)))
      as [[r w'] ev] eqn:E.
    apply os_Remove_inv in E. cbn [result_of world_of fst snd] in *.
    destruct E as [_ E]. subst r. rewrite E. apply lookup_delete_eq.
Qed.

Lemma finishJob_outcomes_witness :
  let uc := exampleUseCase (fixedCompressor 4) ["pdfs/a.pdf"]%string in
  let config := exampleConfig true 2 3 in
  let w := worldOf [("pdfs/a.pdf.tmp", "xxxx")]%string [] in
  let run := finishJob uc config "pdfs/a.pdf" "pdfs/a.pdf.tmp" 10 CompressionResult.zero w in
  exists e failed,
    result_of (replaceOriginalFile uc "pdfs/a.pdf" "pdfs/a.pdf.tmp" w) = Some e /\
    result_of run = Done failed /\
    ProcessingStatus.isSuccess failed = false /\
    w_fs w !! "pdfs/a.pdf.tmp"%string = Some "xxxx"%string /\
    w_fs (world_of run) !! "pdfs/a.pdf.tmp"%string = None.
Proof.
  intros uc config w run.
  set (swap := replaceOriginalFile uc "pdfs/a.pdf" "pdfs/a.pdf.tmp" w).
  set (e := match result_of swap with Some e => e | None => ErrNew "" end).
  assert (E : result_of swap = Some e) by (vm_compute; reflexivity).
  destruct (finishJob_outcomes uc config "pdfs/a.pdf" "pdfs/a.pdf.tmp" 10
              CompressionResult.zero w) as (_ & _ & H).
  destruct (H e eq_refl E) as (Hr & Hs & removal & Hsys & Hrm).
  eexists; eexists. split; [exact E|]. split; [exact Hr|]. split; [exact Hs|].
  split; [vm_compute; reflexivity|]. apply Hrm.
  assert (Hlast : last (syscalls (events_of run)) =
                  Some (SysRemove "pdfs/a.pdf.tmp", None)) by (vm_compute; reflexivity).
  unfold run in Hlast. rewrite Hsys, last_snoc in Hlast. now injection Hlast.
Defined.

(** ** The repositories *)

Lemma NewCompressionConfigWithLicense_Validate (level : Z) (licenseKey : string) :
  CompressionConfig.Validate
    (CompressionConfig.NewCompressionConfigWithLicense level licenseKey) = None.
Proof.
  rewrite NewCompressionConfigWithLicense_tiers. unfold CompressionConfig.Validate.
  cbn [CompressionConfig.Level CompressionConfig.ImageQuality].
  set (l := Z.max 10 (Z.min 90 level)).
  assert (Hl : 10 <= l <= 90) by (subst l; lia).
  destruct (Z.ltb_spec l 10); [lia|]. destruct (Z.ltb_spec 90 l); [lia|].
  destruct (Z.leb_spec l 20), (Z.leb_spec l 40), (Z.leb_spec l 60), (Z.leb_spec l 80);
    reflexivity.
Qed.

Lemma os_IsNotExist_PathError op path e :
  os_IsNotExist (Some (PathError op path e)) = os_IsNotExist (Some e).
Proof. reflexivity. Qed.

Lemma next_fault_none w :
  w_faults w = [] \/ (exists rest, w_faults w = None :: rest) ->
  fst (next_fault w) = None.
Proof.
  unfold next_fault. intros [H|[rest H]]; rewrite H; reflexivity.
Qed.

(** X11. [FileSystemRepository.FileExists] answers false only when
    [os.Stat] reports that the path does not exist, and then
    [GetFileInfo] on the same path fails with a not-exist error;
    whenever [GetFileInfo] succeeds, [FileExists] is true. [FileExists]
    is also true when [os.Stat] fails for any other reason, where
    [GetFileInfo] fails with that error. [GetFileInfo] of a regular
    file gives its path, size and modification time and zero pages.
    Neither call changes the file system. *)
Theorem FileSystemRepository_FileExists_and_GetFileInfo
    (join : string -> string -> string) (tree : World -> string -> Inventory.Root)
    (modTime : World -> string -> Z) (path : string) (w : World) :
  let repo := NewFileSystemRepository join tree modTime in
  let found := fst (FileExists repo path w) in
  let info := fst (GetFileInfo repo path w) in
  (found = false ->
     exists e, info = (None, Some e) /\ os_IsNotExist (Some e) = true) /\
  (forall doc,
     fst info = Some doc ->
     snd info = None /\ found = true /\
     PDFDocument.Path doc = path /\ PDFDocument.Pages doc = 0 /\
     PDFDocument.ModifiedTime doc = modTime w path) /\
  (forall e,
     snd info = Some e ->
     fst info = None /\ found = negb (os_IsNotExist (Some e))) /\
  (forall c,
     w_fs w !! path = Some c ->
     w_faults w = [] \/ (exists rest, w_faults w = None :: rest) ->
     found = true /\
     info = (Some {| PDFDocument.Path := path;
                     PDFDocument.Size := Z.of_nat (String.length c);
                     PDFDocument.ModifiedTime := modTime w path;
                     PDFDocument.Pages := 0 |}, None)) /\
  (forall e rest,
     w_faults w = Some e :: rest -> os_IsNotExist (Some e) = false ->
     found = true /\ info = (None, Some (PathError "stat" path e))) /\
  w_fs (snd (FileExists repo path w)) = w_fs w /\
  w_fs (snd (GetFileInfo repo path w)) = w_fs w.
Proof.
  intros repo found info. subst repo found info.
  cbn [FileExists GetFileInfo NewFileSystemRepository].
  unfold FileSystemRepository_FileExists, FileSystemRepository_GetFileInfo, os_Stat.
  pose proof (w_fs_next_fault w) as Hfs.
  split; [|split; [|split; [|split; [|split]]]].
  - destruct (next_fault w) as [[e|] w1]; cbn [fst snd result_of world_of].
    + cbn. intros H. apply negb_false_iff in H. eexists. split; [reflexivity | exact H].
    + destruct (w_fs w1 !! path); cbn; [discriminate|]. intros _. eauto.
  - intros doc. destruct (next_fault w) as [[e|] w1]; cbn [fst snd result_of world_of].
    + cbn. discriminate.
    + destruct (w_fs w1 !! path); cbn; [|discriminate]. intros [= <-]. repeat split.
  - intros e. destruct (next_fault w) as [[e'|] w1]; cbn [fst snd result_of world_of].
    + cbn. intros [= <-]. split; reflexivity.
    + destruct (w_fs w1 !! path); cbn; [discriminate|]. intros [= <-]. split; reflexivity.
  - intros c Hc Hf. apply next_fault_none in Hf.
    destruct (next_fault w) as [f w1]. cbn [fst snd] in *. subst f.
    rewrite Hfs, Hc. split; reflexivity.
  - intros e rest Hf Hne. unfold next_fault. rewrite Hf. cbn.
    unfold os_IsNotExist in Hne. cbn in Hne. rewrite Hne. split; reflexivity.
  - destruct (next_fault w) as [[e|] w1]; cbn [fst snd] in *.
    + cbn. auto.
    + destruct (w_fs w1 !! path); cbn; auto.
Qed.

Lemma FileSystemRepository_FileExists_and_GetFileInfo_witness :
  let repo := NewFileSystemRepository slashJoin (fun _ _ => exampleTree) (fun _ _ => 0) in
  let w := worldOf [("pdfs/b.PDF", "0123456789")]%string
             [Some (ErrNew "permission denied"); Some (ErrNew "permission denied")] in
  let w' := worldOf [("pdfs/b.PDF", "0123456789")]%string [] in
  (fst (FileExists repo "pdfs/b.PDF" w) = true /\
   fst (GetFileInfo repo "pdfs/b.PDF" w) =
     (None, Some (PathError "stat" "pdfs/b.PDF" (ErrNew "permission denied")))) /\
  (fst (FileExists repo "pdfs/b.PDF" w') = true /\
   fst (GetFileInfo repo "pdfs/b.PDF" w') =
     (Some {| PDFDocument.Path := "pdfs/b.PDF"; PDFDocument.Size := 10;
              PDFDocument.ModifiedTime := 0; PDFDocument.Pages := 0 |}, None)) /\
  (fst (FileExists repo "pdfs/a.pdf" w') = false /\
   exists e, fst (GetFileInfo repo "pdfs/a.pdf" w') = (None, Some e) /\
             os_IsNotExist (Some e) = true).
Proof.
  intros repo w w'.
  destruct (FileSystemRepository_FileExists_and_GetFileInfo slashJoin (fun _ _ => exampleTree)
              (fun _ _ => 0) "pdfs/b.PDF" w) as (_ & _ & _ & _ & H & _).
  destruct (FileSystemRepository_FileExists_and_GetFileInfo slashJoin (fun _ _ => exampleTree)
              (fun _ _ => 0) "pdfs/b.PDF" w') as (_ & _ & _ & H' & _).
  destruct (FileSystemRepository_FileExists_and_GetFileInfo slashJoin (fun _ _ => exampleTree)
              (fun _ _ => 0) "pdfs/a.pdf" w') as (H0 & _).
  split; [exact (H (ErrNew "permission denied") [Some (ErrNew "permission denied")]
                   eq_refl eq_refl)|].
  split; [exact (H' "0123456789"%string eq_refl (or_introl eq_refl))|].
  split; [reflexivity | exact (H0 eq_refl)].
Defined.

Lemma FileSystemRepository_ListPDFFiles_never_fails join tree directory w :
  snd (fst (FileSystemRepository_ListPDFFiles join tree directory w)) = None.
Proof.
  unfold FileSystemRepository_ListPDFFiles, Inventory.ListPDFFiles. cbn [fst].
  rewrite WalkDir_visit. reflexivity.
Qed.

(** X12. Over the repository's own [FileSystemRepository] and
    [ConfigRepository], [Execute] can fail in two ways only: the source
    directory does not exist, or, when originals are not replaced, the
    target directory cannot be created. The inventory swallows the
    errors of the walk and the configuration built from the level is
    always valid. *)
Theorem Execute_over_the_repositories
    (fp : Filepath) (uc : ProcessPDFsUseCase) (config : Config.t)
    (arrival : list CompressionResult.t -> list CompressionResult.t) (w : World)
    (join : string -> string -> string) (tree : World -> string -> Inventory.Root)
    (modTime : World -> string -> Z) (err : error) (final : ProcessingStatus.t) :
  fileRepo uc = NewFileSystemRepository join tree modTime ->
  configRepo uc = theConfigRepository ->
  result_of (Execute fp uc config arrival w) = Done (Some err, final) ->
  let source := Config.SourceDirectory (Config.Scanner config) in
  (err = ErrNew ("исходная директория не существует: " +:+ source) /\
   os_IsNotExist (snd (result_of (os_Stat source w))) = true) \/
  (exists cause,
     err = ErrWrap "ошибка создания целевой директории" cause /\
     Config.ReplaceOriginal (Config.Scanner config) = false).
Proof.
  intros Hfr Hcr Hres source. subst source. revert Hres.
  unfold Execute, failRun. run_simpl. rewrite Hfr.
  cbn [FileExists CreateDirectory NewFileSystemRepository].
  unfold FileSystemRepository_FileExists at 1. cbn [fst].
  destruct (os_IsNotExist (snd (result_of (os_Stat _ w)))) eqn:Hex; cbn [negb]; run_simpl.
  { intros [= <- <-]. left. split; reflexivity. }
  destruct (Config.ReplaceOriginal (Config.Scanner config)) eqn:Hrep; cbn [negb]; run_simpl.
  2: destruct (fst (FileSystemRepository_CreateDirectory _ _)) as [cause|] eqn:Hmk; run_simpl.
  2: { intros [= <- <-]. right. exists cause. split; reflexivity. }
  all: unfold scanFiles, failRun, completeRun; run_simpl; rewrite Hfr;
    cbn [FileRepository_ListPDFFiles NewFileSystemRepository];
    rewrite !FileSystemRepository_ListPDFFiles_never_fails.
  all: match goal with |- context [(length ?l =? 0)%nat] => destruct (length l =? 0)%nat end;
    run_simpl; [discriminate|].
  all: unfold compressFiles, failRun; run_simpl; rewrite Hcr;
    cbn [ValidateConfig theConfigRepository fst snd];
    rewrite !NewCompressionConfigWithLicense_Validate; run_simpl.
  all: intros H; apply runPool_result in H as (results & _ & [=]).
Qed.

Lemma Execute_over_the_repositories_witness :
  let uc := realUseCase (fixedCompressor 4) slashJoin (fun _ _ => exampleTree) in
  let config := exampleConfig false 2 3 in
  let w := worldOf [("pdfs", "a file"); ("out", "another file")]%string [] in
  exists cause final,
    result_of (Execute slashPaths uc config (fun l => l) w) =
      Done (Some (ErrWrap "ошибка создания целевой директории" cause), final).
Proof.
  intros uc config w.
  set (run := Execute slashPaths uc config (fun l => l) w).
  set (err := match result_of run with Done (Some e, _) => e | _ => ErrNew "" end).
  set (final := match result_of run with
                | Done (_, f) => f
                | Panic => ProcessingStatus.NewProcessingStatus 0 0
                end).
  assert (E : result_of run = Done (Some err, final)) by (vm_compute; reflexivity).
  destruct (Execute_over_the_repositories slashPaths uc config (fun l => l) w slashJoin
              (fun _ _ => exampleTree) (fun _ _ => 0) err final eq_refl eq_refl E)
    as [[_ H]|(cause & Hc & _)].
  - vm_compute in H. discriminate.
  - exists cause, final. rewrite <- Hc. exact E.
Defined.

(** ** The single-file and the sequential use case *)

Lemma string_app_nil_r (s : string) : s +:+ "" = s.
Proof.
  induction s as [|c s IH]; [reflexivity|].
  change (String c (s +:+ "") = String c s). now rewrite IH.
Qed.

Lemma extScan_suffix (s e : string) :
  extScan s = Some e -> exists p, s = p +:+ e.
Proof.
  revert e. induction s as [|c s IH]; intros e; cbn [extScan]; [discriminate|].
  destruct (extScan s) as [e'|].
  - intros [= <-]. destruct (IH e' eq_refl) as [p Hp]. exists (String c p).
    change (String c s = String c (p +:+ e')). now rewrite <- Hp.
  - destruct (isDot c); [intros [= <-]; exists ""%string; reflexivity|].
    destruct (isPathSeparator c); [|discriminate].
    intros [= <-]. exists (String c s). now rewrite string_app_nil_r.
Qed.

Lemma Ext_suffix (s : string) : exists p, s = p +:+ Ext s.
Proof.
  unfold Ext. destruct (extScan s) as [e|] eqn:E; [now apply extScan_suffix|].
  exists s. now rewrite string_app_nil_r.
Qed.

Lemma substring_prefix (p e : string) :
  String.substring 0 (String.length p) (p +:+ e) = p.
Proof.
  induction p as [|c p IH]; [now destruct e|].
  change (String c (String.substring 0 (String.length p) (p +:+ e)) = String c p).
  now rewrite IH.
Qed.

Lemma compressedName_spec (inputPath : string) :
  exists base,
    inputPath = base +:+ Ext inputPath /\
    compressedName inputPath = base +:+ "_compressed" +:+ Ext inputPath.
Proof.
  destruct (Ext_suffix inputPath) as [p Hp]. exists p. split; [exact Hp|].
  unfold compressedName. cbv zeta. set (ext := Ext inputPath) in *. clearbody ext.
  subst inputPath. rewrite string_length_app, Nat.add_sub, substring_prefix. reflexivity.
Qed.

Lemma compressions_app (a b : list Event) :
  compressions (a ++ b) = compressions a ++ compressions b.
Proof. apply flat_map_app. Qed.

(** X13. [CompressPDFUseCase.Execute]: a missing input gives
    [ErrFileNotFound] and nothing else happens; the errors of the file
    information and of the configuration come before any call of the
    compressor; otherwise the compressor is called exactly once, on the
    input and the given output (or the default name when none is
    given), its error comes back wrapped, and its result is the
    result of that call with the original size put in from the file
    information [GetFileInfo] gave for the input, the ratio and the
    saved space computed from the two sizes; the world is left as the
    compressor left it. Result and error are never both returned, nor
    both nil. *)
Theorem CompressPDF_Execute_outcomes
    (uc : CompressPDFUseCase) (inputPath outputPath : string) (compressionLevel : Z)
    (w : World) :
  let run := CompressPDF_Execute uc inputPath outputPath compressionLevel w in
  let target := if String.eqb outputPath "" then compressedName inputPath else outputPath in
  let stat := GetFileInfo (cp_fileRepo uc) inputPath
                (snd (FileExists (cp_fileRepo uc) inputPath w)) in
  let conf := GetCompressionConfig (cp_configRepo uc) compressionLevel (snd stat) in
  let valid := fun config => ValidateConfig (cp_configRepo uc) config (snd conf) in
  (fst (FileExists (cp_fileRepo uc) inputPath w) = false ->
     run = (Done (None, Some ErrFileNotFound),
            snd (FileExists (cp_fileRepo uc) inputPath w), [])) /\
  (forall e,
     result_of run = Done (None, Some e) ->
     (compressions (events_of run) = [] /\
      (e = ErrFileNotFound \/
       exists cause,
         e = ErrWrap "ошибка получения информации о файле" cause \/
         e = ErrWrap "ошибка создания конфигурации" cause \/
         e = ErrWrap "ошибка валидации конфигурации" cause)) \/
     (compressions (events_of run) = [(inputPath, target)] /\
      In (EvCompress inputPath target (Some match e with ErrWrap _ c => c | _ => e end))
         (events_of run) /\
      exists cause, e = ErrWrap "ошибка сжатия файла" cause)) /\
  (forall res,
     result_of run = Done (Some res, None) ->
     compressions (events_of run) = [(inputPath, target)] /\
     exists raw info config,
       fst (FileExists (cp_fileRepo uc) inputPath w) = true /\
       fst stat = (Some info, None) /\
       fst conf = (Some config, None) /\
       fst (valid config) = None /\
       Compress (cp_compressor uc) inputPath target config (snd (valid config)) =
         ((Some raw, None), world_of run) /\
       res = CompressionResult.CalculateCompressionRatio
               (CompressionResult.set_OriginalSize (PDFDocument.Size info) raw) /\
       CompressionResult.OriginalSize res = PDFDocument.Size info /\
       CompressionResult.CompressedSize res = CompressionResult.CompressedSize raw) /\
  (forall res e, result_of run <> Done (Some res, Some e)) /\
  result_of run <> Done (None, None).
Proof.
  intros run target stat conf valid. subst stat conf valid. cbv beta. split.
  { intros Hex. subst run. unfold CompressPDF_Execute, bind, call.
    destruct (FileExists (cp_fileRepo uc) inputPath w) as [ex w1]. cbn [fst snd] in *.
    subst ex. reflexivity. }
  remember (result_of run) as R eqn:HR. remember (events_of run) as E eqn:HE.
  remember (world_of run) as W eqn:HW.
  subst run. revert HR HE HW.
  unfold CompressPDF_Execute, bind, call, ret, emit, result_of, events_of, world_of.
  destruct (FileExists (cp_fileRepo uc) inputPath w) as [ex w1].
  destruct ex; cbn [negb fst snd app].
  2: { intros -> -> ->. split.
       { intros e [= <-]. left. split; [reflexivity | now left]. }
       repeat split; intros; discriminate. }
  destruct (GetFileInfo (cp_fileRepo uc) inputPath w1) as [[info [e1|]] w2];
    cbn [fst snd app].
  { intros -> -> ->. split; [intros e [= <-]; left; split; [reflexivity | right; eauto]|].
    repeat split; intros; discriminate. }
  destruct (GetCompressionConfig (cp_configRepo uc) compressionLevel w2)
    as [[cfg [e2|]] w3]; cbn [fst snd app].
  { intros -> -> ->. split; [intros e [= <-]; left; split; [reflexivity | right; eauto]|].
    repeat split; intros; discriminate. }
  destruct cfg as [cfg|]; cbn [fst snd app].
  2: { intros -> -> ->. repeat split; intros; discriminate. }
  destruct (ValidateConfig (cp_configRepo uc) cfg w3) as [[e3|] w4] eqn:Ev;
    cbn [fst snd app].
  { intros -> -> ->. split; [intros e [= <-]; left; split; [reflexivity | right; eauto]|].
    repeat split; intros; discriminate. }
  fold target.
  destruct (Compress (cp_compressor uc) inputPath target cfg w4) as [[raw [e4|]] w5] eqn:Ec;
    cbn [fst snd app].
  { intros -> -> ->. split.
    - intros e [= <-]. right. split; [reflexivity|]. split; [now left | eauto].
    - repeat split; intros; discriminate. }
  destruct raw as [raw|], info as [info|]; cbn [fst snd app]; intros -> -> ->.
  2-4: repeat split; intros; discriminate.
  split; [discriminate|]. split.
  - intros res [= <-]. split; [reflexivity|]. exists raw, info, cfg.
    rewrite Ev. cbn [fst snd]. rewrite Ec.
    do 6 (split; [reflexivity|]).
    unfold CompressionResult.CalculateCompressionRatio. cbn.
    destruct (0 <? PDFDocument.Size info); split; reflexivity.
  - split; intros; discriminate.
Qed.

Lemma CompressPDF_Execute_outcomes_witness :
  let uc := {| cp_compressor := fixedCompressor 4;
               cp_fileRepo := NewFileSystemRepository slashJoin (fun _ _ => exampleTree)
                                (fun _ _ => 0);
               cp_configRepo := theConfigRepository |} in
  let w := worldOf [("docs/report.pdf", "0123456789")]%string [] in
  (exists res,
     result_of (CompressPDF_Execute uc "docs/report.pdf" "" 95 w) = Done (Some res, None) /\
     compressions (events_of (CompressPDF_Execute uc "docs/report.pdf" "" 95 w)) =
       [("docs/report.pdf", "docs/report_compressed.pdf")]%string /\
     CompressionResult.OriginalSize res = 10 /\
     CompressionResult.SavedSpace res = 6) /\
  CompressPDF_Execute uc "docs/missing.pdf" "" 50 w =
    (Done (None, Some ErrFileNotFound), w, []).
Proof.
  intros uc w. split.
  - set (run := CompressPDF_Execute uc "docs/report.pdf" "" 95 w).
    set (res := match result_of run with
                | Done (Some r, _) => r
                | _ => CompressionResult.zero
                end).
    assert (E : result_of run = Done (Some res, None)) by (vm_compute; reflexivity).
    exists res. split; [exact E|].
    destruct (CompressPDF_Execute_outcomes uc "docs/report.pdf" "" 95 w)
      as (_ & _ & H & _).
    destruct (H res E) as (Hc & _). split; [exact Hc|]. clear. vm_compute. split; reflexivity.
  - destruct (CompressPDF_Execute_outcomes uc "docs/missing.pdf" "" 50 w) as (H & _).
    exact (H eq_refl).
Defined.

Lemma extScan_app_r (a b e : string) :
  extScan b = Some e -> extScan (a +:+ b) = Some e.
Proof.
  intros H. induction a as [|c a IH]; [exact H|].
  change (extScan (String c (a +:+ b)) = Some e). cbn [extScan]. now rewrite IH.
Qed.

Lemma extScan_app_plain (a b : string) :
  extScan b = None ->
  extScan (a +:+ b) =
  match extScan a with
  | Some EmptyString => Some EmptyString
  | Some e => Some (e +:+ b)
  | None => None
  end.
Proof.
  intros H. induction a as [|c a IH]; [exact H|].
  change (extScan (String c (a +:+ b)) =
          match extScan (String c a) with
          | Some EmptyString => Some EmptyString
          | Some e => Some (e +:+ b)
          | None => None
          end).
  cbn [extScan]. rewrite IH. destruct (extScan a) as [[|d e]|]; try reflexivity.
  destruct (isDot c); [reflexivity|]. destruct (isPathSeparator c); reflexivity.
Qed.

Lemma extScan_Ext (s e : string) :
  extScan s = Some e -> e = EmptyString \/ extScan e = Some e.
Proof.
  revert e. induction s as [|c s IH]; intros e; cbn [extScan]; [discriminate|].
  destruct (extScan s) as [e'|] eqn:E.
  - intros [= <-]. now apply IH.
  - destruct (isDot c) eqn:D.
    + intros [= <-]. right. cbn [extScan]. now rewrite E, D.
    + destruct (isPathSeparator c); [|discriminate]. intros [= <-]. now left.
Qed.

(** X14. The output name [CompressPDFUseCase.Execute] chooses when it is
    given none is the input path with [_compressed] put before its
    extension: eleven bytes longer, so never the input itself, and with
    the same extension, so a PDF exactly when the input is one. *)
Theorem compressedName_keeps_extension (inputPath : string) :
  (exists base,
     inputPath = base +:+ Ext inputPath /\
     compressedName inputPath = base +:+ "_compressed" +:+ Ext inputPath) /\
  String.length (compressedName inputPath) = (String.length inputPath + 11)%nat /\
  Ext (compressedName inputPath) = Ext inputPath /\
  isPDF (compressedName inputPath) = isPDF inputPath.
Proof.
  destruct (compressedName_spec inputPath) as (base & Hp & Hc).
  assert (HE : Ext (compressedName inputPath) = Ext inputPath).
  { rewrite Hc. unfold Ext at 1 3.
    destruct (extScan inputPath) as [e|] eqn:E.
    - assert (He : Ext inputPath = e) by (unfold Ext; now rewrite E).
      rewrite He in *. destruct (extScan_Ext _ _ E) as [->|Hs].
      + rewrite string_app_nil_r in Hp. subst base.
        change ("_compressed" +:+ "")%string with "_compressed"%string.
        rewrite (extScan_app_plain inputPath "_compressed" eq_refl), E. reflexivity.
      + rewrite (extScan_app_r base _ e); [reflexivity|].
        now apply (extScan_app_r "_compressed").
    - assert (He : Ext inputPath = EmptyString) by (unfold Ext; now rewrite E).
      rewrite He in *. rewrite string_app_nil_r in Hp. subst base.
      change ("_compressed" +:+ "")%string with "_compressed"%string.
      rewrite (extScan_app_plain inputPath "_compressed" eq_refl), E. reflexivity. }
  split; [exists base; split; assumption|]. split.
  - rewrite Hc. rewrite Hp at 2. rewrite !string_length_app. cbn [String.length]. lia.
  - split; [exact HE|]. unfold isPDF. now rewrite HE.
Qed.

Lemma compressEach_run fp uc outputDir cfg files :
  forall result w n,
    tallied n result ->
    Z.of_nat n + Z.of_nat (length files) < 2 ^ 63 ->
    let run := compressEach fp uc outputDir cfg files result w in
    Forall (fun io => In (fst io) files /\
                      snd io = filepath_Join fp outputDir
                                 ("compressed_" +:+ filepath_Base fp (fst io)))
           (compressions (events_of run)) /\
    (length (compressions (events_of run)) <= length files)%nat /\
    forall r,
      result_of run = Done r ->
      tallied (n + length files) r /\
      dcr_TotalFiles r = dcr_TotalFiles result /\
      (length (dcr_Results r) <= length (dcr_Results result)
                                 + length (compressions (events_of run)))%nat.
Proof.
  induction files as [|inputFile rest IH]; intros result w n Ht Hlen run; subst run.
  - cbn. split; [constructor|]. split; [lia|]. intros r [= <-].
    rewrite Nat.add_0_r. split; [exact Ht|]. split; [reflexivity | lia].
  - cbn [compressEach length] in *.
    destruct Ht as (Hs & Hf & Hn).
    assert (Hwiden : forall (P : string * string -> Prop) l,
              Forall (fun io => In (fst io) rest /\ P io) l ->
              Forall (fun io => In (fst io) (inputFile :: rest) /\ P io) l).
    { intros P l H. eapply List.Forall_impl; [|exact H]. cbn. intros io [H1 H2]. auto. }
    unfold bind, call, emit.
    destruct (GetFileInfo (cd_fileRepo uc) inputFile w) as [[info [e|]] w1]; cbn [fst snd].
    + match goal with |- context [compressEach fp uc outputDir cfg rest ?res ?w0] =>
        specialize (IH res w0 (S n)) end.
      destruct IH as (I1 & I2 & I3).
      { unfold tallied. cbn. rewrite length_app, Hs, Hf, int64_add_exact;
          unfold in_int64; cbn; lia. }
      { lia. }
      match goal with |- context [compressEach fp uc outputDir cfg rest ?res ?w0] =>
        destruct (compressEach fp uc outputDir cfg rest res w0) as [[r0 w2] ev2] end.
      unfold events_of, result_of in *. cbn [fst snd app] in *.
      split; [apply Hwiden, I1|]. split; [lia|].
      intros r Hr. destruct (I3 r Hr) as (T & Tot & L). cbn in Tot, L.
      replace (n + S (length rest))%nat with (S n + length rest)%nat by lia.
      split; [exact T|]. split; [exact Tot | lia].
    + destruct (Compress (cd_compressor uc) inputFile _ cfg w1) as [[raw [e|]] w2];
        cbn [fst snd].
      * match goal with |- context [compressEach fp uc outputDir cfg rest ?res ?w0] =>
          specialize (IH res w0 (S n)) end.
        destruct IH as (I1 & I2 & I3).
        { unfold tallied. cbn. rewrite length_app, Hs, Hf, int64_add_exact;
            unfold in_int64; cbn; lia. }
        { lia. }
        match goal with |- context [compressEach fp uc outputDir cfg rest ?res ?w0] =>
          destruct (compressEach fp uc outputDir cfg rest res w0) as [[r0 w3] ev3] end.
        unfold events_of, result_of in *. cbn [fst snd app compressions flat_map] in *.
        split; [constructor; [split; [now left | reflexivity] | apply Hwiden, I1]|].
        split; [cbn; lia|].
        intros r Hr. destruct (I3 r Hr) as (T & Tot & L). cbn in Tot, L.
        replace (n + S (length rest))%nat with (S n + length rest)%nat by lia.
        split; [exact T|]. split; [exact Tot | cbn; lia].
      * destruct raw as [raw|], info as [info|]; cbn [fst snd].
        2-4: unfold events_of, result_of; cbn;
          (split; [constructor; [split; [now left | reflexivity] | constructor]|]);
          (split; [lia | discriminate]).
        match goal with |- context [compressEach fp uc outputDir cfg rest ?res ?w0] =>
          specialize (IH res w0 (S n)) end.
        destruct IH as (I1 & I2 & I3).
        { unfold tallied. cbn. rewrite length_app, Hs, Hf, int64_add_exact;
            unfold in_int64; cbn; lia. }
        { lia. }
        match goal with |- context [compressEach fp uc outputDir cfg rest ?res ?w0] =>
          destruct (compressEach fp uc outputDir cfg rest res w0) as [[r0 w3] ev3] end.
        unfold events_of, result_of in *. cbn [fst snd app compressions flat_map] in *.
        split; [constructor; [split; [now left | reflexivity] | apply Hwiden, I1]|].
        split; [cbn; lia|].
        intros r Hr. destruct (I3 r Hr) as (T & Tot & L). cbn in Tot, L.
        rewrite length_app in L. cbn in L.
        replace (n + S (length rest))%nat with (S n + length rest)%nat by lia.
        split; [exact T|]. split; [exact Tot | cbn; lia].
Qed.

(** X15. [CompressDirectoryUseCase.Execute]: every error it returns
    arises before the first call of the compressor; a run that returns
    a result has counted each file once, as a success or as a failure,
    with the counters equal to the lengths of the two lists; and every
    output is [compressed_] and the base name of its input directly
    under the output directory, wherever under the input directory the
    input lies. *)
Theorem CompressDirectory_Execute_outcomes
    (fp : Filepath) (uc : CompressDirectoryUseCase) (inputDir outputDir : string)
    (compressionLevel : Z) (w : World) :
  (forall dir w',
     Z.of_nat (length (fst (fst (FileRepository_ListPDFFiles (cd_fileRepo uc) dir w'))))
     < 2 ^ 63) ->
  let run := CompressDirectory_Execute fp uc inputDir outputDir compressionLevel w in
  (forall e,
     result_of run = Done (None, Some e) ->
     compressions (events_of run) = [] /\
     (e = ErrDirectoryNotFound \/ e = ErrNoFilesFound \/
      exists cause,
        e = ErrWrap "ошибка создания выходной директории" cause \/
        e = ErrWrap "ошибка получения списка файлов" cause \/
        e = ErrWrap "ошибка создания конфигурации" cause \/
        e = ErrWrap "ошибка валидации конфигурации" cause)) /\
  (forall res,
     result_of run = Done (Some res, None) ->
     0 < dcr_TotalFiles res /\
     dcr_SuccessCount res + dcr_FailedCount res = dcr_TotalFiles res /\
     dcr_SuccessCount res = Z.of_nat (length (dcr_Results res)) /\
     dcr_FailedCount res = Z.of_nat (length (dcr_Errors res)) /\
     (length (dcr_Results res) <= length (compressions (events_of run)))%nat /\
     Z.of_nat (length (compressions (events_of run))) <= dcr_TotalFiles res) /\
  Forall (fun io => snd io = filepath_Join fp outputDir
                              ("compressed_" +:+ filepath_Base fp (fst io)))
         (compressions (events_of run)) /\
  (forall res e, result_of run <> Done (Some res, Some e)) /\
  result_of run <> Done (None, None).
Proof.
  intros Hlen run.
  remember (result_of run) as R eqn:HR. remember (events_of run) as E eqn:HE.
  subst run. revert HR HE.
  unfold CompressDirectory_Execute, bind, call, ret.
  destruct (FileExists (cd_fileRepo uc) inputDir w) as [ex w1].
  destruct ex; cbn [negb fst snd app].
  2: { unfold result_of, events_of. cbn. intros -> ->.
       split; [intros e [= <-]; split; [reflexivity | now left]|].
       split; [discriminate|]. split; [constructor|]. split; intros; discriminate. }
  destruct (CreateDirectory (cd_fileRepo uc) outputDir w1) as [[e1|] w2]; cbn [fst snd app].
  { unfold result_of, events_of. cbn. intros -> ->.
    split; [intros e [= <-]; split; [reflexivity | right; right; eauto]|].
    split; [discriminate|]. split; [constructor|]. split; intros; discriminate. }
  pose proof (Hlen inputDir w2) as Hfiles.
  destruct (FileRepository_ListPDFFiles (cd_fileRepo uc) inputDir w2) as [[files [e2|]] w3];
    cbn [fst snd app] in *.
  { unfold result_of, events_of. cbn. intros -> ->.
    split; [intros e [= <-]; split; [reflexivity | right; right; eauto 6]|].
    split; [discriminate|]. split; [constructor|]. split; intros; discriminate. }
  destruct files as [|f files]; cbn [length Nat.eqb].
  { unfold result_of, events_of. cbn. intros -> ->.
    split; [intros e [= <-]; split; [reflexivity | right; now left]|].
    split; [discriminate|]. split; [constructor|]. split; intros; discriminate. }
  destruct (GetCompressionConfig (cd_configRepo uc) compressionLevel w3)
    as [[cfg [e3|]] w4]; cbn [fst snd app].
  { unfold result_of, events_of. cbn. intros -> ->.
    split; [intros e [= <-]; split; [reflexivity | right; right; eauto 6]|].
    split; [discriminate|]. split; [constructor|]. split; intros; discriminate. }
  destruct cfg as [cfg|].
  2: { unfold result_of, events_of. cbn. intros -> ->.
       split; [discriminate|]. split; [discriminate|]. split; [constructor|].
       split; intros; discriminate. }
  destruct (ValidateConfig (cd_configRepo uc) cfg w4) as [[e4|] w5]; cbn [fst snd app].
  { unfold result_of, events_of. cbn. intros -> ->.
    split; [intros e [= <-]; split; [reflexivity | right; right; eauto 8]|].
    split; [discriminate|]. split; [constructor|]. split; intros; discriminate. }
  match goal with |- context [compressEach fp uc outputDir cfg ?fs ?res ?w0] =>
    destruct (compressEach_run fp uc outputDir cfg fs res w0 0%nat) as (C1 & C2 & C3);
    [ unfold tallied; cbn; auto | cbn [length Z.of_nat] in *; lia | ];
    destruct (compressEach fp uc outputDir cfg fs res w0) as [[r0 w6] ev] end.
  unfold result_of, events_of in *. cbn [fst snd] in *.
  destruct r0 as [res0|]; cbn [fst snd app]; intros -> ->; rewrite ?app_nil_r.
  - split; [discriminate|]. split.
    + intros res [= <-]. destruct (C3 res0 eq_refl) as ((Ts & Tf & Tn) & Tot & L).
      cbn [dcr_TotalFiles dcr_Results length Nat.add] in *.
      rewrite Ts, Tf, Tot. repeat split; try lia.
    + split; [eapply List.Forall_impl; [|exact C1]; cbn; tauto|].
      split; intros; discriminate.
  - split; [discriminate|]. split; [discriminate|].
    split; [eapply List.Forall_impl; [|exact C1]; cbn; tauto|].
    split; intros; discriminate.
Qed.

Lemma CompressDirectory_Execute_outcomes_witness :
  let uc := {| cd_compressor := fixedCompressor 4;
               cd_fileRepo := listingRepo ["pdfs/a/x.pdf"; "pdfs/b/x.pdf"; "pdfs/gone.pdf"]%string;
               cd_configRepo := theConfigRepository |} in
  let w := worldOf [("pdfs/a/x.pdf", "0123456789"); ("pdfs/b/x.pdf", "01234")]%string [] in
  let run := CompressDirectory_Execute slashPaths uc "pdfs" "out" 50 w in
  exists res,
    result_of run = Done (Some res, None) /\
    dcr_TotalFiles res = 3 /\ dcr_SuccessCount res = 2 /\ dcr_FailedCount res = 1 /\
    compressions (events_of run) =
      [("pdfs/a/x.pdf", "out/compressed_x.pdf"); ("pdfs/b/x.pdf", "out/compressed_x.pdf")]%string /\
    dcr_SuccessCount res + dcr_FailedCount res = dcr_TotalFiles res.
Proof.
  intros uc w run.
  set (res := match result_of run with
              | Done (Some r, _) => r
              | _ => {| dcr_TotalFiles := 0; dcr_SuccessCount := 0; dcr_FailedCount := 0;
                        dcr_Results := []; dcr_Errors := [] |}
              end).
  assert (E : result_of run = Done (Some res, None)) by (vm_compute; reflexivity).
  exists res. split; [exact E|].
  assert (Hlen : forall dir w',
            Z.of_nat (length (fst (fst (FileRepository_ListPDFFiles (cd_fileRepo uc) dir w'))))
            < 2 ^ 63) by (intros dir w'; cbn; lia).
  destruct (CompressDirectory_Execute_outcomes slashPaths uc "pdfs" "out" 50 w Hlen)
    as (_ & H & _).
  destruct (H res E) as (_ & Hsum & _).
  repeat split; try exact Hsum; vm_compute; reflexivity.
Defined.

(** ** The file logger *)

Lemma levels_lookup (s : string) :
  FileLogger.levels !! s =
  if String.eqb s "debug" then Some 0
  else if String.eqb s "info" then Some 1
  else if String.eqb s "warning" then Some 2
  else if String.eqb s "error" then Some 3
  else None.
Proof.
  unfold FileLogger.levels.
  destruct (String.eqb_spec s "debug") as [->|H1]; [reflexivity|].
  rewrite lookup_insert_ne by congruence.
  destruct (String.eqb_spec s "info") as [->|H2]; [reflexivity|].
  rewrite lookup_insert_ne by congruence.
  destruct (String.eqb_spec s "warning") as [->|H3]; [reflexivity|].
  rewrite lookup_insert_ne by congruence.
  destruct (String.eqb_spec s "error") as [->|H4]; [reflexivity|].
  rewrite lookup_insert_ne by congruence. apply lookup_empty.
Qed.

Lemma shouldLog_known (l : FileLogger.t) :
  let rank := match FileLogger.levels !! FileLogger.logLevel l with
              | Some n => n
              | None => 1
              end in
  FileLogger.shouldLog l "debug" = (rank <=? 0) /\
  FileLogger.shouldLog l "info" = (rank <=? 1) /\
  FileLogger.shouldLog l "warning" = (rank <=? 2) /\
  FileLogger.shouldLog l "error" = (rank <=? 3) /\
  (FileLogger.logLevel l = "debug"%string /\ rank = 0 \/
   FileLogger.logLevel l = "info"%string /\ rank = 1 \/
   FileLogger.logLevel l = "warning"%string /\ rank = 2 \/
   FileLogger.logLevel l = "error"%string /\ rank = 3 \/
   ~ In (FileLogger.logLevel l) ["debug"; "info"; "warning"; "error"]%string /\ rank = 1).
Proof.
  intros rank. unfold FileLogger.shouldLog. fold rank.
  rewrite !(levels_lookup "debug"), !(levels_lookup "info"), !(levels_lookup "warning"),
    !(levels_lookup "error").
  cbn [String.eqb Ascii.eqb Bool.eqb].
  do 4 (split; [reflexivity|]).
  subst rank. rewrite levels_lookup.
  destruct (String.eqb_spec (FileLogger.logLevel l) "debug") as [->|H1]; [now left|].
  destruct (String.eqb_spec (FileLogger.logLevel l) "info") as [->|H2]; [right; now left|].
  destruct (String.eqb_spec (FileLogger.logLevel l) "warning") as [->|H3];
    [right; right; now left|].
  destruct (String.eqb_spec (FileLogger.logLevel l) "error") as [->|H4];
    [right; right; right; now left|].
  right; right; right; right. split; [|reflexivity]. cbn. intuition congruence.
Qed.

(** X16. [FileLogger]: errors are logged at every level; warnings
    unless the level is error; info and success lines unless it is
    warning or error; debug lines only at level debug; a message level
    outside the four is never logged; and a logger whose own level is
    not one of the four behaves as at level info. *)
Theorem FileLogger_thresholds (l : FileLogger.t) (message : string) :
  FileLogger.shouldLog l "error" = true /\
  (FileLogger.shouldLog l "debug" = true <-> FileLogger.logLevel l = "debug"%string) /\
  (FileLogger.shouldLog l "info" = true <->
     FileLogger.logLevel l <> "warning"%string /\ FileLogger.logLevel l <> "error"%string) /\
  (FileLogger.shouldLog l "warning" = true <-> FileLogger.logLevel l <> "error"%string) /\
  (forall level,
     ~ In level ["debug"; "info"; "warning"; "error"]%string ->
     FileLogger.shouldLog l level = false) /\
  (~ In (FileLogger.logLevel l) ["debug"; "info"; "warning"; "error"]%string ->
   forall level,
     FileLogger.shouldLog l level =
     FileLogger.shouldLog {| FileLogger.logger := FileLogger.logger l;
                             FileLogger.logLevel := "info" |} level) /\
  (FileLogger.Success l message = [] <-> FileLogger.Info l message = []) /\
  (FileLogger.logger l = true ->
   FileLogger.Error l message = [("[ERROR] " +:+ message)%string]).
Proof.
  destruct (shouldLog_known l) as (Hd & Hi & Hw & He & Hrank).
  set (rank := match FileLogger.levels !! FileLogger.logLevel l with
               | Some n => n
               | None => 1
               end) in *.
  assert (Hr : 0 <= rank <= 3) by (destruct Hrank as [[_ ->]|[[_ ->]|[[_ ->]|[[_ ->]|[_ ->]]]]]; lia).
  split; [rewrite He; apply Z.leb_le; lia|].
  split.
  { rewrite Hd, Z.leb_le. split.
    - intros H. destruct Hrank as [[E _]|[[_ E]|[[_ E]|[[_ E]|[_ E]]]]]; auto; lia.
    - intros E. destruct Hrank as [[_ R]|[[E' _]|[[E' _]|[[E' _]|[N _]]]]]; try lia;
        try congruence. exfalso. apply N. rewrite E. now left. }
  split.
  { rewrite Hi, Z.leb_le. split.
    - intros H. destruct Hrank as [[E _]|[[E _]|[[_ R]|[[_ R]|[N _]]]]]; try lia;
        try (rewrite E; split; discriminate).
      split; intros E; apply N; rewrite E; cbn; tauto.
    - intros [N1 N2]. destruct Hrank as [[_ R]|[[_ R]|[[E _]|[[E _]|[_ R]]]]]; try lia;
        congruence. }
  split.
  { rewrite Hw, Z.leb_le. split.
    - intros H. destruct Hrank as [[E _]|[[E _]|[[E _]|[[_ R]|[N _]]]]]; try lia;
        try (rewrite E; discriminate).
      intros E; apply N; rewrite E; cbn; tauto.
    - intros N1. destruct Hrank as [[_ R]|[[_ R]|[[_ R]|[[E _]|[_ R]]]]]; try lia;
        congruence. }
  split.
  { intros level Hn. unfold FileLogger.shouldLog. rewrite (levels_lookup level).
    repeat match goal with
           | |- context [String.eqb level ?s] =>
               destruct (String.eqb_spec level s) as [->|?];
               [exfalso; apply Hn; cbn; tauto|]
           end. reflexivity. }
  split.
  { intros Hn level. unfold FileLogger.shouldLog. cbn [FileLogger.logLevel].
    rewrite (levels_lookup (FileLogger.logLevel l)), (levels_lookup "info").
    cbn [String.eqb Ascii.eqb Bool.eqb].
    repeat match goal with
           | |- context [String.eqb (FileLogger.logLevel l) ?s] =>
               destruct (String.eqb_spec (FileLogger.logLevel l) s) as [E|?];
               [exfalso; apply Hn; rewrite E; cbn; tauto|]
           end. reflexivity. }
  split.
  { unfold FileLogger.Success, FileLogger.Info, FileLogger.writeLog.
    destruct (FileLogger.shouldLog l "info"), (FileLogger.logger l);
      split; intros; (reflexivity || discriminate). }
  intros Hlg. unfold FileLogger.Error, FileLogger.writeLog.
  rewrite He, Hlg. replace (rank <=? 3) with true by (symmetry; apply Z.leb_le; lia).
  reflexivity.
Qed.

Lemma FileLogger_thresholds_witness :
  let l := {| FileLogger.logger := true; FileLogger.logLevel := "verbose" |} in
  FileLogger.Error l "disk full" = ["[ERROR] disk full"%string] /\
  FileLogger.shouldLog l "debug" = false /\
  FileLogger.shouldLog l "info" = true /\
  FileLogger.shouldLog l "success" = false.
Proof.
  intros l.
  destruct (FileLogger_thresholds l "disk full") as (_ & _ & _ & _ & H5 & H6 & _ & H8).
  split; [exact (H8 eq_refl)|].
  assert (Hn : ~ In (FileLogger.logLevel l) ["debug"; "info"; "warning"; "error"]%string).
  { cbn. intros [H|[H|[H|[H|[]]]]]; discriminate. }
  rewrite !(H6 Hn). split; [vm_compute; reflexivity|]. split; [vm_compute; reflexivity|].
  vm_compute. reflexivity.
Defined.

(** ** Images and all file types *)

Lemma GetImageFormat_cases (filename : string) :
  let ext := lowerExt filename in
  ((ext = ".jpg" \/ ext = ".jpeg")%string /\
   GetImageFormat filename = "jpeg"%string /\ IsImageFile filename = true) \/
  (ext = ".png"%string /\
   GetImageFormat filename = "png"%string /\ IsImageFile filename = true) \/
  (ext <> ".jpg" /\ ext <> ".jpeg" /\ ext <> ".png")%string /\
  GetImageFormat filename = ""%string /\ IsImageFile filename = false.
Proof.
  intros ext. unfold GetImageFormat, IsImageFile. fold ext.
  destruct (String.eqb_spec ext ".jpg") as [E1|N1]; [left; auto|].
  destruct (String.eqb_spec ext ".jpeg") as [E2|N2]; [left; auto|].
  destruct (String.eqb_spec ext ".png") as [E3|N3]; [right; left; auto|].
  right; right. auto.
Qed.

(** X17. [IsFileSupported] takes a file exactly when its extension, in
    lower case, belongs to a type that [GetSupportedFileTypes] lists:
    .pdf with PDF, .jpg and .jpeg with JPEG, .png with PNG; PDF is
    listed when an algorithm is set, JPEG and PNG when they are
    enabled. [IsImageFile] holds exactly when [GetImageFormat] names a
    format. *)
Theorem IsFileSupported_agrees_with_GetSupportedFileTypes
    (config : AppConfig.t) (filename : string) :
  let ext := lowerExt filename in
  let types := GetSupportedFileTypes config in
  (IsFileSupported config filename = true <->
     (ext = ".pdf"%string /\ In "PDF"%string types) \/
     ((ext = ".jpg" \/ ext = ".jpeg")%string /\ In "JPEG"%string types) \/
     (ext = ".png"%string /\ In "PNG"%string types)) /\
  (IsImageFile filename = true <-> GetImageFormat filename <> ""%string) /\
  (In "PDF"%string types <->
     AppCompressionConfig.Algorithm (AppConfig.Compression config) <> ""%string) /\
  (In "JPEG"%string types <->
     AppCompressionConfig.EnableJPEG (AppConfig.Compression config) = true) /\
  (In "PNG"%string types <->
     AppCompressionConfig.EnablePNG (AppConfig.Compression config) = true).
Proof.
  intros ext types.
  assert (HP : In "PDF"%string types <->
               AppCompressionConfig.Algorithm (AppConfig.Compression config) <> ""%string).
  { subst types. unfold GetSupportedFileTypes, shouldProcessPDFs.
    destruct (String.eqb_spec (AppCompressionConfig.Algorithm (AppConfig.Compression config)) "");
      destruct (AppCompressionConfig.EnableJPEG (AppConfig.Compression config)),
               (AppCompressionConfig.EnablePNG (AppConfig.Compression config));
      cbn; split; intros H; try tauto;
      repeat (destruct H as [H|H]; try discriminate; try contradiction). }
  assert (HJ : In "JPEG"%string types <->
               AppCompressionConfig.EnableJPEG (AppConfig.Compression config) = true).
  { subst types. unfold GetSupportedFileTypes.
    destruct (shouldProcessPDFs config),
             (AppCompressionConfig.EnableJPEG (AppConfig.Compression config)),
             (AppCompressionConfig.EnablePNG (AppConfig.Compression config));
      cbn; split; intros H; try tauto; try discriminate;
      repeat (destruct H as [H|H]; try discriminate; try contradiction). }
  assert (HG : In "PNG"%string types <->
               AppCompressionConfig.EnablePNG (AppConfig.Compression config) = true).
  { subst types. unfold GetSupportedFileTypes.
    destruct (shouldProcessPDFs config),
             (AppCompressionConfig.EnableJPEG (AppConfig.Compression config)),
             (AppCompressionConfig.EnablePNG (AppConfig.Compression config));
      cbn; split; intros H; try tauto; try discriminate;
      repeat (destruct H as [H|H]; try discriminate; try contradiction). }
  split; [|split; [|tauto]].
  - rewrite HP, HJ, HG. clear HP HJ HG types.
    unfold IsFileSupported, shouldProcessPDFs. fold ext.
    destruct (GetImageFormat_cases filename) as [(He & -> & ->)|[(He & -> & ->)|(He & -> & ->)]];
      fold ext in He; cbn [String.eqb Ascii.eqb Bool.eqb].
    + assert (Hn : ext <> ".pdf"%string) by (destruct He as [-> | ->]; discriminate).
      destruct (String.eqb_spec ext ".pdf") as [E|_]; [contradiction|]. cbn [andb].
      split; [intros H; right; left; auto|].
      intros [[E _]|[[_ H]|[E _]]]; [contradiction | exact H |].
      destruct He as [E'|E']; rewrite E' in E; discriminate.
    + assert (Hn : ext <> ".pdf"%string) by (rewrite He; discriminate).
      destruct (String.eqb_spec ext ".pdf") as [E|_]; [contradiction|]. cbn [andb].
      split; [intros H; right; right; auto|].
      intros [[E _]|[[[E|E] _]|[_ H]]]; try contradiction; try exact H;
        rewrite He in E; discriminate.
    + destruct He as (N1 & N2 & N3).
      destruct (String.eqb_spec ext ".pdf") as [E|N]; cbn [andb].
      * destruct (String.eqb_spec (AppCompressionConfig.Algorithm
                                     (AppConfig.Compression config)) "") as [Ea|Na];
          cbn [negb]; split; intros H; try discriminate; tauto.
      * split; [discriminate|]. intros [[H _]|[[[H|H] _]|[H _]]]; contradiction.
  - destruct (GetImageFormat_cases filename) as [(_ & -> & ->)|[(_ & -> & ->)|(_ & -> & ->)]];
      split; intros H; try discriminate; try reflexivity; congruence.
Qed.

(** X18. [CompressImage] fails on a file that is not an image without
    calling a compressor; a .jpg or .jpeg goes to [CompressJPEG] with
    the JPEG quality and a .png to [CompressPNG] with the PNG quality,
    whose answer is returned as it is; a format that is disabled is
    skipped with one log line and no error. *)
Theorem CompressImage_dispatch
    (uc : CompressImageUseCase) (inputPath outputPath : string)
    (config : AppCompressionConfig.t) (w : World) :
  let run := CompressImage uc inputPath outputPath config w in
  let ext := lowerExt inputPath in
  let skipped (kind : string) :=
    if ci_logger uc
    then (Done None, w,
          [EvLog LInfo ("Пропуск " +:+ kind +:+ " файла (сжатие отключено): " +:+ inputPath)])
    else (Panic, w, []) in
  (IsImageFile inputPath = false ->
     run = (Done (Some (ErrNew ("неподдерживаемый формат изображения: " +:+ inputPath))),
            w, [])) /\
  ((ext = ".jpg" \/ ext = ".jpeg")%string ->
     run =
       if AppCompressionConfig.EnableJPEG config
       then
         let r := CompressJPEG (ci_compressor uc) inputPath outputPath
                    (AppCompressionConfig.JPEGQuality config) w in
         (Done (fst r), snd r, [])
       else skipped "JPEG"%string) /\
  (ext = ".png"%string ->
     run =
       if AppCompressionConfig.EnablePNG config
       then
         let r := CompressPNG (ci_compressor uc) inputPath outputPath
                    (AppCompressionConfig.PNGQuality config) w in
         (Done (fst r), snd r, [])
       else skipped "PNG"%string).
Proof.
  intros run ext skipped. subst run skipped. unfold CompressImage.
  destruct (GetImageFormat_cases inputPath) as [(He & -> & ->)|[(He & -> & ->)|(He & -> & ->)]];
    fold ext in He; cbn [String.eqb Ascii.eqb Bool.eqb].
  - split; [discriminate|]. split.
    + intros _. destruct (AppCompressionConfig.EnableJPEG config); cbn [negb].
      * unfold bind, call, ret.
        destruct (CompressJPEG _ _ _ _ _) as [r w1]. reflexivity.
      * destruct (ci_logger uc); reflexivity.
    + intros E. destruct He as [E'|E']; rewrite E' in E; discriminate.
  - split; [discriminate|]. split.
    + intros [E|E]; rewrite He in E; discriminate.
    + intros _. destruct (AppCompressionConfig.EnablePNG config); cbn [negb].
      * unfold bind, call, ret.
        destruct (CompressPNG _ _ _ _ _) as [r w1]. reflexivity.
      * destruct (ci_logger uc); reflexivity.
  - destruct He as (N1 & N2 & N3). split; [reflexivity|].
    split; [intros [E|E]; contradiction | intros E; contradiction].
Qed.

Lemma CompressImage_dispatch_witness :
  let never := fun (_ _ : string) (_ : Z) (w : World) => (Some (ErrNew "not expected"), w) in
  let uc := {| ci_logger := true;
               ci_compressor := {| CompressJPEG := never; CompressPNG := never |} |} in
  let config := {| AppCompressionConfig.Level := 50;
                   AppCompressionConfig.Algorithm := "pdfcpu";
                   AppCompressionConfig.AutoStart := false;
                   AppCompressionConfig.UniPDFLicenseKey := "";
                   AppCompressionConfig.EnableJPEG := true;
                   AppCompressionConfig.EnablePNG := false;
                   AppCompressionConfig.JPEGQuality := 30;
                   AppCompressionConfig.PNGQuality := 25 |} in
  result_of (CompressImage uc "scans/Page.PNG" "out/Page.PNG" config (worldOf [] [])) =
    Done None /\
  CompressImage uc "notes.txt" "out/notes.txt" config (worldOf [] []) =
    (Done (Some (ErrNew "неподдерживаемый формат изображения: notes.txt")), worldOf [] [], []).
Proof.
  intros never uc config.
  destruct (CompressImage_dispatch uc "scans/Page.PNG" "out/Page.PNG" config (worldOf [] []))
    as (_ & _ & H).
  destruct (CompressImage_dispatch uc "notes.txt" "out/notes.txt" config (worldOf [] []))
    as (H0 & _).
  split; [rewrite (H eq_refl); reflexivity | exact (H0 eq_refl)].
Defined.

Lemma logFailed_run (failed : list ProcessingError) (w : World) :
  logFailed failed w =
  (tt, w, repeat (EvLog LError "Не удалось обработать изображение %s: %v") (length failed)).
Proof.
  induction failed as [|f rest IH]; [reflexivity|].
  cbn [logFailed length repeat]. unfold bind, emit. rewrite IH. reflexivity.
Qed.

(** X19. [ProcessAllFilesUseCase.Execute]: with neither an algorithm
    nor an image format selected it fails without touching anything;
    an error of the PDF run comes back wrapped and ends the run before
    the images; a run that returns nil has processed at least one type
    of file, and the PDFs without an error when they were selected; and
    its only errors are these three. *)
Theorem ProcessAllFiles_Execute_outcomes
    (fp : Filepath) (uc : ProcessAllFilesUseCase) (config : AppConfig.t)
    (arrival : list CompressionResult.t -> list CompressionResult.t) (w : World) :
  let run := ProcessAllFiles_Execute fp uc config arrival w in
  let pdf := Execute fp (pdfProcessor uc) (AppConfig.pipeline config) arrival w in
  let greeting := [EvLog LInfo "Начинаем обработку файлов";
                   EvLog LInfo "Исходная директория: %s"] in
  (pa_logger uc = false -> run = (Panic, w, [])) /\
  (pa_logger uc = true ->
   (shouldProcessPDFs config = false -> shouldProcessImages config = false ->
      run = (Done (Some (ErrNew "не выбрано ни одного типа файлов для обработки")), w,
             greeting ++ [EvLog LWarning "Не выбрано ни одного типа файлов для обработки"])) /\
   (forall err status,
      shouldProcessPDFs config = true ->
      result_of pdf = Done (Some err, status) ->
      run = (Done (Some (ErrWrap "ошибка обработки PDF файлов" err)), world_of pdf,
             greeting ++ [EvLog LInfo "Обработка PDF файлов..."] ++ events_of pdf
             ++ [EvLog LError "Ошибка обработки PDF файлов: %v"])) /\
   (result_of run = Done None ->
      (shouldProcessPDFs config = true \/ shouldProcessImages config = true) /\
      (shouldProcessPDFs config = true -> exists status, result_of pdf = Done (None, status))) /\
   (forall e,
      result_of run = Done (Some e) ->
      e = ErrNew "не выбрано ни одного типа файлов для обработки" \/
      exists cause,
        e = ErrWrap "ошибка обработки PDF файлов" cause \/
        e = ErrWrap "ошибка обработки изображений" cause)).
Proof.
  intros run pdf greeting. subst run greeting.
  unfold ProcessAllFiles_Execute.
  split; [intros ->; reflexivity|]. intros ->. cbn [negb].
  unfold processImages, finishAll, bind, emit, ret, result_of, world_of, events_of in *.
  destruct (shouldProcessPDFs config).
  - subst pdf. destruct (Execute fp (pdfProcessor uc) (AppConfig.pipeline config) arrival w)
      as [[[[[err|] status]|] w1] ev]; cbn [fst snd app].
    + split; [discriminate|]. split; [intros e st _ [= <- <-]; reflexivity|].
      split; [discriminate|]. intros e [= <-]. right. eauto.
    + split; [discriminate|]. split; [intros e st _ [=]|].
      destruct (shouldProcessImages config).
      * destruct (imageProcessor uc _ _ _ _ w1) as [[[[r [e|]]|] w2] ev2]; cbn [fst snd app].
        { split; [discriminate|]. intros e' [= <-]. right. eauto. }
        { rewrite logFailed_run. cbn [negb andb fst snd app].
          split; [intros _; split; [now left | intros _; eauto]|]. discriminate. }
        split; discriminate.
      * cbn [negb andb fst snd app].
        split; [intros _; split; [now left | intros _; eauto]|]. discriminate.
    + split; [discriminate|]. split; [intros e st _ [=]|].
      split; discriminate.
  - split.
    { intros _ ->. reflexivity. }
    split; [discriminate|].
    destruct (shouldProcessImages config).
    + destruct (imageProcessor uc _ _ _ _ w) as [[[[r [e|]]|] w2] ev2]; cbn [fst snd app].
      { split; [discriminate|]. intros e' [= <-]. right. eauto. }
      { rewrite logFailed_run. cbn [negb andb fst snd app].
        split; [intros _; split; [now right | discriminate]|]. discriminate. }
      split; discriminate.
    + cbn [negb andb fst snd app]. split; [discriminate|]. intros e [= <-]. now left.
Qed.

Lemma ProcessAllFiles_Execute_outcomes_witness :
  let images := fun (_ _ : string) (_ : AppCompressionConfig.t) (_ : bool) (w : World) =>
    (Done ({| pr_ProcessedFiles := []; pr_FailedFiles := [];
              pr_SuccessfulFiles := 0; pr_TotalFiles := 0 |}, @None error), w, @nil Event) in
  let uc := {| pdfProcessor := exampleUseCase (fixedCompressor 4) [];
               imageProcessor := images; pa_logger := true |} in
  let config := {| AppConfig.Scanner := Config.Scanner (exampleConfig false 2 3);
                   AppConfig.Compression :=
                     {| AppCompressionConfig.Level := 50;
                        AppCompressionConfig.Algorithm := "";
                        AppCompressionConfig.AutoStart := false;
                        AppCompressionConfig.UniPDFLicenseKey := "";
                        AppCompressionConfig.EnableJPEG := false;
                        AppCompressionConfig.EnablePNG := false;
                        AppCompressionConfig.JPEGQuality := 30;
                        AppCompressionConfig.PNGQuality := 25 |};
                   AppConfig.Processing := Config.Processing (exampleConfig false 2 3) |} in
  let w := worldOf [("pdfs/a.pdf", "0123456789")]%string [] in
  ProcessAllFiles_Execute slashPaths uc config (fun rs => rs) w =
    (Done (Some (ErrNew "не выбрано ни одного типа файлов для обработки")), w,
     [EvLog LInfo "Начинаем обработку файлов";
      EvLog LInfo "Исходная директория: %s";
      EvLog LWarning "Не выбрано ни одного типа файлов для обработки"]).
Proof.
  intros images uc config w.
  destruct (ProcessAllFiles_Execute_outcomes slashPaths uc config (fun rs => rs) w)
    as (_ & H).
  destruct (H eq_refl) as (H0 & _).
  exact (H0 eq_refl eq_refl).
Defined.

(** ** float64: the sign of a rounded result *)

Lemma Zdigits2_bounds (m : Z) :
  0 < m -> 2 ^ (Zdigits2 m - 1) <= m < 2 ^ Zdigits2 m.
Proof. destruct m as [|p|p]; try lia. intros _. apply digits2_pos_bounds. Qed.

Lemma Zdigits2_lower (m k : Z) : 0 <= k -> 2 ^ k <= m -> k + 1 <= Zdigits2 m.
Proof.
  intros Hk Hm. assert (Hpos : 0 < m) by (pose proof (Z.pow_pos_nonneg 2 k); lia).
  destruct (Zdigits2_bounds m Hpos) as [_ Hhi].
  destruct (Z_lt_le_dec k (Zdigits2 m)) as [H|H]; [lia|].
  assert (2 ^ Zdigits2 m <= 2 ^ k) by (apply Z.pow_le_mono_r; lia). lia.
Qed.

Lemma Zdigits2_pos (m : Z) : 0 < m -> 0 < Zdigits2 m.
Proof. destruct m; cbn; lia. Qed.

Lemma shr_1_m (r : shr_record) : 0 <= shr_m r -> shr_m (shr_1 r) = shr_m r / 2.
Proof.
  destruct r as [m rb sb]. cbn [shr_m]. intros Hm.
  destruct m as [|[p|p|]|p]; cbn [shr_1 shr_m]; try lia.
  - reflexivity.
  - change (Zpos p~1) with (2 * Zpos p + 1). apply Z.div_unique with 1; lia.
  - change (Zpos p~0) with (2 * Zpos p). apply Z.div_unique with 0; lia.
  - reflexivity.
Qed.

Lemma iter_shr_1_m (n : nat) (r : shr_record) :
  0 <= shr_m r ->
  shr_m (Nat.iter n shr_1 r) = shr_m r / 2 ^ Z.of_nat n.
Proof.
  intros Hm. induction n as [|n IH]; [cbn; now rewrite Z.div_1_r|].
  change (Nat.iter (S n) shr_1 r) with (shr_1 (Nat.iter n shr_1 r)).
  rewrite shr_1_m, IH.
  - rewrite Z.div_div by (try apply Z.pow_pos_nonneg; lia).
    rewrite Nat2Z.inj_succ, Z.pow_succ_r by lia. f_equal. lia.
  - rewrite IH. apply Z.div_pos; [lia | apply Z.pow_pos_nonneg; lia].
Qed.

Lemma shr_record_of_loc_m (m : Z) (l : location) : shr_m (shr_record_of_loc m l) = m.
Proof. destruct l as [|[]]; reflexivity. Qed.

(** A mantissa above the smallest subnormal is not shifted away. *)
Lemma shr_fexp_positive (m e : Z) (l : location) :
  0 < m -> -1074 < Zdigits2 m + e ->
  0 < shr_m (fst (shr_fexp 53 1024 m e l)) /\
  Zdigits2 m + e <= Zdigits2 (shr_m (fst (shr_fexp 53 1024 m e l)))
                    + snd (shr_fexp 53 1024 m e l).
Proof.
  intros Hm HD. unfold shr_fexp, shr.
  set (D := Zdigits2 m + e) in *.
  assert (Hf : fexp 53 1024 D <= D - 1) by (unfold fexp, emin; lia).
  destruct (fexp 53 1024 D - e) as [|p|p] eqn:Hn; cbn [fst snd];
    rewrite ?shr_record_of_loc_m; try (split; lia).
  rewrite iter_pos_nat, iter_shr_1_m by (rewrite shr_record_of_loc_m; lia).
  rewrite shr_record_of_loc_m, positive_nat_Z.
  destruct (Zdigits2_bounds m Hm) as [Hlo _].
  pose proof (Zdigits2_pos m Hm) as Hd.
  assert (Hk : 0 <= Zdigits2 m - 1 - Zpos p) by (subst D; lia).
  assert (Hq : 2 ^ (Zdigits2 m - 1 - Zpos p) <= m / 2 ^ Zpos p).
  { apply Z.div_le_lower_bound; [apply Z.pow_pos_nonneg; lia|].
    rewrite <- Z.pow_add_r by lia.
    replace (Zpos p + (Zdigits2 m - 1 - Zpos p)) with (Zdigits2 m - 1) by lia. exact Hlo. }
  split.
  - pose proof (Z.pow_pos_nonneg 2 (Zdigits2 m - 1 - Zpos p)). lia.
  - pose proof (Zdigits2_lower _ _ Hk Hq). subst D. lia.
Qed.

Lemma round_nearest_even_ge (m : Z) (l : location) : m <= round_nearest_even m l.
Proof. destruct l as [|[]]; cbn; try lia. destruct (Z.even m); lia. Qed.

Lemma Zdigits2_mono (a b : Z) : 0 < a -> a <= b -> Zdigits2 a <= Zdigits2 b.
Proof.
  intros Ha Hab. destruct (Zdigits2_bounds a Ha) as [Hlo _].
  pose proof (Zdigits2_pos a Ha).
  pose proof (Zdigits2_lower b (Zdigits2 a - 1) ltac:(lia) ltac:(lia)). lia.
Qed.

(** Rounding a positive mantissa above the smallest subnormal gives a
    number of the same sign, not a zero. *)
Lemma binary_round_aux_positive (s : bool) (mx ex : Z) (lx : location) :
  0 < mx -> -1074 < Zdigits2 mx + ex ->
  binary_round_aux 53 1024 s mx ex lx = S754_infinity s \/
  exists m e,
    binary_round_aux 53 1024 s mx ex lx = S754_finite s m e /\
    Zdigits2 mx + ex <= Zpos (digits2_pos m) + e.
Proof.
  intros Hm HD. unfold binary_round_aux.
  destruct (shr_fexp_positive mx ex lx Hm HD) as [H1 H2].
  destruct (shr_fexp 53 1024 mx ex lx) as [r1 e1]. cbn [fst snd] in *.
  set (m1 := round_nearest_even (shr_m r1) (loc_of_shr_record r1)).
  assert (Hm1 : shr_m r1 <= m1) by apply round_nearest_even_ge.
  assert (Hd1 : Zdigits2 (shr_m r1) <= Zdigits2 m1) by (apply Zdigits2_mono; lia).
  destruct (shr_fexp_positive m1 e1 loc_Exact ltac:(lia) ltac:(lia)) as [H3 H4].
  destruct (shr_fexp 53 1024 m1 e1 loc_Exact) as [r2 e2]. cbn [fst snd] in *.
  destruct (shr_m r2) as [|m|m]; try lia.
  destruct (e2 <=? 1024 - 53); [|now left].
  right. exists m, e2. split; [reflexivity|]. cbn [Zdigits2] in H4. lia.
Qed.

Lemma binary_round_aux_signed (s : bool) (m e : Z) (l : location) :
  signed s (binary_round_aux 53 1024 s m e l).
Proof.
  unfold binary_round_aux. destruct (shr_fexp 53 1024 m e l) as [r1 e1].
  destruct (shr_fexp 53 1024 _ e1 loc_Exact) as [r2 e2].
  destruct (shr_m r2); cbn; auto. destruct (e2 <=? 1024 - 53); reflexivity.
Qed.

Lemma f64_of_int_negative (p : positive) : signed true (f64_of_int (Zneg p)).
Proof.
  unfold f64_of_int. cbn [binary_normalize]. unfold binary_round.
  destruct (shl_align p 0 _) as [mz ez]. apply binary_round_aux_signed.
Qed.

Lemma f64_of_int_normal (p : positive) :
  Zpos p <= 2 ^ 53 ->
  exists m e,
    f64_of_int (Zpos p) = S754_finite false m e /\
    Zpos (digits2_pos m) = 53 /\ -52 <= e <= 1.
Proof.
  intros Hp. destruct (small_decomposition p Hp) as (q & n & -> & Hdq & Hn).
  rewrite f64_of_int_pos by lia.
  eexists; eexists. split; [reflexivity|].
  rewrite digits_shiftp, Z2Nat.id by lia. lia.
Qed.

Lemma SFltb_zero_positive (f : float64) :
  f = S754_infinity false \/ (exists m e, f = S754_finite false m e) ->
  SFltb f64_zero f = true.
Proof. intros [->|(m & e & ->)]; reflexivity. Qed.

Lemma SFltb_zero_signed (f : float64) : signed true f -> SFltb f64_zero f = false.
Proof. destruct f as [s|s| |s m e]; cbn; intros H; try subst s; reflexivity. Qed.

(** A positive difference gives a positive ratio. *)
Lemma ratio_positive (d o : positive) :
  Zpos d <= 2 ^ 53 -> Zpos o <= 2 ^ 53 ->
  SFltb f64_zero
    (f64_mul (f64_div (f64_of_int (Zpos d)) (f64_of_int (Zpos o))) (f64_of_int 100)) = true.
Proof.
  intros Hd Ho.
  destruct (f64_of_int_normal d Hd) as (mx & ex & -> & Hdx & Hex).
  destruct (f64_of_int_normal o Ho) as (my & ey & -> & Hdy & Hey).
  change (f64_of_int 100) with (S754_finite false 7036874417766400 (-46)).
  unfold f64_div, SFdiv, SFdiv_core_binary. cbn [xorb Zdigits2]. rewrite Hdx, Hdy.
  replace (fexp 53 1024 (53 + ex - (53 + ey))) with (ex - ey - 53)
    by (unfold fexp, emin; lia).
  replace (Z.min (ex - ey - 53) (ex - ey)) with (ex - ey - 53) by lia.
  replace (ex - ey - (ex - ey - 53)) with 53 by lia.
  pose proof (digits2_pos_bounds mx) as [Hmx _]. rewrite Hdx in Hmx.
  pose proof (digits2_pos_bounds my) as [_ Hmy]. rewrite Hdy in Hmy.
  rewrite Z.shiftl_mul_pow2 by lia.
  pose proof (Z_div_mod (Zpos mx * 2 ^ 53) (Zpos my) ltac:(lia)) as Hdiv.
  destruct (Z.div_eucl (Zpos mx * 2 ^ 53) (Zpos my)) as [q r].
  destruct Hdiv as [Hqr Hr].
  assert (Hq : 2 ^ 52 <= q).
  { destruct (Z_lt_le_dec q (2 ^ 52)) as [Hlt|]; [exfalso|assumption].
    change (53 - 1) with 52 in Hmx.
    assert (Zpos my * q + r < Zpos my * 2 ^ 52) by nia.
    assert (Zpos my * 2 ^ 52 < 2 ^ 53 * 2 ^ 52) by (apply Z.mul_lt_mono_pos_r; lia).
    assert (2 ^ 52 * 2 ^ 53 <= Zpos mx * 2 ^ 53) by (apply Z.mul_le_mono_nonneg_r; lia).
    lia. }
  pose proof (Zdigits2_lower q 52 ltac:(lia) Hq) as Hdq.
  destruct (binary_round_aux_positive false q (ex - ey - 53) (new_location (Zpos my) r)
              ltac:(lia) ltac:(lia)) as [->|(m & e & -> & Hme)].
  - reflexivity.
  - unfold f64_mul, SFmul. cbn [xorb].
    apply SFltb_zero_positive.
    assert (Hprod : Zpos (digits2_pos m) <= Zdigits2 (Zpos (m * 7036874417766400))).
    { change (Zpos (digits2_pos m)) with (Zdigits2 (Zpos m)).
      apply Zdigits2_mono; [lia|]. rewrite Pos2Z.inj_mul. nia. }
    destruct (binary_round_aux_positive false (Zpos (m * 7036874417766400)) (e + -46)
                loc_Exact ltac:(lia) ltac:(lia)) as [->|(m' & e' & -> & _)]; eauto.
Qed.

(** A difference that is not positive gives a ratio that is not
    positive. *)
Lemma ratio_not_positive (d : Z) (o : positive) :
  d <= 0 -> Zpos o <= 2 ^ 53 ->
  SFltb f64_zero
    (f64_mul (f64_div (f64_of_int d) (f64_of_int (Zpos o))) (f64_of_int 100)) = false.
Proof.
  intros Hd Ho.
  destruct (f64_of_int_normal o Ho) as (my & ey & -> & _).
  change (f64_of_int 100) with (S754_finite false 7036874417766400 (-46)).
  destruct d as [|p|p]; [reflexivity | lia |].
  pose proof (f64_of_int_negative p) as Hs.
  apply SFltb_zero_signed.
  destruct (f64_of_int (Zneg p)) as [s|s| |s m e]; cbn in Hs; try subst s; cbn; auto.
  unfold f64_div, SFdiv. cbn [xorb].
  destruct (SFdiv_core_binary 53 1024 (Zpos m) e (Zpos my) ey) as [[mz ez] lz].
  pose proof (binary_round_aux_signed true mz ez lz) as H.
  destruct (binary_round_aux 53 1024 true mz ez lz) as [s|s| |s m' e']; cbn in H;
    try subst s; cbn; auto.
  apply binary_round_aux_signed.
Qed.

(** ** Effective compressions *)

(** X20. After [CalculateCompressionRatio], for an original size of at
    least one byte and sizes up to 2^53, [IsEffective] holds exactly
    when the result is a success and the compressed file is strictly
    smaller than the original: the rounding of the ratio never hides a
    saving nor makes one up. *)
Theorem IsEffective_after_CalculateCompressionRatio (cr : CompressionResult.t) :
  0 < CompressionResult.OriginalSize cr <= 2 ^ 53 ->
  0 <= CompressionResult.CompressedSize cr <= 2 ^ 53 ->
  CompressionResult.IsEffective (CompressionResult.CalculateCompressionRatio cr) =
  CompressionResult.Success cr
  && (CompressionResult.CompressedSize cr <? CompressionResult.OriginalSize cr).
Proof.
  intros Ho Hc. unfold CompressionResult.CalculateCompressionRatio.
  replace (0 <? CompressionResult.OriginalSize cr) with true
    by (symmetry; apply Z.ltb_lt; lia).
  unfold CompressionResult.IsEffective.
  cbn [CompressionResult.Success CompressionResult.CompressionRatio].
  f_equal. unfold CompressionResult.ratio_of.
  rewrite f64_sub_of_int by lia.
  destruct (CompressionResult.OriginalSize cr) as [|o|o] eqn:Eo; try lia.
  destruct (Z.ltb_spec (CompressionResult.CompressedSize cr) (Zpos o)) as [Hlt|Hge].
  - destruct (Zpos o - CompressionResult.CompressedSize cr) as [|d|d] eqn:Ed; try lia.
    apply ratio_positive; lia.
  - apply ratio_not_positive; lia.
Qed.

Lemma IsEffective_after_CalculateCompressionRatio_witness :
  let cr := {| CompressionResult.CurrentFile := "a.pdf";
               CompressionResult.OriginalSize := 1000;
               CompressionResult.CompressedSize := 1100;
               CompressionResult.CompressionRatio := f64_of_int 50;
               CompressionResult.SavedSpace := 500;
               CompressionResult.Success := true;
               CompressionResult.Error := None |} in
  CompressionResult.IsEffective cr = true /\
  CompressionResult.IsEffective (CompressionResult.CalculateCompressionRatio cr) = false.
Proof.
  intros cr. split; [vm_compute; reflexivity|].
  rewrite (IsEffective_after_CalculateCompressionRatio cr); [reflexivity | cbn; lia | cbn; lia].
Defined.
